(** * Cross-exchange arbitrage monitor: connector framework and detection engine

    A shallow embedding of the TypeScript sources

      - [server/services/arbitrage.ts]   (class [ArbitrageEngine])
      - [server/exchanges/base.ts]       (class [BaseExchange], found at the
                                          end of [bitget.ts])
      - the eight exchange adapters      (Bybit, OKX, MEXC, Bitget, Gate.io,
                                          KuCoin, CoinEx, BingX)
      - [server/storage.ts]              (class [MemStorage])
      - [server/services/telegram.ts],
        [server/services/mexc-api.ts]
        and [server/routes.ts]           (classes [TelegramService] and
                                          [MexcApiService], [registerRoutes];
                                          the three are in [unnamed/part_001])
      - the reducers and the toggles of the dashboard
                                         ([client/src/pages/dashboard.tsx],
                                          [client/src/App.tsx])

    together with the properties the specification states about them and
    further properties of the code.

    JavaScript values are modelled as follows.
      - [number]: an interface [JSNumber] with two implementations, the
        IEEE-754 binary64 numbers of the language ([float], the kernel's
        primitive floats) and an exact model [xnum] (rationals extended with
        the infinities and NaN) in which no operation rounds.  Every function
        of the program is written once, over the interface.
      - [string]: [string]; [Map<string, V>]: [gmap string V];
        [Set<string>]: a duplicate-free list in insertion order.
      - [Date.now()]: an integer number of milliseconds, supplied by the caller
        of each handler. *)

From Stdlib Require Import ZArith QArith Qround Qabs Lqa List String Ascii Lia.
From Stdlib Require Import Bool.
From Stdlib Require Import Sorting.Sorted Sorting.Permutation.
From Stdlib Require Import PrimFloat FloatOps SpecFloat FloatAxioms.
From stdpp Require Import gmap strings list pretty.

Set Warnings "-inexact-float,-register-all".

(** ** JavaScript numbers *)

(** The operations of [number] the program uses.  [num_lit m e] is the decimal
    literal [m × 10^e] (so [0.3] is [num_lit 3 (-1)]); [num_fixed d x] is
    [parseFloat(x.toFixed(d))]; [num_truthy] is [ToBoolean]. *)
Class JSNumber (num : Type) : Type := {
  num_lit : Z -> Z -> num;
  num_nan : num;
  num_inf : num;
  num_add : num -> num -> num;
  num_sub : num -> num -> num;
  num_mul : num -> num -> num;
  num_div : num -> num -> num;
  num_ltb : num -> num -> bool;
  num_leb : num -> num -> bool;
  num_truthy : num -> bool;
  num_fixed : nat -> num -> num
}.

Declare Scope js_scope.
Delimit Scope js_scope with js.
Notation "x + y" := (num_add x y) : js_scope.
Notation "x - y" := (num_sub x y) : js_scope.
Notation "x * y" := (num_mul x y) : js_scope.
Notation "x / y" := (num_div x y) : js_scope.
Notation "x <? y" := (num_ltb x y) : js_scope.
Notation "x <=? y" := (num_leb x y) : js_scope.
Notation "x >? y" := (num_ltb y x) : js_scope.
Notation "x >=? y" := (num_leb y x) : js_scope.

(** [x || y] on numbers. *)
Definition num_or {num} `{JSNumber num} (x y : num) : num :=
  if num_truthy x then x else y.
Notation "x ||| y" := (num_or x y) (at level 50, left associativity) : js_scope.

Definition num_int {num} `{JSNumber num} (z : Z) : num := num_lit z 0.

(** [-x]: the product with [-1] is exact, and turns the sign of zero and of
    the infinities as the unary minus does. *)
Definition num_neg {num} `{JSNumber num} (x : num) : num :=
  num_mul (num_int (-1)) x.

(** What the comparisons with zero satisfy, in binary64 and in the exact
    model alike: zero is not below itself; a number above zero is truthy
    (it is neither zero nor NaN); a truthy number that is not at most zero
    is above zero. *)
Record NumberOrder (num : Type) `{JSNumber num} : Prop := {
  ord_zero : (num_int 0 <=? num_int 0)%js = true;
  ord_positive_truthy :
    forall x : num, (x >? num_int 0)%js = true -> num_truthy x = true;
  ord_truthy_positive :
    forall x : num, num_truthy x = true -> (x <=? num_int 0)%js = false ->
                    (x >? num_int 0)%js = true
}.

(** *** The exact model *)

Module Exact.

Inductive xnum : Type :=
| XFin (q : Q)
| XInf (neg : bool)
| XNaN.

Definition Qltb (a b : Q) : bool := negb (Qle_bool b a).
Definition Qzero (a : Q) : bool := Qeq_bool a 0.

(** [m × 10^e] as a rational. *)
Definition Qdec (m e : Z) : Q :=
  if (0 <=? e)%Z then inject_Z (m * 10 ^ e)
  else (inject_Z m / inject_Z (10 ^ (- e)))%Q.

Definition xneg (a : xnum) : xnum :=
  match a with
  | XFin q => XFin (- q)
  | XInf s => XInf (negb s)
  | XNaN => XNaN
  end.

Definition xadd (a b : xnum) : xnum :=
  match a, b with
  | XNaN, _ | _, XNaN => XNaN
  | XFin p, XFin q => XFin (p + q)
  | XInf s, XInf t => if Bool.eqb s t then XInf s else XNaN
  | XInf s, XFin _ | XFin _, XInf s => XInf s
  end.

Definition xsub (a b : xnum) : xnum := xadd a (xneg b).

Definition xmul (a b : xnum) : xnum :=
  match a, b with
  | XNaN, _ | _, XNaN => XNaN
  | XFin p, XFin q => XFin (p * q)
  | XInf s, XInf t => XInf (xorb s t)
  | XInf s, XFin q | XFin q, XInf s =>
      if Qzero q then XNaN else XInf (xorb s (Qltb q 0))
  end.

Definition xdiv (a b : xnum) : xnum :=
  match a, b with
  | XNaN, _ | _, XNaN => XNaN
  | XFin p, XFin q =>
      if Qzero q then (if Qzero p then XNaN else XInf (Qltb p 0))
      else XFin (p / q)
  | XFin _, XInf _ => XFin 0
  | XInf s, XFin q => XInf (xorb s (Qltb q 0))
  | XInf _, XInf _ => XNaN
  end.

Definition xltb (a b : xnum) : bool :=
  match a, b with
  | XFin p, XFin q => Qltb p q
  | XFin _, XInf t => negb t
  | XInf s, XFin _ => s
  | XInf s, XInf t => s && negb t
  | _, _ => false
  end.

Definition xleb (a b : xnum) : bool :=
  match a, b with
  | XFin p, XFin q => Qle_bool p q
  | XFin _, XInf t => negb t
  | XInf s, XFin _ => s
  | XInf s, XInf t => s || negb t
  | _, _ => false
  end.

Definition xtruthy (a : xnum) : bool :=
  match a with
  | XFin q => negb (Qzero q)
  | XInf _ => true
  | XNaN => false
  end.

(** [Number.prototype.toFixed] picks the integer [n] with [n / 10^d]
    closest to [|x|], the larger one on a tie, and keeps the sign; from
    [10^21] on it prints the number itself. *)
Definition Q_toFixed (d : nat) (q : Q) : Q :=
  let p := (10 ^ Z.of_nat d)%Z in
  let a := Qabs q in
  if Qle_bool (inject_Z (10 ^ 21)) a then q
  else
    let n := Qfloor (a * inject_Z p + (1 # 2)) in
    let r := (inject_Z n / inject_Z p)%Q in
    if Qltb q 0 then (- r)%Q else r.

Definition xfixed (d : nat) (a : xnum) : xnum :=
  match a with
  | XFin q => XFin (Q_toFixed d q)
  | _ => a
  end.

#[export] Instance xnum_number : JSNumber xnum := {|
  num_lit m e := XFin (Qdec m e);
  num_nan := XNaN;
  num_inf := XInf false;
  num_add := xadd;
  num_sub := xsub;
  num_mul := xmul;
  num_div := xdiv;
  num_ltb := xltb;
  num_leb := xleb;
  num_truthy := xtruthy;
  num_fixed := xfixed
|}.

(** Numerical equality of exact numbers ([Q] has several representations of
    one rational). *)
Definition xeq (a b : xnum) : Prop :=
  match a, b with
  | XFin p, XFin q => (p == q)%Q
  | XInf s, XInf t => s = t
  | XNaN, XNaN => True
  | _, _ => False
  end.

(** The numbers that compare: all but NaN. *)
Definition ordered (a : xnum) : Prop := a <> XNaN.

End Exact.

(** *** Binary64 *)

Module Binary64.

(** The double nearest to [n / d] (ties to even), for [0 <= n] and [0 < d]:
    the quotient is taken with more than 64 significant bits and a sticky
    bit, then rounded once. *)
Definition Z_div_to_float (n d : Z) : float :=
  if (n =? 0)%Z then 0%float
  else
    let k := Z.max 0 (64 + Z.log2 d - Z.log2 n) in
    let scaled := (n * 2 ^ k)%Z in
    let q := (scaled / d)%Z in
    let sticky := if (scaled mod d =? 0)%Z then 0%Z else 1%Z in
    SF2Prim (binary_normalize prec emax (2 * q + sticky) (- k - 1) false).

Definition float_lit (m e : Z) : float :=
  let r := if (0 <=? e)%Z then Z_div_to_float (Z.abs m * 10 ^ e) 1
           else Z_div_to_float (Z.abs m) (10 ^ (- e)) in
  if (m <? 0)%Z then (- r)%float else r.

Definition float_truthy (x : float) : bool :=
  negb (PrimFloat.eqb x 0) && PrimFloat.eqb x x.

(** [parseFloat(x.toFixed(d))]: the decimal rounding is done on the exact
    value [m × 2^e] of the double, the result is the double nearest to the
    printed decimal. *)
Definition float_fixed (d : nat) (x : float) : float :=
  match Prim2SF x with
  | S754_finite s m e =>
      if PrimFloat.leb 1e21 (PrimFloat.abs x) then x
      else
        let p := (10 ^ Z.of_nat d)%Z in
        let n := if (0 <=? e)%Z then (Z.pos m * 2 ^ e * p)%Z
                 else ((2 * Z.pos m * p + 2 ^ (- e)) / 2 ^ (- e + 1))%Z in
        let r := Z_div_to_float n p in
        if s then (- r)%float else r
  | S754_zero _ => 0%float
  | _ => x
  end.

#[export] Instance float_number : JSNumber float := {|
  num_lit := float_lit;
  num_nan := PrimFloat.nan;
  num_inf := PrimFloat.infinity;
  num_add := PrimFloat.add;
  num_sub := PrimFloat.sub;
  num_mul := PrimFloat.mul;
  num_div := PrimFloat.div;
  num_ltb := PrimFloat.ltb;
  num_leb := PrimFloat.leb;
  num_truthy := float_truthy;
  num_fixed := float_fixed
|}.

End Binary64.

(** ** Shared schema *)

(** The exchange identifiers, as [createExchange] enumerates them. *)
Inductive ExchangeId : Type :=
| bybit | okx | mexc | bitget | gateio | kucoin | coinex | bingx.

#[export] Instance ExchangeId_eq_dec : EqDecision ExchangeId.
Proof. solve_decision. Defined.

Definition exchange_name (e : ExchangeId) : string :=
  match e with
  | bybit => "bybit" | okx => "okx" | mexc => "mexc" | bitget => "bitget"
  | gateio => "gateio" | kucoin => "kucoin" | coinex => "coinex"
  | bingx => "bingx"
  end.

Record Ticker {num : Type} : Type := mkTicker {
  tk_exchange : ExchangeId;
  tk_pair : string;
  tk_bid : num;
  tk_ask : num;
  tk_last : num;
  tk_volume24h : num;
  tk_change24h : num;
  tk_timestamp : Z
}.
Arguments Ticker : clear implicits.
Arguments mkTicker {num}.

Record Settings {num : Type} : Type := mkSettings {
  minProfitPercent : num;
  enabledExchanges : list ExchangeId;
  enabledPairs : list string;
  telegramEnabled : bool;
  soundEnabled : bool;
  tradeAmount : num
}.
Arguments Settings : clear implicits.
Arguments mkSettings {num}.

(** [Partial<Settings>]: every field may be absent. *)
Record PartialSettings {num : Type} : Type := mkPartial {
  p_minProfitPercent : option num;
  p_enabledExchanges : option (list ExchangeId);
  p_enabledPairs : option (list string);
  p_telegramEnabled : option bool;
  p_soundEnabled : option bool;
  p_tradeAmount : option num
}.
Arguments PartialSettings : clear implicits.
Arguments mkPartial {num}.

(** [`${a}-${b}`] *)
Definition dash (a b : string) : string := a +:+ "-" +:+ b.

(** ** The arbitrage engine ([server/services/arbitrage.ts]) *)

Module Engine.
Section WithNumbers.

Context {num : Type} `{JSNumber num}.

(** [EXCHANGE_INFO[e].takerFee]: the fee table of the shared schema. *)
Variable takerFee : ExchangeId -> num.

Local Open Scope js_scope.

Record PricePoint : Type := mkPoint {
  pp_exchange : ExchangeId;
  pp_price : num
}.

Record AnalysisResult : Type := mkAnalysis {
  ar_pair : string;
  ar_prices : list PricePoint;
  ar_bestBuy : PricePoint;
  ar_bestSell : PricePoint;
  ar_spread : num;
  ar_timestamp : Z
}.

(** The [id] of an opportunity is a random UUID and is left out. *)
Record ArbitrageOpportunity : Type := mkOpportunity {
  op_pair : string;
  buyExchange : ExchangeId;
  sellExchange : ExchangeId;
  buyPrice : num;
  sellPrice : num;
  spreadPercent : num;
  profitPercent : num;
  estimatedProfit : num;
  volume : num;
  buyFee : num;
  sellFee : num;
  op_timestamp : Z
}.

Inductive Event : Type :=
    | EvAnalysis (a : AnalysisResult)
    | EvOpportunity (o : ArbitrageOpportunity).

Record State : Type := mkState {
  tickers : gmap string (Ticker num);
  settings : Settings num;
  lastOpportunities : gmap string Z;
  analysisCount : nat
}.

Definition COOLDOWN_MS : Z := 30000.

(** *** [Array.prototype.sort] with a comparison function

The sort is stable (ECMAScript 2019); a result of the comparison that is
not above zero, NaN included, leaves the two elements in their order.
Written as the insertion of each element, right to left, in front of
the first element it does not exceed.  The language fixes the result for
a comparison function that orders the elements, as the difference of two
numbers that are not NaN does; for any other the order is left to the
implementation, and no property below is about it. *)
Section Sort.
Context {A : Type} (comparefn : A -> A -> num).

Fixpoint sort_insert (x : A) (l : list A) : list A :=
  match l with
  | [] => [x]
  | y :: ys =>
      if comparefn x y >? num_int 0 then y :: sort_insert x ys
      else x :: y :: ys
  end.

Definition sort (l : list A) : list A := foldr sort_insert [] l.
End Sort.

Definition tickerKey (exchange : ExchangeId) (pair : string) : string :=
  dash (exchange_name exchange) pair.

Definition opportunityKey (pair : string) (buy sell : ExchangeId) : string :=
  dash (dash pair (exchange_name buy)) (exchange_name sell).

(** Lines 55-66: the asks of the enabled exchanges whose cached ticker has
[ask > 0] and [bid > 0], in the order of [enabledExchanges]. *)
Definition usable (t : Ticker num) : bool :=
  (tk_ask t >? num_int 0) && (tk_bid t >? num_int 0).

Definition collectPrices (st : State) (pair : string) : list PricePoint :=
  flat_map
    (fun exchange =>
       match tickers st !! tickerKey exchange pair with
       | Some ticker =>
           if usable ticker then [mkPoint exchange (tk_ask ticker)] else []
       | None => []
       end)
    (enabledExchanges (settings st)).

(** The values one pass computes for a pair (lines 68-105). *)
Record Quote : Type := mkQuote {
  q_prices : list PricePoint;
  q_bestBuy : PricePoint;
  q_bestSell : PricePoint;
  q_sellPrice : num;
  q_spread : num;
  q_buyFee : num;
  q_sellFee : num;
  q_profitPercent : num
}.

Definition spreadOf (sellPrice buyPrice : num) : num :=
  let priceDiff := sellPrice - buyPrice in
  (priceDiff / buyPrice) * num_int 100.

Definition profitOf (spread buyFee sellFee : num) : num :=
  let totalFees := (buyFee + sellFee) * num_int 100 in
  spread - totalFees.

Definition analyse (st : State) (pair : string) : option Quote :=
  let prices := collectPrices st pair in
  if (length prices <? 2)%nat then None
  else
    let prices := sort (fun a b => pp_price a - pp_price b) prices in
    match head prices, last prices with
    | Some bestBuy, Some bestSell =>
        let sellTicker := tickers st !! tickerKey (pp_exchange bestSell) pair in
        let sellPrice :=
          match sellTicker with
          | Some t => tk_bid t ||| pp_price bestSell
          | None => pp_price bestSell
          end in
        let spread := spreadOf sellPrice (pp_price bestBuy) in
        let buyFee := takerFee (pp_exchange bestBuy) in
        let sellFee := takerFee (pp_exchange bestSell) in
        Some (mkQuote prices bestBuy bestSell sellPrice spread buyFee sellFee
                      (profitOf spread buyFee sellFee))
    | _, _ => None
    end.

Definition analysisOf (now : Z) (pair : string) (q : Quote) : AnalysisResult :=
  mkAnalysis pair (q_prices q) (q_bestBuy q)
             (mkPoint (pp_exchange (q_bestSell q)) (q_sellPrice q))
             (q_spread q) now.

(** Lines 115-141. *)
Definition opportunityOf (now : Z) (pair : string) (st : State) (q : Quote)
  : ArbitrageOpportunity :=
  let buyPriceHP := num_fixed 12 (pp_price (q_bestBuy q)) in
  let sellPriceHP := num_fixed 12 (q_sellPrice q) in
  let spreadHP := num_fixed 10 (q_spread q) in
  let profitHP := num_fixed 10 (q_profitPercent q) in
  let tradeAmount := tradeAmount (settings st) in
  let buyFeeUSD := num_fixed 10 (q_buyFee q * tradeAmount) in
  let sellFeeUSD := num_fixed 10 (q_sellFee q * tradeAmount) in
  let estimatedProfitUSD :=
    num_fixed 10 ((profitHP / num_int 100) * tradeAmount) in
  mkOpportunity pair (pp_exchange (q_bestBuy q)) (pp_exchange (q_bestSell q))
                buyPriceHP sellPriceHP spreadHP profitHP estimatedProfitUSD
                (num_int 0) buyFeeUSD sellFeeUSD now.

(** [this.lastOpportunities.get(key) || 0] *)
Definition lastTimeOf (st : State) (key : string) : Z :=
  match lastOpportunities st !! key with
  | Some t => t
  | None => 0%Z
  end.

(** [analyzePair], at the instant [now]. *)
Definition analyzePair (now : Z) (pair : string) (st : State)
  : State * list Event :=
  match analyse st pair with
  | None => (st, [])
  | Some q =>
      let st1 := mkState (tickers st) (settings st) (lastOpportunities st)
                         (S (analysisCount st)) in
      let analysis :=
        if q_spread q >=? num_lit 3 (-1)
        then [EvAnalysis (analysisOf now pair q)] else [] in
      if q_profitPercent q >=? minProfitPercent (settings st) then
        let opportunityKey :=
          opportunityKey pair (pp_exchange (q_bestBuy q))
                         (pp_exchange (q_bestSell q)) in
        let lastTime := lastTimeOf st opportunityKey in
        if (now - lastTime <? COOLDOWN_MS)%Z then (st1, analysis)
        else
          (mkState (tickers st) (settings st)
                   (<[opportunityKey := now]> (lastOpportunities st))
                   (S (analysisCount st)),
           analysis ++ [EvOpportunity (opportunityOf now pair st q)])
      else (st1, analysis)
  end.

(** [analyzeAllPairs]: one scan. *)
Definition analyzeAllPairs (now : Z) (st : State) : State * list Event :=
  fold_left
    (fun acc pair =>
       let '(st', evs) := analyzePair now pair (fst acc) in
       (st', snd acc ++ evs))
    (enabledPairs (settings st)) (st, []).

Definition updateSettings (newSettings : PartialSettings num) (st : State)
  : State :=
  let old := settings st in
  let pick {T} (o : option T) (d : T) : T :=
    match o with Some v => v | None => d end in
  mkState (tickers st)
          (mkSettings
             (pick (p_minProfitPercent newSettings) (minProfitPercent old))
             (pick (p_enabledExchanges newSettings) (enabledExchanges old))
             (pick (p_enabledPairs newSettings) (enabledPairs old))
             (pick (p_telegramEnabled newSettings) (telegramEnabled old))
             (pick (p_soundEnabled newSettings) (soundEnabled old))
             (pick (p_tradeAmount newSettings) (tradeAmount old)))
          (lastOpportunities st) (analysisCount st).

Definition getSettings (st : State) : Settings num := settings st.

Definition updateTicker (ticker : Ticker num) (st : State) : State :=
  let key := tickerKey (tk_exchange ticker) (tk_pair ticker) in
  mkState (<[key := ticker]> (tickers st)) (settings st)
          (lastOpportunities st) (analysisCount st).

(** *** Reading a pass

    [quoted st pair e t]: [e] is enabled and its cached ticker [t] for [pair]
    has [ask > 0] and [bid > 0]; these are the exchanges a pass compares. *)
Definition quoted (st : State) (pair : string) (e : ExchangeId)
    (t : Ticker num) : Prop :=
  In e (enabledExchanges (settings st))
  /\ tickers st !! tickerKey e pair = Some t
  /\ usable t = true.

(** [v] is the lowest ask (resp. the highest bid) among those exchanges. *)
Definition is_min_ask (st : State) (pair : string) (v : num) : Prop :=
  (exists e t, quoted st pair e t /\ tk_ask t = v)
  /\ forall e t, quoted st pair e t -> (v <=? tk_ask t) = true.

Definition is_max_bid (st : State) (pair : string) (v : num) : Prop :=
  (exists e t, quoted st pair e t /\ tk_bid t = v)
  /\ forall e t, quoted st pair e t -> (tk_bid t <=? v) = true.

(** The opportunities among the events of a pass. *)
Definition opportunities (evs : list Event) : list ArbitrageOpportunity :=
  flat_map (fun ev => match ev with
                      | EvOpportunity o => [o]
                      | EvAnalysis _ => []
                      end) evs.

(** The condition under which a pass emits: the threshold is met and the
    last recorded emission of the key is 30 seconds old or more. *)
Definition qualifies (st : State) (q : Quote) : bool :=
  q_profitPercent q >=? minProfitPercent (settings st).

Definition cooledDown (now : Z) (pair : string) (st : State) (q : Quote)
  : bool :=
  (COOLDOWN_MS <=? now - lastTimeOf st
     (opportunityKey pair (pp_exchange (q_bestBuy q))
                     (pp_exchange (q_bestSell q))))%Z.

(** [e] has a usable ticker for [pair] in the cache. *)
Definition contributes (st : State) (pair : string) (e : ExchangeId) : bool :=
  match tickers st !! tickerKey e pair with
  | Some t => usable t
  | None => false
  end.

(** Two enabled exchanges or more have a usable ticker for [pair] in the
    cache (an exchange counts as often as [enabledExchanges] lists it). *)
Definition analysable (st : State) (pair : string) : bool :=
  (2 <=? length (List.filter (contributes st pair)
                             (enabledExchanges (settings st))))%nat.

End WithNumbers.

Arguments PricePoint : clear implicits.
Arguments AnalysisResult : clear implicits.
Arguments ArbitrageOpportunity : clear implicits.
Arguments Event : clear implicits.
Arguments State : clear implicits.
Arguments Quote : clear implicits.

Section Schema.
Context {num : Type} `{JSNumber num}.
Local Open Scope js_scope.

(** [EXCHANGES]: the list of exchange identifiers of the shared schema. *)
Variable EXCHANGES : list ExchangeId.

(** [getPricesForPair] (lines 161-173): the tickers cached for the pair on
    the exchanges of [EXCHANGES], by ascending ask. *)
Definition getPricesForPair (st : State num) (pair : string)
  : list (ExchangeId * Ticker num) :=
  let prices :=
    flat_map
      (fun exchange =>
         match tickers st !! tickerKey exchange pair with
         | Some ticker => [(exchange, ticker)]
         | None => []
         end)
      EXCHANGES in
  sort (fun a b => tk_ask (snd a) - tk_ask (snd b)) prices.

(** [getAnalysisCount] *)
Definition getAnalysisCount (st : State num) : nat := analysisCount st.

End Schema.

End Engine.


(** ** JavaScript strings

    Strings are sequences of bytes; the functions below agree with the
    JavaScript ones on ASCII text, which is what symbols and frames of the
    exchanges are made of. *)

Module JSString.

(** [s.startsWith(p)] *)
Fixpoint startsWith (s p : string) : bool :=
  match p, s with
  | EmptyString, _ => true
  | String a p', String b s' => if Ascii.eqb a b then startsWith s' p' else false
  | String _ _, EmptyString => false
  end.

Fixpoint drop (n : nat) (s : string) : string :=
  match n, s with
  | O, _ => s
  | S n', String _ s' => drop n' s'
  | S _, EmptyString => EmptyString
  end.

Fixpoint take (n : nat) (s : string) : string :=
  match n, s with
  | S n', String c s' => String c (take n' s')
  | _, _ => EmptyString
  end.

(** [s.indexOf(p)] *)
Fixpoint indexOf (s p : string) : option nat :=
  if startsWith s p then Some O
  else match s with
       | EmptyString => None
       | String _ s' => option_map S (indexOf s' p)
       end.

(** [s.includes(p)] *)
Definition includes (s p : string) : bool :=
  match indexOf s p with Some _ => true | None => false end.

(** [s.replace(p, r)] for a string pattern [p] and a replacement [r] without
    [$]: the first occurrence of [p] is replaced. *)
Fixpoint replace (s p r : string) : string :=
  if startsWith s p then r +:+ drop (String.length p) s
  else match s with
       | EmptyString => EmptyString
       | String c s' => String c (replace s' p r)
       end.

(** [s.endsWith(p)] *)
Definition endsWith (s p : string) : bool :=
  (String.length p <=? String.length s)%nat
  && String.eqb (drop (String.length s - String.length p) s) p.

Definition upper_ascii (c : ascii) : ascii :=
  let n := nat_of_ascii c in
  if ((97 <=? n) && (n <=? 122))%nat then ascii_of_nat (n - 32) else c.

(** [s.toUpperCase()] *)
Fixpoint toUpperCase (s : string) : string :=
  match s with
  | EmptyString => EmptyString
  | String c s' => String (upper_ascii c) (toUpperCase s')
  end.

(** [s.slice(0, n)] is [take n s]. *)

Fixpoint contains_char (c : ascii) (s : string) : bool :=
  match s with
  | EmptyString => false
  | String d s' => Ascii.eqb c d || contains_char c s'
  end.

(** The text before and after the first (resp. the last) occurrence of a
    character: [s.slice(0, i)] and [s.slice(i + 1)] for [i = s.indexOf(c)]
    (resp. [s.lastIndexOf(c)]). *)
Fixpoint splitFirst (c : ascii) (s : string) : option (string * string) :=
  match s with
  | EmptyString => None
  | String d s' =>
      if Ascii.eqb c d then Some (EmptyString, s')
      else match splitFirst c s' with
           | Some (a, b) => Some (String d a, b)
           | None => None
           end
  end.

Fixpoint splitLast (c : ascii) (s : string) : option (string * string) :=
  match s with
  | EmptyString => None
  | String d s' =>
      match splitLast c s' with
      | Some (a, b) => Some (String d a, b)
      | None => if Ascii.eqb c d then Some (EmptyString, s') else None
      end
  end.

End JSString.

(** ** Symbol translation of the eight adapters *)

Module Symbols.
Import JSString.

(** Bybit, Bitget and CoinEx write the pair without a separator. *)
Definition format_plain (pair : string) : string := replace pair "/" "".

Definition parse_plain (symbol : string) : string :=
  if endsWith symbol "USDT" then replace symbol "USDT" "" +:+ "/USDT"
  else if endsWith symbol "USDC" then replace symbol "USDC" "" +:+ "/USDC"
  else symbol.

(** OKX, KuCoin and BingX use a hyphen. *)
Definition format_hyphen (pair : string) : string := replace pair "/" "-".
Definition parse_hyphen (symbol : string) : string := replace symbol "-" "/".

(** MEXC: no separator, upper case. *)
Definition format_mexc (pair : string) : string :=
  toUpperCase (replace pair "/" "").

(** Gate.io: an underscore, then the entries of [symbolMapping] (resp.
    [reverseMapping]) in turn; both objects are empty. *)
Definition symbolMapping : list (string * string) := [].
Definition reverseMapping : list (string * string) := [].

Definition format_gateio (pair : string) : string :=
  fold_left (fun formatted ft => replace formatted (fst ft) (snd ft))
            symbolMapping (replace pair "/" "_").

Definition parse_gateio (symbol : string) : string :=
  fold_left (fun parsed ft => replace parsed (fst ft) (snd ft))
            reverseMapping (replace symbol "_" "/").

Definition formatSymbol (e : ExchangeId) (pair : string) : string :=
  match e with
  | bybit | bitget | coinex => format_plain pair
  | okx | kucoin | bingx => format_hyphen pair
  | mexc => format_mexc pair
  | gateio => format_gateio pair
  end.

Definition parseSymbol (e : ExchangeId) (symbol : string) : string :=
  match e with
  | bybit | bitget | coinex | mexc => parse_plain symbol
  | okx | kucoin | bingx => parse_hyphen symbol
  | gateio => parse_gateio symbol
  end.

End Symbols.


(** ** JSON values and the dynamic operations on them *)

Module Json.
Import JSString.

(** A value as [JSON.parse] returns it; [JUndefined] is what reading an
    absent property gives. *)
Inductive json {num : Type} : Type :=
| JUndefined
| JNull
| JBool (b : bool)
| JNum (n : num)
| JStr (s : string)
| JArr (items : list json)
| JObj (fields : list (string * json)).
Arguments json : clear implicits.

(** Running a handler: the events it emitted, and its result unless it threw. *)
Definition Run (E A : Type) : Type := (list E * option A)%type.

Definition ret {E A} (a : A) : Run E A := ([], Some a).
Definition throw {E A} : Run E A := ([], None).
Definition emit {E} (e : E) : Run E unit := ([e], Some tt).
Definition bind {E A B} (m : Run E A) (f : A -> Run E B) : Run E B :=
  match m with
  | (es, None) => (es, None)
  | (es, Some a) => let '(es', r) := f a in (es ++ es', r)
  end.
Definition lift {E A} (o : option A) : Run E A :=
  match o with Some a => ret a | None => throw end.

Notation "'let*' x := m 'in' k" := (bind m (fun x => k))
  (at level 10, x name, m at level 100, k at level 200).
Notation "m >>> k" := (bind m (fun _ => k))
  (at level 61, left associativity).

(** [for (const x of l) body(x)] *)
Fixpoint for_each {E A} (l : list A) (body : A -> Run E unit) : Run E unit :=
  match l with
  | [] => ret tt
  | x :: rest => bind (body x) (fun _ => for_each rest body)
  end.

(** Every event a run emits satisfies [P]. *)
Definition emits {E A : Type} (P : E -> Prop) (m : Run E A) : Prop :=
  Forall P (fst m).

(** [l.map(f)] with a callback that may throw. *)
Fixpoint map_run {E A B} (f : A -> Run E B) (l : list A) : Run E (list B) :=
  match l with
  | [] => ret []
  | x :: rest =>
      bind (f x) (fun y => bind (map_run f rest) (fun ys => ret (y :: ys)))
  end.

Section WithNumbers.
Context {num : Type} `{JSNumber num}.
Local Open Scope js_scope.

Definition num_eqb (a b : num) : bool := (a <=? b) && (b <=? a).

(** [ToBoolean] *)
Definition truthy (j : json num) : bool :=
  match j with
  | JUndefined | JNull => false
  | JBool b => b
  | JNum n => num_truthy n
  | JStr s => negb (String.eqb s "")
  | JArr _ | JObj _ => true
  end.

Fixpoint assoc (k : string) (fields : list (string * json num)) : json num :=
  match fields with
  | [] => JUndefined
  | (k', v) :: rest => if String.eqb k k' then v else assoc k rest
  end.

(** [j.k]: a [TypeError] on [null] and [undefined]. *)
Definition get (j : json num) (k : string) : option (json num) :=
  match j with
  | JUndefined | JNull => None
  | JObj fields => Some (assoc k fields)
  | JArr items =>
      Some (if String.eqb k "length"
            then JNum (num_int (Z.of_nat (length items))) else JUndefined)
  | JStr s =>
      Some (if String.eqb k "length"
            then JNum (num_int (Z.of_nat (String.length s))) else JUndefined)
  | _ => Some JUndefined
  end.

(** [j?.k] *)
Definition get_opt (j : json num) (k : string) : json num :=
  match get j k with Some v => v | None => JUndefined end.

(** [j[0]] *)
Definition first (j : json num) : option (json num) :=
  match j with
  | JUndefined | JNull => None
  | JArr (a :: _) => Some a
  | JStr (String c _) => Some (JStr (String c ""))
  | JObj fields => Some (assoc "0" fields)
  | _ => Some JUndefined
  end.

(** The elements a [for ... of] loop or an array pattern visits; a
    [TypeError] on what is not iterable. *)
Fixpoint chars (s : string) : list (json num) :=
  match s with
  | EmptyString => []
  | String c s' => JStr (String c "") :: chars s'
  end.

Definition iterate (j : json num) : option (list (json num)) :=
  match j with
  | JArr items => Some items
  | JStr s => Some (chars s)
  | _ => None
  end.

(** [a || b] on values. *)
Definition or_else (a b : json num) : json num := if truthy a then a else b.

(** [j === 0] and [j === "text"] *)
Definition is_zero (j : json num) : bool :=
  match j with JNum n => num_eqb n (num_int 0) | _ => false end.

Definition is_str (j : json num) (s : string) : bool :=
  match j with JStr t => String.eqb t s | _ => false end.

(** *** [parseFloat] *)

Definition digit_of (c : ascii) : option Z :=
  let n := nat_of_ascii c in
  if ((48 <=? n) && (n <=? 57))%nat then Some (Z.of_nat (n - 48)) else None.

(** The digits at the head of [s]: their value after [acc], how many there
    are after [n], and the rest of the string. *)
Fixpoint read_digits (s : string) (acc : Z) (n : nat) : Z * nat * string :=
  match s with
  | String c s' =>
      match digit_of c with
      | Some d => read_digits s' (acc * 10 + d)%Z (S n)
      | None => (acc, n, s)
      end
  | EmptyString => (acc, n, s)
  end.

Definition is_space (c : ascii) : bool :=
  let n := nat_of_ascii c in
  ((9 <=? n) && (n <=? 13) || (n =? 32))%nat.

Fixpoint trimStart (s : string) : string :=
  match s with
  | String c s' => if is_space c then trimStart s' else s
  | EmptyString => s
  end.

Definition read_sign (s : string) : bool * string :=
  match s with
  | String "-" s' => (true, s')
  | String "+" s' => (false, s')
  | _ => (false, s)
  end.

Definition read_exponent (s : string) : Z :=
  match s with
  | String c s' =>
      if Ascii.eqb c "e" || Ascii.eqb c "E" then
        let '(neg, s'') := read_sign s' in
        let '(v, n, _) := read_digits s'' 0 0 in
        match n with
        | O => 0%Z
        | _ => if neg then (- v)%Z else v
        end
      else 0%Z
  | EmptyString => 0%Z
  end.

(** [parseFloat(s)] for a string: the longest prefix of the trimmed string
    that is a decimal literal, NaN when there is none.  The sign applies to
    the value of the digits, so ["-0"] reads as the negative zero. *)
Definition parseFloat_string (s : string) : num :=
  let '(neg, s1) := read_sign (trimStart s) in
  if startsWith s1 "Infinity" then
    (if neg then num_neg num_inf else num_inf)
  else
    let '(ip, ni, s2) := read_digits s1 0 0 in
    let '(mant, nf, s3) :=
      match s2 with
      | String "." s' => read_digits s' ip 0
      | _ => (ip, O, s2)
      end in
    match (ni + nf)%nat with
    | O => num_nan
    | _ =>
        let value := num_lit mant (read_exponent s3 - Z.of_nat nf) in
        if neg then num_neg value else value
    end.

(** [parseFloat(j)]: the argument is converted to a string first; an array
    prints as its elements separated by commas, so its first element decides. *)
Fixpoint parseFloat (j : json num) : num :=
  match j with
  | JStr s => parseFloat_string s
  | JNum n => n
  | JArr (a :: _) =>
      match a with
      | JUndefined | JNull => num_nan
      | _ => parseFloat a
      end
  | _ => num_nan
  end.

End WithNumbers.
End Json.


(** ** Message decoding of the adapters *)

Module Adapters.
Import JSString Json Symbols.

Section WithNumbers.
Context {num : Type} `{JSNumber num}.
Local Open Scope js_scope.

Record OrderBook : Type := mkOrderBook {
  ob_exchange : ExchangeId;
  ob_pair : string;
  ob_bids : list (num * num);
  ob_asks : list (num * num);
  ob_timestamp : Z
}.

(** What an adapter emits: [emitTicker] and [emitOrderBook]. *)
Inductive Emitted : Type :=
| EmitTicker (t : Ticker num)
| EmitOrderBook (o : OrderBook).

Definition Handler : Type := Run Emitted unit.

Definition emitTicker (t : Ticker num) : Handler := emit (EmitTicker t).
Definition emitOrderBook (o : OrderBook) : Handler := emit (EmitOrderBook o).

Definition zero : num := num_int 0.
Definition hundred : num := num_int 100.

(** [d.k]; a [TypeError] when [d] is [null] or [undefined]. *)
Definition field (d : json num) (k : string) : Run Emitted (json num) :=
  lift (get d k).

(** [this.parseSymbol(v)]: the string methods exist on strings only. *)
Definition parseSymbolOf (e : ExchangeId) (v : json num) : Run Emitted string :=
  match v with
  | JStr s => ret (parseSymbol e s)
  | _ => throw
  end.

(** [parseFloat(d.k) || 0] *)
Definition floatOr0 (d : json num) (k : string) : Run Emitted num :=
  let* v := field d k in ret (parseFloat v ||| zero).

(** [openPrice > 0 ? ((lastPrice - openPrice) / openPrice) * 100 : 0] *)
Definition changeSince (openPrice lastPrice : num) : num :=
  if openPrice >? zero then ((lastPrice - openPrice) / openPrice) * hundred
  else zero.

(** [([price, amount]) => ({ price: parseFloat(price), amount: parseFloat(amount) })] *)
Definition level (item : json num) : Run Emitted (num * num) :=
  let* parts := lift (iterate item) in
  ret (parseFloat (nth 0 parts JUndefined), parseFloat (nth 1 parts JUndefined)).

(** [(v || []).map(level)] *)
Definition levels (v : json num) : Run Emitted (list (num * num)) :=
  if truthy v then
    match v with
    | JArr items => map_run level items
    | _ => throw
    end
  else ret [].

(** *** Bitget *)

Definition bitget_handleTicker (now : Z) (instId data : json num) : Handler :=
  let* pair := parseSymbolOf bitget instId in
  let* bid := floatOr0 data "bidPr" in
  let* ask := floatOr0 data "askPr" in
  let* last := floatOr0 data "lastPr" in
  let* volume := floatOr0 data "baseVolume" in
  let* change := field data "change24h" in
  emitTicker (mkTicker bitget pair bid ask last volume
                       ((parseFloat change * hundred) ||| zero) now).

Definition bitget_handleOrderBook (now : Z) (instId data : json num) : Handler :=
  let* pair := parseSymbolOf bitget instId in
  let* bids := field data "bids" in
  let* bids := levels bids in
  let* asks := field data "asks" in
  let* asks := levels asks in
  emitOrderBook (mkOrderBook bitget pair bids asks now).

Definition bitget_handleMessage (now : Z) (msg : json num) : Handler :=
  let* arg := field msg "arg" in
  if negb (truthy arg) then ret tt else
  let* data := field msg "data" in
  if negb (truthy data) then ret tt else
  let* len := field data "length" in
  if is_zero len then ret tt else
  let* channel := field arg "channel" in
  if is_str channel "ticker" then
    let* instId := field arg "instId" in
    let* d := lift (first data) in
    bitget_handleTicker now instId d
  else if is_str channel "books5" then
    let* instId := field arg "instId" in
    let* d := lift (first data) in
    bitget_handleOrderBook now instId d
  else ret tt.

(** *** Bybit *)

(** [topic.startsWith(p)]: [topic] is truthy here; the method exists on
    strings only. *)
Definition startsWithOf (topic : json num) (p : string) : Run Emitted bool :=
  match topic with
  | JStr s => ret (startsWith s p)
  | _ => throw
  end.

Definition bybit_handleTicker (now : Z) (d : json num) : Handler :=
  let* lastPrice := floatOr0 d "lastPrice" in
  let* bid1 := field d "bid1Price" in
  let bid := if truthy bid1 then parseFloat bid1
             else lastPrice * num_lit 9999 (-4) in
  let* ask1 := field d "ask1Price" in
  let ask := if truthy ask1 then parseFloat ask1
             else lastPrice * num_lit 10001 (-4) in
  let* symbol := field d "symbol" in
  let* pair := parseSymbolOf bybit symbol in
  let* volume := floatOr0 d "volume24h" in
  let* pcnt := field d "price24hPcnt" in
  emitTicker (mkTicker bybit pair bid ask lastPrice volume
                       ((parseFloat pcnt * hundred) ||| zero) now).

Definition bybit_handleOrderBook (now : Z) (d : json num) : Handler :=
  let* s := field d "s" in
  let* pair := parseSymbolOf bybit s in
  let* b := field d "b" in
  let* bids := levels b in
  let* a := field d "a" in
  let* asks := levels a in
  emitOrderBook (mkOrderBook bybit pair bids asks now).

Definition bybit_handleMessage (now : Z) (msg : json num) : Handler :=
  let* op := field msg "op" in
  if is_str op "subscribe" then ret tt else
  let* topic := field msg "topic" in
  if negb (truthy topic) then ret tt else
  let* data := field msg "data" in
  if negb (truthy data) then ret tt else
  let* isTicker := startsWithOf topic "tickers." in
  if isTicker then bybit_handleTicker now data
  else
    let* isBook := startsWithOf topic "orderbook." in
    if isBook then bybit_handleOrderBook now data else ret tt.

(** *** OKX *)

Definition okx_handleTicker (now : Z) (instId d : json num) : Handler :=
  let* lastPrice := floatOr0 d "last" in
  let* sod := field d "sodUtc0" in
  let openPrice := parseFloat sod ||| lastPrice in
  let change24h := changeSince openPrice lastPrice in
  let* pair := parseSymbolOf okx instId in
  let* bid := floatOr0 d "bidPx" in
  let* ask := floatOr0 d "askPx" in
  let* volume := floatOr0 d "vol24h" in
  emitTicker (mkTicker okx pair bid ask lastPrice volume change24h now).

Definition okx_handleOrderBook (now : Z) (instId d : json num) : Handler :=
  let* pair := parseSymbolOf okx instId in
  let* b := field d "bids" in
  let* bids := levels b in
  let* a := field d "asks" in
  let* asks := levels a in
  emitOrderBook (mkOrderBook okx pair bids asks now).

Definition okx_handleMessage (now : Z) (msg : json num) : Handler :=
  let* event := field msg "event" in
  if is_str event "subscribe" || is_str event "error" then ret tt else
  let* arg := field msg "arg" in
  if negb (truthy arg) then ret tt else
  let* data := field msg "data" in
  if negb (truthy data) then ret tt else
  let* len := field data "length" in
  if is_zero len then ret tt else
  let* channel := field arg "channel" in
  if is_str channel "tickers" then
    let* instId := field arg "instId" in
    let* d := lift (first data) in
    okx_handleTicker now instId d
  else if is_str channel "books5" then
    let* instId := field arg "instId" in
    let* d := lift (first data) in
    okx_handleOrderBook now instId d
  else ret tt.

(** *** Gate.io *)

Definition gateio_handleTicker (now : Z) (d : json num) : Handler :=
  let* cp := field d "currency_pair" in
  if negb (truthy cp) then ret tt else
  let* pair := parseSymbolOf gateio cp in
  let* bid := floatOr0 d "highest_bid" in
  let* ask := floatOr0 d "lowest_ask" in
  let* last := floatOr0 d "last" in
  let* volume := floatOr0 d "base_volume" in
  let* change := floatOr0 d "change_percentage" in
  emitTicker (mkTicker gateio pair bid ask last volume change now).

Definition gateio_handleBookTicker (now : Z) (d : json num) : Handler :=
  let* s := field d "s" in
  if negb (truthy s) then ret tt else
  let* bidPrice := floatOr0 d "b" in
  let* askPrice := floatOr0 d "a" in
  let* bidAmount := floatOr0 d "B" in
  let* askAmount := floatOr0 d "A" in
  (if (bidPrice >? zero) || (askPrice >? zero) then
     let* pair := parseSymbolOf gateio s in
     emitTicker (mkTicker gateio pair bidPrice askPrice
                          ((bidPrice + askPrice) / num_int 2) zero zero now)
   else ret tt)
  >>>
  (let* pair := parseSymbolOf gateio s in
   emitOrderBook
     (mkOrderBook gateio pair
                  (if bidPrice >? zero then [(bidPrice, bidAmount)] else [])
                  (if askPrice >? zero then [(askPrice, askAmount)] else [])
                  now)).

(** [handleMessage] of Gate.io starts by logging the message, the first 20
    times it runs: [if (this.debugCount < 20) { this.debugCount++; ... }].
    This is what it does to the counter; the rest of the method follows. *)
Definition gateio_debugCount (debugCount : nat) : nat :=
  if (debugCount <? 20)%nat then S debugCount else debugCount.

Definition gateio_handleMessage (now : Z) (msg : json num) : Handler :=
  let* error := field msg "error" in
  if truthy error then ret tt else
  let* event := field msg "event" in
  if is_str event "subscribe" || is_str event "unsubscribe" then ret tt else
  let* channel := field msg "channel" in
  if negb (truthy channel) then ret tt else
  let* result := field msg "result" in
  if negb (truthy result) then ret tt else
  if is_str channel "spot.tickers" && is_str event "update" then
    gateio_handleTicker now result
  else if is_str channel "spot.book_ticker" && is_str event "update" then
    gateio_handleBookTicker now result
  else ret tt.

(** *** CoinEx *)

Definition coinex_handleState (now : Z) (state : json num) : Handler :=
  let* lastPrice := floatOr0 state "last" in
  if lastPrice <=? zero then ret tt else
  let* open := field state "open" in
  let openPrice := parseFloat open ||| lastPrice in
  let change24h := changeSince openPrice lastPrice in
  let* market := field state "market" in
  let* pair := parseSymbolOf coinex market in
  let* volume := floatOr0 state "volume" in
  emitTicker (mkTicker coinex pair (lastPrice * num_lit 9999 (-4))
                       (lastPrice * num_lit 10001 (-4)) lastPrice volume
                       change24h now).

Definition coinex_handleTickers (now : Z) (stateList : json num) : Handler :=
  let* states := lift (iterate stateList) in
  for_each states (coinex_handleState now).

Definition coinex_handleMessage (now : Z) (msg : json num) : Handler :=
  let* method := field msg "method" in
  if is_str method "state.update" then
    let* data := field msg "data" in
    let state_list := get_opt data "state_list" in
    if truthy state_list then coinex_handleTickers now state_list else ret tt
  else ret tt.

(** *** BingX *)

(** [v?.includes(p)]: a substring test on a string, a membership test on an
    array, [undefined] on [null] and [undefined]; no such method elsewhere. *)
Definition includesOf (v : json num) (p : string) : Run Emitted bool :=
  match v with
  | JUndefined | JNull => ret false
  | JStr s => ret (includes s p)
  | JArr items => ret (existsb (fun x => is_str x p) items)
  | _ => throw
  end.

Definition bingx_handleTicker (now : Z) (data : json num) : Handler :=
  let* s := field data "s" in
  let* c := field data "c" in
  if negb (truthy s) || negb (truthy c) then ret tt else
  let lastPrice := parseFloat c ||| zero in
  if lastPrice <=? zero then ret tt else
  let* o := field data "o" in
  let openPrice := parseFloat (or_else o (JStr "0")) ||| lastPrice in
  let change24h := changeSince openPrice lastPrice in
  let* pair := parseSymbolOf bingx s in
  let* v := field data "v" in
  emitTicker (mkTicker bingx pair (lastPrice * num_lit 9999 (-4))
                       (lastPrice * num_lit 10001 (-4)) lastPrice
                       (parseFloat (or_else v (JStr "0")) ||| zero)
                       change24h now).

Definition bingx_handleMessage (now : Z) (msg : json num) : Handler :=
  let* pong := field msg "pong" in
  if truthy pong then ret tt else
  let* code := field msg "code" in
  if truthy code then ret tt else
  let* dataType := field msg "dataType" in
  let* isTicker := includesOf dataType "@ticker" in
  if isTicker then
    let* data := field msg "data" in
    if truthy data then bingx_handleTicker now data else ret tt
  else ret tt.

(** *** MEXC and KuCoin

    Both poll a REST endpoint.  MEXC keeps a WebSocket path behind
    [useRestApi], a field that is initialised to [true] and never assigned:
    its [handleMessage] returns at once. *)

Definition useRestApi : bool := true.

Definition mexc_handleMessage (now : Z) (msg : json num) : Handler := ret tt.
Definition kucoin_handleMessage (now : Z) (msg : json num) : Handler := ret tt.

(** The body of the loop over the tickers of a snapshot; [symbols] are the
    formatted subscribed pairs. *)
Definition poll_item (e : ExchangeId) (kBid kAsk kLast kVol kChange : string)
    (scale : option num) (now : Z) (symbols : list string) (item : json num)
  : Handler :=
  let* symbol := field item "symbol" in
  match symbol with
  | JStr sym =>
      if negb (existsb (String.eqb sym) symbols) then ret tt else
      let* bidPrice := floatOr0 item kBid in
      let* askPrice := floatOr0 item kAsk in
      let* lastPrice := floatOr0 item kLast in
      let* volume := floatOr0 item kVol in
      let* change := field item kChange in
      let changePercent :=
        match scale with
        | Some k => (parseFloat change * k) ||| zero
        | None => parseFloat change ||| zero
        end in
      if (bidPrice >? zero) && (askPrice >? zero) then
        emitTicker (mkTicker e (parseSymbol e sym) bidPrice askPrice
                             lastPrice volume changePercent now)
        >>> emitOrderBook (mkOrderBook e (parseSymbol e sym)
                                       [(bidPrice, zero)] [(askPrice, zero)]
                                       now)
      else ret tt
  | _ => ret tt
  end.

(** What a [fetch] can come to. *)
Inductive FetchResult : Type :=
| FetchRejected
| FetchNotOk (status : Z)
| FetchBody (body : option (json num)).

Definition subscribedSymbols (e : ExchangeId) (pairs : list string)
  : list string := map (formatSymbol e) pairs.

(** [fetchAllTickers] of MEXC, after the response has arrived; the whole
    body runs inside [try]. *)
Definition mexc_fetched (now : Z) (pairs : list string) (r : FetchResult)
  : Handler :=
  match r with
  | FetchBody (Some data) =>
      let* items := lift (iterate data) in
      for_each items
        (poll_item mexc "bidPrice" "askPrice" "lastPrice" "volume"
                   "priceChangePercent" None now
                   (subscribedSymbols mexc pairs))
  | _ => ret tt
  end.

Definition kucoin_fetched (now : Z) (pairs : list string) (r : FetchResult)
  : Handler :=
  match r with
  | FetchBody (Some data) =>
      let* code := field data "code" in
      let* inner := field data "data" in
      let ticker := get_opt inner "ticker" in
      if negb (is_str code "200000") || negb (truthy ticker) then ret tt else
      let* items := lift (iterate ticker) in
      for_each items
        (poll_item kucoin "buy" "sell" "last" "vol" "changeRate"
                   (Some hundred) now
                   (subscribedSymbols kucoin pairs))
  | _ => ret tt
  end.

Definition handleMessage (e : ExchangeId) (now : Z) (msg : json num) : Handler :=
  match e with
  | bybit => bybit_handleMessage now msg
  | okx => okx_handleMessage now msg
  | mexc => mexc_handleMessage now msg
  | bitget => bitget_handleMessage now msg
  | gateio => gateio_handleMessage now msg
  | kucoin => kucoin_handleMessage now msg
  | coinex => coinex_handleMessage now msg
  | bingx => bingx_handleMessage now msg
  end.

(** *** Reading what an adapter emits *)

(** An event that carries the identifier of the exchange [e]. *)
Definition ownEmitted (e : ExchangeId) (ev : Emitted) : Prop :=
  match ev with
  | EmitTicker t => tk_exchange t = e
  | EmitOrderBook o => ob_exchange o = e
  end.

(** A ticker made from a last price alone: the last price is above zero,
    the bid is 0.9999 times and the ask 1.0001 times the last price. *)
Definition aroundLast (ev : Emitted) : Prop :=
  match ev with
  | EmitTicker t =>
      (tk_last t >? zero) = true
      /\ tk_bid t = tk_last t * num_lit 9999 (-4)
      /\ tk_ask t = tk_last t * num_lit 10001 (-4)
  | EmitOrderBook _ => False
  end.

(** An event of a snapshot taken at [now]: the ticker of one of [symbols]
    with a positive bid and a positive ask, or the one-level book of such a
    symbol. *)
Definition polled (e : ExchangeId) (now : Z) (symbols : list string)
    (ev : Emitted) : Prop :=
  match ev with
  | EmitTicker t =>
      Engine.usable t = true /\ tk_timestamp t = now
      /\ exists sym, In sym symbols /\ tk_pair t = parseSymbol e sym
  | EmitOrderBook o =>
      exists bid ask sym,
        In sym symbols /\ ob_pair o = parseSymbol e sym
        /\ ob_bids o = [(bid, zero)] /\ ob_asks o = [(ask, zero)]
        /\ (bid >? zero) = true /\ (ask >? zero) = true
  end.

End WithNumbers.

Arguments OrderBook : clear implicits.
Arguments Emitted : clear implicits.
Arguments Handler : clear implicits.
Arguments FetchResult : clear implicits.

End Adapters.


(** ** The connector lifecycle ([BaseExchange] and its subclasses)

    A connector lives in a world that holds what the program shares with its
    environment: the sockets it created, the timers of the event loop that
    are still armed, the frames written and the events published.  Each
    callback of the program is a function on worlds; [step] runs one callback
    for one input of the environment. *)

Module Connector.
Import JSString Json Symbols Adapters.

Inductive ReadyState : Type := CONNECTING | OPEN | CLOSING | CLOSED.

Inductive Status : Type :=
| StConnecting | StConnected | StDisconnected | StError.

Inductive TimerKind : Type := ReconnectTimer | PingTimer | PollTimer.

#[export] Instance ReadyState_eq_dec : EqDecision ReadyState.
Proof. solve_decision. Defined.
#[export] Instance TimerKind_eq_dec : EqDecision TimerKind.
Proof. solve_decision. Defined.

(** What [ws.on("message")] receives. *)
Inductive Data : Type :=
| DString (s : string)
| DBuffer (bytes : string)
| DArrayBuffer (bytes : string)
| DBuffers (fragments : list string).

(** The fields of [BaseExchange], with those the subclasses add
    ([messageId] of CoinEx, [pollingInterval] and [isPolling] of MEXC and
    KuCoin, [debugCount] of Gate.io).  [ws] names a socket of the world,
    timers are named by their handle. *)
Record Exchange : Type := mkExchange {
  ws : option nat;
  isConnected : bool;
  reconnectTimeout : option nat;
  pingInterval : option nat;
  subscribedPairs : list string;
  messageId : Z;
  pollingInterval : option nat;
  isPolling : bool;
  debugCount : nat
}.

Definition set_ws v (x : Exchange) : Exchange :=
  mkExchange v (isConnected x) (reconnectTimeout x) (pingInterval x)
             (subscribedPairs x) (messageId x) (pollingInterval x) (isPolling x)
             (debugCount x).
Definition set_isConnected v (x : Exchange) : Exchange :=
  mkExchange (ws x) v (reconnectTimeout x) (pingInterval x)
             (subscribedPairs x) (messageId x) (pollingInterval x) (isPolling x)
             (debugCount x).
Definition set_reconnectTimeout v (x : Exchange) : Exchange :=
  mkExchange (ws x) (isConnected x) v (pingInterval x)
             (subscribedPairs x) (messageId x) (pollingInterval x) (isPolling x)
             (debugCount x).
Definition set_pingInterval v (x : Exchange) : Exchange :=
  mkExchange (ws x) (isConnected x) (reconnectTimeout x) v
             (subscribedPairs x) (messageId x) (pollingInterval x) (isPolling x)
             (debugCount x).
Definition set_subscribedPairs v (x : Exchange) : Exchange :=
  mkExchange (ws x) (isConnected x) (reconnectTimeout x) (pingInterval x)
             v (messageId x) (pollingInterval x) (isPolling x)
             (debugCount x).
Definition set_messageId v (x : Exchange) : Exchange :=
  mkExchange (ws x) (isConnected x) (reconnectTimeout x) (pingInterval x)
             (subscribedPairs x) v (pollingInterval x) (isPolling x)
             (debugCount x).
Definition set_pollingInterval v (x : Exchange) : Exchange :=
  mkExchange (ws x) (isConnected x) (reconnectTimeout x) (pingInterval x)
             (subscribedPairs x) (messageId x) v (isPolling x) (debugCount x).
Definition set_isPolling v (x : Exchange) : Exchange :=
  mkExchange (ws x) (isConnected x) (reconnectTimeout x) (pingInterval x)
             (subscribedPairs x) (messageId x) (pollingInterval x) v
             (debugCount x).
Definition set_debugCount v (x : Exchange) : Exchange :=
  mkExchange (ws x) (isConnected x) (reconnectTimeout x) (pingInterval x)
             (subscribedPairs x) (messageId x) (pollingInterval x)
             (isPolling x) v.

Section WithNumbers.
Context {num : Type} `{JSNumber num}.

(** Built-ins of the platform: [JSON.parse], [zlib.gunzipSync] and
    [zlib.inflateSync]; [None] stands for an exception. *)
Variable JSON_parse : string -> option (json num).
Variable gunzipSync : string -> option string.
Variable inflateSync : string -> option string.

Record ConnectionStatus : Type := mkStatus {
  cs_exchange : ExchangeId;
  cs_status : Status;
  cs_lastUpdate : Z;
  cs_errorMessage : option string
}.

(** The events of the emitter: ["status"], ["ticker"], ["orderbook"]. *)
Inductive Published : Type :=
| PubStatus (s : ConnectionStatus)
| PubTicker (t : Ticker num)
| PubOrderBook (o : OrderBook num).

(** What is written to a socket: [ws.send(JSON.stringify(payload))] or
    [ws.ping()]. *)
Inductive Wire : Type :=
| WireText (payload : json num)
| WirePing.

Record World : Type := mkWorld {
  self : Exchange;
  sockets : list ReadyState;
  timers : list (nat * TimerKind);
  nextTimer : nat;
  wire : list (nat * Wire);
  published : list Published;
  fetches : nat
}.

Definition on_self (f : Exchange -> Exchange) (w : World) : World :=
  mkWorld (f (self w)) (sockets w) (timers w) (nextTimer w) (wire w)
          (published w) (fetches w).
Definition set_sockets v (w : World) : World :=
  mkWorld (self w) v (timers w) (nextTimer w) (wire w) (published w) (fetches w).
Definition set_timers v (w : World) : World :=
  mkWorld (self w) (sockets w) v (nextTimer w) (wire w) (published w) (fetches w).
Definition set_fetches v (w : World) : World :=
  mkWorld (self w) (sockets w) (timers w) (nextTimer w) (wire w) (published w) v.
Definition publish (p : Published) (w : World) : World :=
  mkWorld (self w) (sockets w) (timers w) (nextTimer w) (wire w)
          (published w ++ [p]) (fetches w).
Definition write (i : nat) (f : Wire) (w : World) : World :=
  mkWorld (self w) (sockets w) (timers w) (nextTimer w) (wire w ++ [(i, f)])
          (published w) (fetches w).

Definition initial : World :=
  mkWorld (mkExchange None false None None [] 1 None false 0) [] [] 0 [] [] 0.

(** [setTimeout] and [setInterval] arm a timer and return its handle;
    [clearTimeout] and [clearInterval] disarm it. *)
Definition armTimer (k : TimerKind) (w : World) : nat * World :=
  (nextTimer w,
   mkWorld (self w) (sockets w) (timers w ++ [(nextTimer w, k)])
           (S (nextTimer w)) (wire w) (published w) (fetches w)).

Definition without (id : nat) (ts : list (nat * TimerKind))
  : list (nat * TimerKind) :=
  List.filter (fun t => negb (fst t =? id)%nat) ts.

Definition clearTimer (id : nat) (w : World) : World :=
  set_timers (without id (timers w)) w.

Definition timerKind (id : nat) (w : World) : option TimerKind :=
  snd <$> List.find (fun t => (fst t =? id)%nat) (timers w).

Definition emitStatus (e : ExchangeId) (now : Z) (st : Status)
    (msg : option string) (w : World) : World :=
  publish (PubStatus (mkStatus e st now msg)) w.

(** [this.ws?.readyState === WebSocket.OPEN] *)
Definition openSocket (w : World) : option nat :=
  match ws (self w) with
  | Some i =>
      match sockets w !! i with
      | Some OPEN => Some i
      | _ => None
      end
  | None => None
  end.

(** [send(data)] *)
Definition send (payload : json num) (w : World) : World :=
  match openSocket w with
  | Some i => write i (WireText payload) w
  | None => w
  end.

Definition sendAll (payloads : list (json num)) (w : World) : World :=
  fold_left (fun w p => send p w) payloads w.

(** *** The wire messages of the adapters *)

Definition str (s : string) : json num := JStr s.

Definition op_message (op : string) (args : list (json num)) : json num :=
  JObj [("op", str op); ("args", JArr args)].

Definition bitget_args (pairs : list string) : list (json num) :=
  flat_map
    (fun pair =>
       let instId := str (formatSymbol bitget pair) in
       [JObj [("instType", str "SPOT"); ("channel", str "ticker");
              ("instId", instId)];
        JObj [("instType", str "SPOT"); ("channel", str "books5");
              ("instId", instId)]])
    pairs.

Definition okx_args (pairs : list string) : list (json num) :=
  flat_map
    (fun pair =>
       let instId := str (formatSymbol okx pair) in
       [JObj [("channel", str "tickers"); ("instId", instId)];
        JObj [("channel", str "books5"); ("instId", instId)]])
    pairs.

Definition bybit_subscribe (pairs : list string) : list (json num) :=
  let symbols := map (formatSymbol bybit) pairs in
  map (fun symbol => op_message "subscribe" [str ("tickers." +:+ symbol)])
      symbols
  ++ map (fun symbol =>
            op_message "subscribe" [str ("orderbook.50." +:+ symbol)])
         symbols.

Definition bybit_unsubscribe (pairs : list string) : list (json num) :=
  [op_message "unsubscribe"
     (flat_map
        (fun pair =>
           let symbol := formatSymbol bybit pair in
           [str ("tickers." +:+ symbol); str ("orderbook.25." +:+ symbol)])
        pairs)].

Definition seconds (now : Z) : json num := JNum (num_int (now / 1000)).

Definition gateio_messages (event : string) (now : Z) (pairs : list string)
  : list (json num) :=
  let symbols := map (formatSymbol gateio) pairs in
  JObj [("time", seconds now); ("channel", str "spot.tickers");
        ("event", str event); ("payload", JArr (map str symbols))]
  :: map (fun symbol =>
            JObj [("time", seconds now); ("channel", str "spot.book_ticker");
                  ("event", str event); ("payload", JArr [str symbol])])
         symbols.

Definition coinex_message (method : string) (id : Z) (pairs : list string)
  : json num :=
  JObj [("method", str method);
        ("params",
         JObj [("market_list", JArr (map (fun p => str (formatSymbol coinex p))
                                         pairs))]);
        ("id", JNum (num_int id))].

Definition bingx_messages (reqType : string) (now : Z) (pairs : list string)
  : list (json num) :=
  map (fun pair =>
         JObj [("id", str (pretty now)); ("reqType", str reqType);
               ("dataType", str (formatSymbol bingx pair +:+ "@ticker"))])
      pairs.

Definition mexc_messages (method : string) (pairs : list string)
  : list (json num) :=
  flat_map
    (fun pair =>
       let symbol := formatSymbol mexc pair in
       [JObj [("method", str method);
              ("params", JArr [str ("spot@public.deals.v3.api@" +:+ symbol)])];
        JObj [("method", str method);
              ("params",
               JArr [str ("spot@public.bookTicker.v3.api@" +:+ symbol)])]])
    pairs.

(** The payloads [sendSubscribe(pairs)] hands to [send], in order. *)
Definition subscribeMessages (e : ExchangeId) (now : Z) (x : Exchange)
    (pairs : list string) : list (json num) :=
  match e with
  | bybit => bybit_subscribe pairs
  | okx => [op_message "subscribe" (okx_args pairs)]
  | mexc => if useRestApi then [] else mexc_messages "SUBSCRIPTION" pairs
  | bitget => [op_message "subscribe" (bitget_args pairs)]
  | gateio => gateio_messages "subscribe" now pairs
  | kucoin => []
  | coinex => [coinex_message "state.subscribe" (messageId x) pairs]
  | bingx => bingx_messages "sub" now pairs
  end.

Definition unsubscribeMessages (e : ExchangeId) (now : Z) (x : Exchange)
    (pairs : list string) : list (json num) :=
  match e with
  | bybit => bybit_unsubscribe pairs
  | okx => [op_message "unsubscribe" (okx_args pairs)]
  | mexc => if useRestApi then [] else mexc_messages "UNSUBSCRIPTION" pairs
  | bitget => [op_message "unsubscribe" (bitget_args pairs)]
  | gateio => gateio_messages "unsubscribe" now pairs
  | kucoin => []
  | coinex => [coinex_message "state.unsubscribe" (messageId x) pairs]
  | bingx => bingx_messages "unsub" now pairs
  end.

(** CoinEx numbers its requests: [id: this.messageId++]. *)
Definition bumpMessageId (e : ExchangeId) (w : World) : World :=
  match e with
  | coinex => on_self (fun x => set_messageId (messageId x + 1)%Z x) w
  | _ => w
  end.

Definition sendSubscribe (e : ExchangeId) (now : Z) (pairs : list string)
    (w : World) : World :=
  bumpMessageId e (sendAll (subscribeMessages e now (self w) pairs) w).

Definition sendUnsubscribe (e : ExchangeId) (now : Z) (pairs : list string)
    (w : World) : World :=
  bumpMessageId e (sendAll (unsubscribeMessages e now (self w) pairs) w).

Definition sendPing (e : ExchangeId) (now : Z) (w : World) : World :=
  match e with
  | bybit | bitget => send (JObj [("op", str "ping")]) w
  | okx =>
      match openSocket w with
      | Some i => write i WirePing w
      | None => w
      end
  | mexc => if negb useRestApi then send (JObj [("method", str "PING")]) w
            else w
  | gateio => send (JObj [("time", seconds now); ("channel", str "spot.ping")]) w
  | kucoin => w
  | coinex =>
      bumpMessageId e
        (send (JObj [("method", str "server.ping"); ("params", JObj []);
                     ("id", JNum (num_int (messageId (self w))))]) w)
  | bingx => send (JObj [("ping", JNum (num_int now))]) w
  end.

(** [onConnected()] *)
Definition onConnected (e : ExchangeId) (now : Z) (w : World) : World :=
  let pairs := subscribedPairs (self w) in
  match e with
  | kucoin => w
  | mexc =>
      if (0 <? length pairs)%nat && negb useRestApi
      then sendSubscribe e now pairs w else w
  | _ =>
      if (0 <? length pairs)%nat then sendSubscribe e now pairs w else w
  end.

(** *** Timers *)

Definition startPing (w : World) : World :=
  let '(id, w) := armTimer PingTimer w in
  on_self (set_pingInterval (Some id)) w.

Definition stopPing (w : World) : World :=
  match pingInterval (self w) with
  | Some id => on_self (set_pingInterval None) (clearTimer id w)
  | None => w
  end.

Definition scheduleReconnect (w : World) : World :=
  match reconnectTimeout (self w) with
  | Some _ => w
  | None =>
      let '(id, w) := armTimer ReconnectTimer w in
      on_self (set_reconnectTimeout (Some id)) w
  end.

(** *** REST polling (MEXC and KuCoin) *)

(** [fetchAllTickers()] starts a request; its answer is a later input. *)
Definition fetchAllTickers (w : World) : World :=
  set_fetches (S (fetches w)) w.

Definition startPolling (e : ExchangeId) (now : Z) (w : World) : World :=
  if isPolling (self w) then w
  else
    let w := on_self (set_isPolling true) w in
    let w := on_self (set_isConnected true) w in
    let w := emitStatus e now StConnected None w in
    let w := fetchAllTickers w in
    let '(id, w) := armTimer PollTimer w in
    on_self (set_pollingInterval (Some id)) w.

Definition stopPolling (w : World) : World :=
  let w := match pollingInterval (self w) with
           | Some id => on_self (set_pollingInterval None) (clearTimer id w)
           | None => w
           end in
  on_self (set_isPolling false) w.

(** *** [connect], [disconnect], [subscribe], [unsubscribe] *)

(** [BaseExchange.connect()]; [throws] tells whether building the socket
    throws. *)
Definition base_connect (e : ExchangeId) (now : Z) (throws : bool) (w : World)
  : World :=
  match openSocket w with
  | Some _ => w
  | None =>
      let w := emitStatus e now StConnecting None w in
      if throws then scheduleReconnect w
      else
        let i := length (sockets w) in
        on_self (set_ws (Some i)) (set_sockets (sockets w ++ [CONNECTING]) w)
  end.

Definition polling_connect (e : ExchangeId) (now : Z) (w : World) : World :=
  startPolling e now (emitStatus e now StConnecting None w).

Definition connect (e : ExchangeId) (now : Z) (throws : bool) (w : World)
  : World :=
  match e with
  | kucoin => polling_connect e now w
  | mexc => if useRestApi then polling_connect e now w
            else base_connect e now throws w
  | _ => base_connect e now throws w
  end.

(** [ws.close()] *)
Definition closeSocket (i : nat) (w : World) : World :=
  match sockets w !! i with
  | Some CONNECTING | Some OPEN => set_sockets (<[i := CLOSING]> (sockets w)) w
  | _ => w
  end.

Definition base_disconnect (w : World) : World :=
  let w := match reconnectTimeout (self w) with
           | Some id => on_self (set_reconnectTimeout None) (clearTimer id w)
           | None => w
           end in
  let w := stopPing w in
  let w := match ws (self w) with
           | Some i => on_self (set_ws None) (closeSocket i w)
           | None => w
           end in
  on_self (set_isConnected false) w.

Definition disconnect (e : ExchangeId) (w : World) : World :=
  match e with
  | kucoin | mexc => base_disconnect (stopPolling w)
  | _ => base_disconnect w
  end.

(** [Set.prototype.add] and [delete] on the insertion-ordered set. *)
Definition set_add (p : string) (l : list string) : list string :=
  if existsb (String.eqb p) l then l else l ++ [p].
Definition set_delete (p : string) (l : list string) : list string :=
  List.filter (fun q => negb (String.eqb p q)) l.

Definition subscribe (e : ExchangeId) (now : Z) (pairs : list string)
    (w : World) : World :=
  let w := on_self (fun x => set_subscribedPairs
                               (fold_left (fun s p => set_add p s) pairs
                                          (subscribedPairs x)) x) w in
  if isConnected (self w) then sendSubscribe e now pairs w else w.

Definition unsubscribe (e : ExchangeId) (now : Z) (pairs : list string)
    (w : World) : World :=
  let w := on_self (fun x => set_subscribedPairs
                               (fold_left (fun s p => set_delete p s) pairs
                                          (subscribedPairs x)) x) w in
  if isConnected (self w) then sendUnsubscribe e now pairs w else w.

(** *** The handlers of a socket *)

Definition on_open (e : ExchangeId) (now : Z) (w : World) : World :=
  let w := on_self (set_isConnected true) w in
  let w := emitStatus e now StConnected None w in
  let w := onConnected e now w in
  startPing w.

Definition on_close (e : ExchangeId) (now : Z) (w : World) : World :=
  let w := on_self (set_isConnected false) w in
  let w := emitStatus e now StDisconnected None w in
  let w := stopPing w in
  scheduleReconnect w.

Definition on_error (e : ExchangeId) (now : Z) (message : string) (w : World)
  : World :=
  emitStatus e now StError (Some message) w.

(** [getStatus()]: the state the connector answers with. *)
Definition getStatus (e : ExchangeId) (now : Z) (w : World)
  : ConnectionStatus :=
  mkStatus e (if isConnected (self w) then StConnected else StDisconnected)
           now None.

(** [buffer[0] === 0x1f && buffer[1] === 0x8b] *)
Definition gzipMagic (bytes : string) : bool :=
  match bytes with
  | String a (String b _) =>
      (nat_of_ascii a =? 31)%nat && (nat_of_ascii b =? 139)%nat
  | _ => false
  end.

Definition decodeBuffer (bytes : string) : option string :=
  if gzipMagic bytes then
    match gunzipSync bytes with
    | Some s => Some s
    | None => inflateSync bytes
    end
  else Some bytes.

Fixpoint join (sep : string) (l : list string) : string :=
  match l with
  | [] => ""
  | [s] => s
  | s :: rest => s +:+ sep +:+ join sep rest
  end.

Definition decode (data : Data) : option string :=
  match data with
  | DBuffer bytes | DArrayBuffer bytes => decodeBuffer bytes
  | DString s => Some s
  | DBuffers fragments => Some (join "," fragments)
  end.

Definition publishEmitted (ev : Emitted num) (w : World) : World :=
  match ev with
  | EmitTicker t => publish (PubTicker t) w
  | EmitOrderBook o => publish (PubOrderBook o) w
  end.

(** Runs a handler inside [try { ... } catch { }]: what it emitted before
    throwing stays emitted. *)
Definition runHandler (h : Handler num) (w : World) : World :=
  fold_left (fun w ev => publishEmitted ev w) (fst h) w.

(** Gate.io counts the messages it logs: the head of its [handleMessage]. *)
Definition countMessage (e : ExchangeId) (w : World) : World :=
  match e with
  | gateio =>
      on_self (fun x => set_debugCount (gateio_debugCount (debugCount x)) x) w
  | _ => w
  end.

(** The handler of ["message"].  What it prints is left out, and with it
    [msgCount], the local variable of [connect()] that limits the printing
    to the first five messages of MEXC, CoinEx and BingX. *)
Definition on_message (e : ExchangeId) (now : Z) (data : Data) (w : World)
  : World :=
  match decode data with
  | Some messageStr =>
      if String.eqb messageStr "" then w
      else
        match JSON_parse messageStr with
        | Some message =>
            runHandler (handleMessage e now message) (countMessage e w)
        | None => w
        end
  | None => w
  end.

Definition on_fetched (e : ExchangeId) (now : Z) (r : FetchResult num)
    (w : World)
  : World :=
  let pairs := subscribedPairs (self w) in
  match e with
  | mexc => runHandler (mexc_fetched now pairs r) w
  | kucoin => runHandler (kucoin_fetched now pairs r) w
  | _ => w
  end.

(** *** Inputs *)

Inductive Input : Type :=
| CallConnect (throws : bool)
| CallDisconnect
| CallSubscribe (pairs : list string)
| CallUnsubscribe (pairs : list string)
| WsOpen (i : nat)
| WsMessage (i : nat) (data : Data)
| WsError (i : nat) (message : string)
| WsClose (i : nat)
| TimerFires (id : nat) (throws : bool)
| Fetched (r : FetchResult num).

Definition setSocket (i : nat) (s : ReadyState) (w : World) : World :=
  set_sockets (<[i := s]> (sockets w)) w.

(** One input at the instant [now]; [None] when the environment cannot
    produce it in this world (an event of a socket in the wrong state, a timer
    that is not armed, an answer nobody waits for). *)
Definition step (e : ExchangeId) (now : Z) (inp : Input) (w : World)
  : option World :=
  match inp with
  | CallConnect throws => Some (connect e now throws w)
  | CallDisconnect => Some (disconnect e w)
  | CallSubscribe pairs => Some (subscribe e now pairs w)
  | CallUnsubscribe pairs => Some (unsubscribe e now pairs w)
  | WsOpen i =>
      match sockets w !! i with
      | Some CONNECTING => Some (on_open e now (setSocket i OPEN w))
      | _ => None
      end
  | WsMessage i data =>
      match sockets w !! i with
      | Some OPEN | Some CLOSING => Some (on_message e now data w)
      | _ => None
      end
  | WsError i message =>
      match sockets w !! i with
      | Some CLOSED | None => None
      | Some _ => Some (on_error e now message (setSocket i CLOSING w))
      end
  | WsClose i =>
      match sockets w !! i with
      | Some CLOSED | None => None
      | Some _ => Some (on_close e now (setSocket i CLOSED w))
      end
  | TimerFires id throws =>
      match timerKind id w with
      | Some ReconnectTimer =>
          Some (connect e now throws
                  (on_self (set_reconnectTimeout None) (clearTimer id w)))
      | Some PingTimer => Some (sendPing e now w)
      | Some PollTimer => Some (fetchAllTickers w)
      | None => None
      end
  | Fetched r =>
      match fetches w with
      | O => None
      | S n => Some (on_fetched e now r (set_fetches n w))
      end
  end.

(** A run: inputs with their instants, in order. *)
Fixpoint run (e : ExchangeId) (trace : list (Z * Input)) (w : World)
  : option World :=
  match trace with
  | [] => Some w
  | (now, inp) :: rest =>
      match step e now inp w with
      | Some w' => run e rest w'
      | None => None
      end
  end.

Inductive reachable (e : ExchangeId) : World -> Prop :=
| reach_initial : reachable e initial
| reach_step w now inp w' :
    reachable e w -> step e now inp w = Some w' -> reachable e w'.

(** The handles of the armed timers of one kind. *)
Definition armed (k : TimerKind) (w : World) : list nat :=
  map fst (List.filter (fun t => bool_decide (snd t = k)) (timers w)).

Definition reconnectTimers (w : World) : list nat := armed ReconnectTimer w.

(** The frames written to socket [i]. *)
Definition writtenTo (i : nat) (w : World) : list Wire :=
  map snd (List.filter (fun f => (fst f =? i)%nat) (wire w)).


(** *** Reading a world

    The part of a world that timers are about. *)
Definition clock (w : World)
  : list (nat * TimerKind) * nat * option nat * option nat * option nat :=
  (timers w, nextTimer w, reconnectTimeout (self w), pingInterval (self w),
   pollingInterval (self w)).


(** The timers are in order.

    Handles are fresh and distinct; a reconnect timer is armed exactly when
    [reconnectTimeout] holds its handle; the heartbeat and the polling timer
    the connector remembers are armed. *)
Definition clock_ok
    (c : list (nat * TimerKind) * nat * option nat * option nat * option nat)
  : Prop :=
  let '(ts, n, r, p, q) := c in
  (forall id k, In (id, k) ts -> (id < n)%nat)
  /\ NoDup (map fst ts)
  /\ (forall id, r = Some id <-> In (id, ReconnectTimer) ts)
  /\ (forall id, p = Some id -> In (id, PingTimer) ts)
  /\ (forall id, q = Some id -> In (id, PollTimer) ts).

Definition timers_ok (w : World) : Prop := clock_ok (clock w).


(** The polling connectors. *)
Definition polls (e : ExchangeId) : bool :=
  match e with mexc | kucoin => true | _ => false end.

(** A published event that carries the identifier of the exchange [e]. *)
Definition ownEvent (e : ExchangeId) (p : Published) : Prop :=
  match p with
  | PubStatus s => cs_exchange s = e
  | PubTicker t => tk_exchange t = e
  | PubOrderBook o => ob_exchange o = e
  end.

(** From [w] to [w'] the connector published events that carry the
    identifier of [e], and nothing else. *)
Definition publishedSince (e : ExchangeId) (w w' : World) : Prop :=
  exists ps, published w' = published w ++ ps /\ Forall (ownEvent e) ps.

(** The timers of a polling connector: its polling interval while it polls,
    none otherwise. *)
Definition pollingTimers (x : Exchange) : list (nat * TimerKind) :=
  match pollingInterval x with
  | Some id => [(id, PollTimer)]
  | None => []
  end.


(** The payloads the handler of ["open"] hands to [send]: those of
    [sendSubscribe] for the whole subscription set. *)
Definition replay (e : ExchangeId) (now : Z) (x : Exchange) : list (json num) :=
  match subscribedPairs x with
  | [] => []
  | pairs => subscribeMessages e now x pairs
  end.

(** Reading a frame: the payload [m] asks the exchange [e] for the ticker
    stream of [pair], in the wire format of that exchange.  Bybit and BingX
    name one stream in a message; OKX, Bitget, Gate.io and CoinEx list the
    instruments of a message.  MEXC and KuCoin poll: nothing they could
    write asks for a stream. *)
Definition requestsTicker (e : ExchangeId) (pair : string) (m : json num)
  : Prop :=
  let symbol := formatSymbol e pair in
  match e with
  | bybit => m = JObj [("op", JStr "subscribe");
                       ("args", JArr [JStr ("tickers." +:+ symbol)])]
  | okx =>
      exists args,
        m = JObj [("op", JStr "subscribe"); ("args", JArr args)]
        /\ In (JObj [("channel", JStr "tickers"); ("instId", JStr symbol)])
              args
  | bitget =>
      exists args,
        m = JObj [("op", JStr "subscribe"); ("args", JArr args)]
        /\ In (JObj [("instType", JStr "SPOT"); ("channel", JStr "ticker");
                     ("instId", JStr symbol)])
              args
  | gateio =>
      exists time symbols,
        m = JObj [("time", time); ("channel", JStr "spot.tickers");
                  ("event", JStr "subscribe"); ("payload", JArr symbols)]
        /\ In (JStr symbol) symbols
  | coinex =>
      exists id markets,
        m = JObj [("method", JStr "state.subscribe");
                  ("params", JObj [("market_list", JArr markets)]);
                  ("id", id)]
        /\ In (JStr symbol) markets
  | bingx =>
      exists id,
        m = JObj [("id", id); ("reqType", JStr "sub");
                  ("dataType", JStr (symbol +:+ "@ticker"))]
  | mexc | kucoin => False
  end.

End WithNumbers.

Arguments ConnectionStatus : clear implicits.
Arguments Published : clear implicits.
Arguments Wire : clear implicits.
Arguments World : clear implicits.
Arguments Input : clear implicits.

End Connector.


(** ** Wiring ([registerRoutes])

    The listener of ["ticker"] writes each ticker into the cache of the
    engine. *)

Module Wiring.
Section WithNumbers.
Context {num : Type} `{JSNumber num}.

Definition deliver (p : Connector.Published num) (st : Engine.State num)
  : Engine.State num :=
  match p with
  | Connector.PubTicker t => Engine.updateTicker t st
  | _ => st
  end.

Definition deliverAll (ps : list (Connector.Published num))
    (st : Engine.State num) : Engine.State num :=
  fold_left (fun st p => deliver p st) ps st.

(** The taker fees the adapters are configured with ([takerFee] of each
    [ExchangeConfig]). *)
Definition configuredTakerFee (e : ExchangeId) : num :=
  match e with
  | gateio | coinex => num_lit 2 (-3)
  | _ => num_lit 1 (-3)
  end.

(** The settings the engine starts with, but for the two lists of the shared
    schema, which are arguments here. *)
Definition defaultSettings (exchanges : list ExchangeId) (pairs : list string)
  : Settings num :=
  mkSettings (num_int 1) exchanges pairs true true (num_int 1000).

End WithNumbers.
End Wiring.


(** ** JavaScript arrays used as bounded logs *)

Module JSArray.

(** [l.unshift(x); if (l.length > cap) l.pop();] *)
Definition unshiftCapped {A : Type} (cap : nat) (x : A) (l : list A) : list A :=
  let l := x :: l in
  if (cap <? length l)%nat then removelast l else l.

(** [l.slice(0, end)] for an integer [end]; a negative [end] counts from the
    end of the array. *)
Definition slice0 {A : Type} (l : list A) (end_ : Z) : list A :=
  let len := Z.of_nat (length l) in
  let k := if (end_ <? 0)%Z then Z.max (len + end_) 0 else Z.min end_ len in
  firstn (Z.to_nat k) l.

End JSArray.


(** ** The Telegram notifier (class [TelegramService]) *)

Module Telegram.
Import Json Engine.

Section WithNumbers.
Context {num : Type} `{JSNumber num}.
Local Open Scope js_scope.

(** Built-ins of the platform, and the display names of the shared schema:
    [x.toFixed(d)], [new Date(t).toLocaleTimeString()],
    [new Date(t).toISOString()], [v.toString()] and
    [EXCHANGE_INFO[e].name]. *)
Variable toFixed : nat -> num -> string.
Variable toLocaleTimeString : Z -> string.
Variable toISOString : Z -> string.
Variable toString : json num -> string.
Variable exchangeName : ExchangeId -> string.

(** The [id] of a signal is a random UUID and is left out. *)
Record Signal : Type := mkSignal {
  sg_opportunity : ArbitrageOpportunity num;
  sentAt : Z;
  delivered : bool;
  telegramMessageId : option string
}.

Record TelegramService : Type := mkService {
  botToken : option string;
  chatId : option string;
  enabled : bool
}.

(** [process.env.X || null] *)
Definition orNull (v : option string) : option string :=
  match v with
  | Some s => if String.eqb s "" then None else Some s
  | None => None
  end.

(** The constructor, from the two variables of the environment. *)
Definition create (TELEGRAM_BOT_TOKEN TELEGRAM_CHAT_ID : option string)
  : TelegramService :=
  mkService (orNull TELEGRAM_BOT_TOKEN) (orNull TELEGRAM_CHAT_ID) true.

(** [ToBoolean] of a [string | null]. *)
Definition present (v : option string) : bool :=
  match v with
  | Some s => negb (String.eqb s "")
  | None => false
  end.

Definition isConfigured (svc : TelegramService) : bool :=
  present (botToken svc) && present (chatId svc).

Definition setEnabled (b : bool) (svc : TelegramService) : TelegramService :=
  mkService (botToken svc) (chatId svc) b.

Definition nl : string := String (ascii_of_nat 10) "".

Definition profitEmoji (opportunity : ArbitrageOpportunity num) : string :=
  if profitPercent opportunity >=? num_int 2 then "🔥"
  else if profitPercent opportunity >=? num_lit 15 (-1) then "⚡"
  else "💰".

Definition formatPrice (price : num) : string :=
  if price >=? num_int 1000 then toFixed 8 price
  else if price >=? num_int 1 then toFixed 10 price
  else toFixed 12 price.

Definition formatOpportunityMessage (opportunity : ArbitrageOpportunity num)
    (buyName sellName : string) : string :=
  Connector.join nl
    [profitEmoji opportunity +:+ " *Arbitrage Alert!*";
     "";
     "📊 *Pair:* `" +:+ op_pair opportunity +:+ "`";
     "📈 *Profit:* `+" +:+ toFixed 10 (profitPercent opportunity)
       +:+ "%` (~$" +:+ toFixed 8 (estimatedProfit opportunity) +:+ ")";
     "";
     "🟢 *Buy:* " +:+ buyName;
     "   └ Price: `$" +:+ formatPrice (buyPrice opportunity) +:+ "`";
     "   └ Fee: `$" +:+ toFixed 8 (buyFee opportunity) +:+ "`";
     "";
     "🔴 *Sell:* " +:+ sellName;
     "   └ Price: `$" +:+ formatPrice (sellPrice opportunity) +:+ "`";
     "   └ Fee: `$" +:+ toFixed 8 (sellFee opportunity) +:+ "`";
     "";
     "📉 *Spread:* `" +:+ toFixed 10 (spreadPercent opportunity) +:+ "%`";
     "💵 *Fees:* `"
       +:+ toFixed 8 ((buyFee opportunity + sellFee opportunity) / num_int 10)
       +:+ "%`";
     "";
     "⏰ _" +:+ toLocaleTimeString (op_timestamp opportunity) +:+ "_";
     "";
     "━━━━━━━━━━━━━━━━━━━━";
     "⚠️ *DYOR* - Verify prices before trading!"].

(** A [fetch] of [sendMessage]: a POST of [body] to [url]. *)
Record Request : Type := mkRequest {
  rq_url : string;
  rq_body : json num
}.

(** What the request comes to: [fetch] or [response.json()] rejects, or the
    body parses to [data]. *)
Inductive Reply : Type :=
| ReplyRejected
| ReplyJson (data : json num).

(** [sendMessage(text)], up to the [fetch]: no request without a token and
    a chat. *)
Definition sendMessage_request (svc : TelegramService) (text : string)
  : option Request :=
  match botToken svc, chatId svc with
  | Some token, Some chat =>
      if present (botToken svc) && present (chatId svc) then
        Some (mkRequest
                ("https://api.telegram.org/bot" +:+ token +:+ "/sendMessage")
                (JObj [("chat_id", JStr chat); ("text", JStr text);
                       ("parse_mode", JStr "Markdown");
                       ("disable_web_page_preview", JBool true)]))
      else None
  | _, _ => None
  end.

(** [data.result?.message_id?.toString()] *)
Definition messageIdOf (data : json num) : option string :=
  match get_opt (get_opt data "result") "message_id" with
  | JUndefined | JNull => None
  | v => Some (toString v)
  end.

(** [sendMessage(text)], from the answer on: [{ success, messageId }].  All
    of it runs inside [try]; an exception gives [{ success: false }]. *)
Definition sendMessage_result (reply : Reply) : bool * option string :=
  match reply with
  | ReplyRejected => (false, None)
  | ReplyJson data =>
      match get data "ok" with
      | Some ok => if truthy ok then (true, messageIdOf data) else (false, None)
      | None => (false, None)
      end
  end.

(** [sendMessage(text)] as a whole: the request made, if any, and
    [{ success, messageId }]. *)
Definition sendMessage (svc : TelegramService) (text : string) (reply : Reply)
  : option Request * (bool * option string) :=
  match sendMessage_request svc text with
  | Some request => (Some request, sendMessage_result reply)
  | None => (None, (false, None))
  end.

(** [sendOpportunity(opportunity)] returns [null] at once when the notifier
    is disabled or not configured. *)
Definition declines (svc : TelegramService) : bool :=
  negb (enabled svc) || negb (isConfigured svc).

(** The text [sendOpportunity(opportunity)] hands to [sendMessage]. *)
Definition opportunityText (opportunity : ArbitrageOpportunity num) : string :=
  let buyExchange := exchangeName (buyExchange opportunity) in
  let sellExchange := exchangeName (sellExchange opportunity) in
  formatOpportunityMessage opportunity buyExchange sellExchange.

(** The signal [sendOpportunity(opportunity)] builds from the result of
    [sendMessage], at the instant [now]. *)
Definition signalOf (opportunity : ArbitrageOpportunity num) (now : Z)
    (result : bool * option string) : Signal :=
  mkSignal opportunity now (fst result) (snd result).

(** [sendOpportunity(opportunity)] as a whole: the request made, if any, and
    the value the promise resolves to ([None] is [null]); [now] is the
    instant at which [sendMessage] has returned. *)
Definition sendOpportunity (svc : TelegramService)
    (opportunity : ArbitrageOpportunity num) (now : Z) (reply : Reply)
  : option Request * option Signal :=
  if declines svc then (None, None)
  else
    let '(request, result) :=
      sendMessage svc (opportunityText opportunity) reply in
    (request, Some (signalOf opportunity now result)).

(** [sendTestMessage()]: the request made, if any, and
    [{ success, error }]. *)
Definition sendTestMessage (svc : TelegramService) (now : Z) (reply : Reply)
  : option Request * (bool * option string) :=
  if negb (isConfigured svc) then
    (None, (false, Some "Telegram bot not configured"))
  else
    let message :=
      Connector.join nl
        ["🔔 *CryptoArb Test Message*";
         "";
         "✅ Telegram integration is working!";
         "";
         "Bot is ready to send arbitrage signals.";
         "";
         "_Sent at: " +:+ toISOString now +:+ "_"] in
    let '(request, result) := sendMessage svc message reply in
    (request, (fst result, None)).

End WithNumbers.

Arguments Signal : clear implicits.
Arguments Request : clear implicits.
Arguments Reply : clear implicits.

End Telegram.


(** ** The in-memory store (class [MemStorage], [server/storage.ts]) *)

Module Storage.
Import Engine JSArray.

Section WithNumbers.
Context {num : Type} `{JSNumber num}.

Record MemStorage : Type := mkStorage {
  ms_settings : Settings num;
  ms_opportunities : list (ArbitrageOpportunity num);
  ms_signals : list (Telegram.Signal num);
  ms_tickers : gmap string (Ticker num);
  ms_connectionStatuses : gmap string Connector.ConnectionStatus
}.

(** The constructor; [EXCHANGES] and [TRADING_PAIRS] are the lists of the
    shared schema. *)
Definition create (EXCHANGES : list ExchangeId) (TRADING_PAIRS : list string)
  : MemStorage :=
  mkStorage (Wiring.defaultSettings EXCHANGES TRADING_PAIRS) [] [] ∅ ∅.

Definition getSettings (s : MemStorage) : Settings num := ms_settings s.

(** [{ ...old, ...newSettings }] *)
Definition merge (old : Settings num) (newSettings : PartialSettings num)
  : Settings num :=
  mkSettings
    (default (minProfitPercent old) (p_minProfitPercent newSettings))
    (default (enabledExchanges old) (p_enabledExchanges newSettings))
    (default (enabledPairs old) (p_enabledPairs newSettings))
    (default (telegramEnabled old) (p_telegramEnabled newSettings))
    (default (soundEnabled old) (p_soundEnabled newSettings))
    (default (tradeAmount old) (p_tradeAmount newSettings)).

(** [updateSettings] returns the merged settings. *)
Definition updateSettings (newSettings : PartialSettings num) (s : MemStorage)
  : MemStorage * Settings num :=
  let merged := merge (ms_settings s) newSettings in
  (mkStorage merged (ms_opportunities s) (ms_signals s) (ms_tickers s)
             (ms_connectionStatuses s),
   merged).

Definition addOpportunity (opportunity : ArbitrageOpportunity num)
    (s : MemStorage) : MemStorage :=
  mkStorage (ms_settings s)
            (unshiftCapped 100 opportunity (ms_opportunities s))
            (ms_signals s) (ms_tickers s) (ms_connectionStatuses s).

(** [getOpportunities(limit = 100)] *)
Definition getOpportunities (limit : option Z) (s : MemStorage)
  : list (ArbitrageOpportunity num) :=
  slice0 (ms_opportunities s) (default 100%Z limit).

Definition addSignal (signal : Telegram.Signal num) (s : MemStorage)
  : MemStorage :=
  mkStorage (ms_settings s) (ms_opportunities s)
            (unshiftCapped 50 signal (ms_signals s))
            (ms_tickers s) (ms_connectionStatuses s).

(** [getSignals(limit = 50)] *)
Definition getSignals (limit : option Z) (s : MemStorage)
  : list (Telegram.Signal num) :=
  slice0 (ms_signals s) (default 50%Z limit).

Definition updateTicker (ticker : Ticker num) (s : MemStorage) : MemStorage :=
  let key := tickerKey (tk_exchange ticker) (tk_pair ticker) in
  mkStorage (ms_settings s) (ms_opportunities s) (ms_signals s)
            (<[key := ticker]> (ms_tickers s)) (ms_connectionStatuses s).

Definition getTickers (s : MemStorage) : gmap string (Ticker num) :=
  ms_tickers s.

(** The map of statuses is keyed by the exchange identifier, a string. *)
Definition updateConnectionStatus (status : Connector.ConnectionStatus)
    (s : MemStorage) : MemStorage :=
  mkStorage (ms_settings s) (ms_opportunities s) (ms_signals s) (ms_tickers s)
            (<[exchange_name (Connector.cs_exchange status) := status]>
               (ms_connectionStatuses s)).

Definition getConnectionStatuses (s : MemStorage)
  : gmap string Connector.ConnectionStatus :=
  ms_connectionStatuses s.

(** The calls of [IStorage] that write, and a sequence of them. *)
Inductive Call : Type :=
| AddOpportunity (opportunity : ArbitrageOpportunity num)
| AddSignal (signal : Telegram.Signal num)
| UpdateTicker (ticker : Ticker num)
| UpdateSettings (newSettings : PartialSettings num)
| UpdateConnectionStatus (status : Connector.ConnectionStatus).

Definition call (c : Call) (s : MemStorage) : MemStorage :=
  match c with
  | AddOpportunity opportunity => addOpportunity opportunity s
  | AddSignal signal => addSignal signal s
  | UpdateTicker ticker => updateTicker ticker s
  | UpdateSettings newSettings => fst (updateSettings newSettings s)
  | UpdateConnectionStatus status => updateConnectionStatus status s
  end.

Definition calls (cs : list Call) (s : MemStorage) : MemStorage :=
  fold_left (fun s c => call c s) cs s.

(** The opportunities and the signals a sequence of calls adds, the oldest
    first. *)
Definition addedOpportunities (cs : list Call)
  : list (ArbitrageOpportunity num) :=
  flat_map (fun c => match c with AddOpportunity o => [o] | _ => [] end) cs.

Definition addedSignals (cs : list Call) : list (Telegram.Signal num) :=
  flat_map (fun c => match c with AddSignal g => [g] | _ => [] end) cs.

End WithNumbers.

Arguments MemStorage : clear implicits.
Arguments Call : clear implicits.

End Storage.


(** ** The MEXC REST client (class [MexcApiService]) *)

Module MexcApi.
Import JSString Json.

(** What an [async] method comes to: it throws an [Error] with a message, it
    throws a [TypeError], or it goes on with a value. *)
Inductive Outcome (A : Type) : Type :=
| Threw (message : string)
| ThrewTypeError
| Returned (a : A).
Arguments Threw {A}.
Arguments ThrewTypeError {A}.
Arguments Returned {A}.

Record MexcConfig : Type := mkConfig {
  apiKey : string;
  secretKey : string;
  baseUrl : string
}.

(** A [fetch] of the client. *)
Record Call : Type := mkCall {
  c_method : string;
  c_url : string;
  c_apiKey : option string
}.

Record MexcBalance : Type := mkBalance {
  asset : string;
  free : string;
  locked : string
}.

(** The constructor: [process.env.X || ""]. *)
Definition create (MEXC_API_KEY MEXC_SECRET_KEY : option string) : MexcConfig :=
  mkConfig (default "" MEXC_API_KEY) (default "" MEXC_SECRET_KEY)
           "https://api.mexc.com".

Definition nonEmpty (s : string) : bool := negb (String.eqb s "").

Definition isConfigured (config : MexcConfig) : bool :=
  nonEmpty (apiKey config) && nonEmpty (secretKey config).

(** [symbol.replace("/", "").toUpperCase()] *)
Definition formattedSymbol (symbol : string) : string :=
  toUpperCase (replace symbol "/" "").

Section WithNumbers.
Context {num : Type} `{JSNumber num}.
Local Open Scope js_scope.

(** Built-ins of the platform:
    [crypto.createHmac("sha256", key).update(text).digest("hex")], the
    serialisation of one name or value by [URLSearchParams], and
    [String(v)]. *)
Variable hmacSha256Hex : string -> string -> string.
Variable urlencode : string -> string.
Variable toString : json num -> string.

(** [{ ...params, k: v }]: a key that is there keeps its place. *)
Fixpoint setKey (k : string) (v : json num) (params : list (string * json num))
  : list (string * json num) :=
  match params with
  | [] => [(k, v)]
  | (k', v') :: rest =>
      if String.eqb k k' then (k, v) :: rest else (k', v') :: setKey k v rest
  end.

(** [new URLSearchParams(params).toString()] *)
Definition queryString (params : list (string * json num)) : string :=
  Connector.join "&"
    (map (fun kv => urlencode (fst kv) +:+ "=" +:+ urlencode (toString (snd kv)))
         params).

Definition generateSignature (config : MexcConfig) (queryString : string)
  : string :=
  hmacSha256Hex (secretKey config) queryString.

(** [publicRequest(endpoint, params)], up to the [fetch]. *)
Definition publicRequest (config : MexcConfig) (endpoint : string)
    (params : list (string * json num)) : Call :=
  let qs := queryString params in
  mkCall "GET"
         (baseUrl config +:+ endpoint
          +:+ (if nonEmpty qs then "?" +:+ qs else ""))
         None.

(** [signedRequest(method, endpoint, params)], up to the [fetch], at the
    instant [now]. *)
Definition signedRequest (config : MexcConfig) (now : Z)
    (method endpoint : string) (params : list (string * json num))
  : Outcome Call :=
  if negb (nonEmpty (apiKey config)) || negb (nonEmpty (secretKey config))
  then Threw "MEXC API credentials not configured"
  else
    let timestamp := JStr (pretty now) in
    let allParams := setKey "timestamp" timestamp params in
    let qs := queryString allParams in
    let signature := generateSignature config qs in
    Returned
      (mkCall method
              (baseUrl config +:+ endpoint +:+ "?" +:+ qs
               +:+ "&signature=" +:+ signature)
              (Some (apiKey config))).

Record OrderParams : Type := mkOrder {
  o_symbol : json num;
  o_side : json num;
  o_type : json num;
  o_quantity : json num;
  o_price : json num;
  o_timeInForce : json num
}.

(** [placeOrder(params)], up to the [fetch]. *)
Definition placeOrder (config : MexcConfig) (now : Z) (params : OrderParams)
  : Outcome Call :=
  if negb (truthy (o_symbol params)) || negb (truthy (o_side params))
     || negb (truthy (o_type params)) || negb (truthy (o_quantity params))
  then Threw "Missing required order parameters: symbol, side, type, quantity"
  else if is_str (o_type params) "LIMIT" && negb (truthy (o_price params))
  then Threw "Price is required for LIMIT orders"
  else
    match o_symbol params with
    | JStr symbol =>
        let orderParams :=
          [("symbol", JStr (formattedSymbol symbol));
           ("side", o_side params);
           ("type", o_type params);
           ("quantity", o_quantity params)] in
        let orderParams :=
          if is_str (o_type params) "LIMIT" then
            setKey "timeInForce"
                   (or_else (o_timeInForce params) (JStr "GTC"))
                   (setKey "price" (o_price params) orderParams)
          else orderParams in
        signedRequest config now "POST" "/api/v3/order" orderParams
    | _ => ThrewTypeError
    end.

(** [cancelOrder(symbol, orderId)], up to the [fetch]. *)
Definition cancelOrder (config : MexcConfig) (now : Z) (symbol orderId : string)
  : Outcome Call :=
  signedRequest config now "DELETE" "/api/v3/order"
                [("symbol", JStr (formattedSymbol symbol));
                 ("orderId", JStr orderId)].

(** [getBalances()], from the answer of the account endpoint on: the
    balances with funds. *)
Definition getBalances (balances : list MexcBalance) : list MexcBalance :=
  List.filter
    (fun b => (parseFloat_string (free b) >? num_int 0)
              || (parseFloat_string (locked b) >? num_int 0))
    balances.

(** [getBalance(asset)], from the same answer on; [None] is [null]. *)
Definition getBalance (asset_ : string) (balances : list MexcBalance)
  : option MexcBalance :=
  List.find
    (fun b => String.eqb (toUpperCase (asset b)) (toUpperCase asset_))
    (getBalances balances).

End WithNumbers.

Arguments OrderParams : clear implicits.

End MexcApi.


(** ** The server ([registerRoutes])

    The server owns the engine, the notifier, the lists of the latest
    opportunities and signals and the counters of tickers.  Each listener
    and each route is a function on that state; a listener that waits for
    Telegram is split at its [await]. *)

Module Server.
Import Json Engine JSArray Telegram.

(** [requireMexcAuth]: the status and the error it answers with, or [None]
    when it calls [next()]. *)
Definition requireMexcAuth (MEXC_ACCESS_TOKEN authorization : option string)
  : option (Z * string) :=
  match MEXC_ACCESS_TOKEN with
  | Some expectedToken =>
      if String.eqb expectedToken "" then
        Some (503%Z, "Trading API not configured. "
                     +:+ "Set MEXC_ACCESS_TOKEN environment variable.")
      else
        match authorization with
        | Some authHeader =>
            if String.eqb authHeader ""
               || negb (String.eqb authHeader ("Bearer " +:+ expectedToken))
            then Some (401%Z, "Unauthorized. Provide valid Bearer token.")
            else None
        | None => Some (401%Z, "Unauthorized. Provide valid Bearer token.")
        end
  | None =>
      Some (503%Z, "Trading API not configured. "
                   +:+ "Set MEXC_ACCESS_TOKEN environment variable.")
  end.

Section WithNumbers.
Context {num : Type} `{JSNumber num}.

Variable takerFee : ExchangeId -> num.
Variable toFixed : nat -> num -> string.
Variable toLocaleTimeString : Z -> string.
Variable toISOString : Z -> string.
Variable toString : json num -> string.
Variable exchangeName : ExchangeId -> string.
Variable hmacSha256Hex : string -> string -> string.
Variable urlencode : string -> string.
Variable EXCHANGES : list ExchangeId.
Variable TRADING_PAIRS : list string.

(** What [broadcast] sends to the clients. *)
Inductive WSMessage : Type :=
| MsgTicker (data : Ticker num)
| MsgStatus (data : Connector.ConnectionStatus)
| MsgAnalysis (data : AnalysisResult num)
| MsgOpportunity (data : ArbitrageOpportunity num)
| MsgSignal (data : Signal num)
| MsgSettings (data : Settings num).

(** The state of [registerRoutes]: its constants, what was broadcast, the
    requests made to Telegram, and the opportunities whose listener waits at
    its [await], each with the request [sendMessage] made for it, if any. *)
Record Server : Type := mkServer {
  arbitrageEngine : Engine.State num;
  telegramService : TelegramService;
  signals : list (Signal num);
  opportunities : list (ArbitrageOpportunity num);
  tickerCounts : gmap string nat;
  broadcasts : list WSMessage;
  requests : list (Request num);
  awaiting : list (ArbitrageOpportunity num * option (Request num))
}.

Definition broadcast (message : WSMessage) (s : Server) : Server :=
  mkServer (arbitrageEngine s) (telegramService s) (signals s)
           (opportunities s) (tickerCounts s) (broadcasts s ++ [message])
           (requests s) (awaiting s).

Definition set_engine (engine : Engine.State num) (s : Server) : Server :=
  mkServer engine (telegramService s) (signals s) (opportunities s)
           (tickerCounts s) (broadcasts s) (requests s) (awaiting s).

(** The state when [registerRoutes] returns: the engine and the notifier as
    their constructors leave them, the settings written once more. *)
Definition start (TELEGRAM_BOT_TOKEN TELEGRAM_CHAT_ID : option string) : Server :=
  let engine :=
    mkState ∅ (Wiring.defaultSettings EXCHANGES TRADING_PAIRS) ∅ 0 in
  let engine :=
    updateSettings
      (mkPartial (Some (num_int 1)) (Some EXCHANGES) (Some TRADING_PAIRS)
                 (Some true) (Some true) (Some (num_int 1000)))
      engine in
  mkServer engine (Telegram.create TELEGRAM_BOT_TOKEN TELEGRAM_CHAT_ID)
           [] [] ∅ [] [] [].

(** The listener of ["ticker"] of the connector [exchangeId]. *)
Definition onTicker (exchangeId : ExchangeId) (ticker : Ticker num)
    (s : Server) : Server :=
  let s := broadcast (MsgTicker ticker) s in
  let s := set_engine (updateTicker ticker (arbitrageEngine s)) s in
  let key := exchange_name exchangeId in
  mkServer (arbitrageEngine s) (telegramService s) (signals s)
           (opportunities s)
           (<[key := (default 0 (tickerCounts s !! key) + 1)%nat]>
              (tickerCounts s))
           (broadcasts s) (requests s) (awaiting s).

(** The listener of ["status"]. *)
Definition onStatus (status : Connector.ConnectionStatus) (s : Server)
  : Server :=
  broadcast (MsgStatus status) s.

(** The listener of ["analysis"]. *)
Definition onAnalysis (analysis : AnalysisResult num) (s : Server) : Server :=
  broadcast (MsgAnalysis analysis) s.

(** The listener of ["opportunity"], up to its [await]. *)
Definition onOpportunity (opportunity : ArbitrageOpportunity num) (s : Server)
  : Server :=
  let s :=
    mkServer (arbitrageEngine s) (telegramService s) (signals s)
             (unshiftCapped 100 opportunity (opportunities s))
             (tickerCounts s) (broadcasts s) (requests s) (awaiting s) in
  let s := broadcast (MsgOpportunity opportunity) s in
  let settings := getSettings (arbitrageEngine s) in
  if telegramEnabled settings && isConfigured (telegramService s) then
    if declines (telegramService s) then s
    else
      let request :=
        sendMessage_request
          (telegramService s)
          (opportunityText toFixed toLocaleTimeString exchangeName
                           opportunity) in
      mkServer (arbitrageEngine s) (telegramService s) (signals s)
               (opportunities s) (tickerCounts s) (broadcasts s)
               (requests s ++ option_list request)
               (awaiting s ++ [(opportunity, request)])
  else s.

(** The rest of that listener, when [sendMessage] has returned for the
    [i]-th waiting listener; [reply] is the answer of Telegram to its
    request. *)
Definition onTelegramReply (i : nat) (now : Z) (reply : Reply num) (s : Server)
  : option Server :=
  match awaiting s !! i with
  | Some (opportunity, request) =>
      let result :=
        match request with
        | Some _ => sendMessage_result toString reply
        | None => (false, None)
        end in
      let signal := signalOf opportunity now result in
      Some (broadcast (MsgSignal signal)
              (mkServer (arbitrageEngine s) (telegramService s)
                        (unshiftCapped 50 signal (signals s))
                        (opportunities s) (tickerCounts s) (broadcasts s)
                        (requests s) (delete i (awaiting s))))
  | None => None
  end.

(** The events of the engine reach their listeners in order. *)
Definition onEvent (ev : Event num) (s : Server) : Server :=
  match ev with
  | EvAnalysis analysis => onAnalysis analysis s
  | EvOpportunity opportunity => onOpportunity opportunity s
  end.

(** One scan of the engine (its timer fires every second).  The listeners
    run while the scan goes on; they read nothing a scan writes, so they
    are run here on its result. *)
Definition onScan (now : Z) (s : Server) : Server :=
  let '(engine, events) := analyzeAllPairs takerFee now (arbitrageEngine s) in
  fold_left (fun s ev => onEvent ev s) events (set_engine engine s).

(** A message ["updateSettings"] of a client; [None] is a message without
    settings. *)
Definition onUpdateSettings (settings : option (PartialSettings num))
    (s : Server) : Server :=
  match settings with
  | Some newSettings =>
      let s :=
        set_engine (updateSettings newSettings (arbitrageEngine s)) s in
      let s :=
        mkServer (arbitrageEngine s)
                 (setEnabled (default true (p_telegramEnabled newSettings))
                             (telegramService s))
                 (signals s) (opportunities s) (tickerCounts s)
                 (broadcasts s) (requests s) (awaiting s) in
      broadcast (MsgSettings (getSettings (arbitrageEngine s))) s
  | None => s
  end.

(** A message ["testTelegram"] of a client, up to the [await]: the request
    [sendTestMessage] makes; its answer goes to that client alone. *)
Definition onTestTelegram (now : Z) (s : Server) : Server :=
  mkServer (arbitrageEngine s) (telegramService s) (signals s)
           (opportunities s) (tickerCounts s) (broadcasts s)
           (requests s
            ++ option_list
                 (fst (sendTestMessage toISOString toString
                                       (telegramService s) now ReplyRejected)))
           (awaiting s).

Inductive Input : Type :=
| Ticked (exchangeId : ExchangeId) (ticker : Ticker num)
| StatusChanged (status : Connector.ConnectionStatus)
| Scanned
| TelegramReplied (i : nat) (reply : Reply num)
| UpdateSettings (settings : option (PartialSettings num))
| TestTelegram.

Definition step (now : Z) (inp : Input) (s : Server) : option Server :=
  match inp with
  | Ticked exchangeId ticker => Some (onTicker exchangeId ticker s)
  | StatusChanged status => Some (onStatus status s)
  | Scanned => Some (onScan now s)
  | TelegramReplied i reply => onTelegramReply i now reply s
  | UpdateSettings settings => Some (onUpdateSettings settings s)
  | TestTelegram => Some (onTestTelegram now s)
  end.

Inductive reachable (token chat : option string) : Server -> Prop :=
| reach_start : reachable token chat (start token chat)
| reach_step s now inp s' :
    reachable token chat s -> step now inp s = Some s' ->
    reachable token chat s'.

(** A run: inputs with their instants, in order. *)
Fixpoint run (trace : list (Z * Input)) (s : Server) : option Server :=
  match trace with
  | [] => Some s
  | (now, inp) :: rest =>
      match step now inp s with
      | Some s' => run rest s'
      | None => None
      end
  end.

(** *** The routes of the MEXC client *)

(** What a route does: it answers with a status and an error, it answers
    with the status 500 and the text of a [TypeError], or it makes a request
    to MEXC (and answers from what comes back). *)
Inductive RouteResult : Type :=
| Respond (status : Z) (error : string)
| RespondTypeError
| Calls (call : MexcApi.Call).

(** [res.status(500).json({ error: String(error) })] for an [Error]. *)
Definition respond500 (message : string) : RouteResult :=
  Respond 500 ("Error: " +:+ message).

(** [POST /api/mexc/order] *)
Definition postOrder (MEXC_ACCESS_TOKEN authorization : option string)
    (config : MexcApi.MexcConfig) (now : Z) (body : json num) : RouteResult :=
  match requireMexcAuth MEXC_ACCESS_TOKEN authorization with
  | Some (status, error) => Respond status error
  | None =>
      if negb (MexcApi.isConfigured config) then
        Respond 401 "MEXC API not configured"
      else
        match get body "symbol" with
        | None => RespondTypeError
        | Some _ =>
            let params :=
              MexcApi.mkOrder
                (get_opt body "symbol") (get_opt body "side")
                (get_opt body "type") (get_opt body "quantity")
                (get_opt body "price") (get_opt body "timeInForce") in
            match MexcApi.placeOrder hmacSha256Hex urlencode toString
                                     config now params with
            | MexcApi.Returned call => Calls call
            | MexcApi.Threw message => respond500 message
            | MexcApi.ThrewTypeError => RespondTypeError
            end
        end
  end.

(** [GET /api/mexc/balance/:asset], from the answer of MEXC on: the balance
    the route sends. *)
Definition balanceOf (asset_ : string) (balances : list MexcApi.MexcBalance)
  : MexcApi.MexcBalance :=
  match MexcApi.getBalance asset_ balances with
  | Some balance => balance
  | None => MexcApi.mkBalance asset_ "0" "0"
  end.

End WithNumbers.

Arguments WSMessage : clear implicits.
Arguments Server : clear implicits.
Arguments Input : clear implicits.
Arguments RouteResult : clear implicits.

End Server.


(** ** The dashboard (client)

    The reducers of the lists the dashboard keeps, and the toggles of the
    settings dialog. *)

Module Client.
Import JSArray.

(** [current.includes(x) ? current.filter(e => e !== x) : [...current, x]] *)
Definition toggle {A : Type} `{EqDecision A} (x : A) (current : list A)
  : list A :=
  if bool_decide (x ∈ current)
  then List.filter (fun e => bool_decide (e <> x)) current
  else current ++ [x].

Section Lists.
Context {A : Type} (id : A -> string).

(** The reducer of ["opportunity"]:
    [[data, ...prev.filter(o => o.id !== data.id)].slice(0, 100)] *)
Definition receiveOpportunity (data : A) (prev : list A) : list A :=
  slice0
    (data :: List.filter (fun o => negb (String.eqb (id o) (id data))) prev)
    100.

(** The reducer of ["signal"]: [[data, ...prev].slice(0, 50)] *)
Definition receiveSignal (data : A) (prev : list A) : list A :=
  slice0 (data :: prev) 50.

(** [addLog]: [[entry, ...prev].slice(0, 200)] *)
Definition addLog (entry : A) (prev : list A) : list A :=
  slice0 (entry :: prev) 200.

End Lists.

End Client.


(** ** Concrete books and runs *)

Module Scenarios.
Import Json Adapters Connector Binary64 Exact Engine.

(** *** Books *)

Definition quote (e : ExchangeId) (bid ask : Z) : Ticker xnum :=
  mkTicker e "BTC/USDT" (num_int bid) (num_int ask) (num_int ask)
           (num_int 0) (num_int 0) 0.

(** Bybit quotes 99/100, OKX quotes 90/101. *)
Definition crossedBook : Engine.State xnum :=
  updateTicker (quote okx 90 101)
    (updateTicker (quote bybit 99 100)
       (mkState ∅ (Wiring.defaultSettings [bybit; okx] ["BTC/USDT"]) ∅ 0)).

Definition quote64 (e : ExchangeId) (bid ask : Z) : Ticker float :=
  mkTicker e "BTC/USDT" (num_int bid) (num_int ask) (num_int ask)
           (num_int 0) (num_int 0) 0.

(** The same book in binary64. *)
Definition crossedBook64 : Engine.State float :=
  updateTicker (quote64 okx 90 101)
    (updateTicker (quote64 bybit 99 100)
       (mkState ∅ (Wiring.defaultSettings [bybit; okx] ["BTC/USDT"]) ∅ 0)).

(** Bybit quotes 99/100, OKX quotes 102/103: buying at 100 and selling at
    102. *)
Definition profitableBook : Engine.State float :=
  updateTicker (quote64 okx 102 103)
    (updateTicker (quote64 bybit 99 100)
       (mkState ∅ (Wiring.defaultSettings [bybit; okx] ["BTC/USDT"]) ∅ 0)).

Definition profitableQuote : Engine.Quote float :=
  mkQuote [mkPoint bybit 100%float; mkPoint okx 103%float]
          (mkPoint bybit 100%float) (mkPoint okx 103%float)
          102%float 2%float 0.001%float 0.001%float 1.8%float.

(** A ticker frame of Bitget: [{ arg: { instType, channel, instId },
    data: [{ bidPr, askPr, lastPr, baseVolume, change24h }] }]. *)
Definition bitgetFrame (bidPr askPr lastPr : string) : json float :=
  JObj [("action", JStr "snapshot");
        ("arg", JObj [("instType", JStr "SPOT"); ("channel", JStr "ticker");
                      ("instId", JStr "BTCUSDT")]);
        ("data", JArr [JObj [("bidPr", JStr bidPr); ("askPr", JStr askPr);
                             ("lastPr", JStr lastPr);
                             ("baseVolume", JStr "12.5");
                             ("change24h", JStr "0.01")]])].

Definition goodFrame : json float := bitgetFrame "100" "101" "100.5".
(** Bid not a number, ask negative, last missing a digit. *)
Definition badFrame : json float := bitgetFrame "abc" "-1" "".

(** A state update of CoinEx with two entries, the second without a usable
    last price, and a ticker frame of BingX. *)
Definition coinexState (market last : string) : json float :=
  JObj [("market", JStr market); ("last", JStr last); ("open", JStr "80");
        ("high", JStr "101"); ("low", JStr "79"); ("volume", JStr "12.5")].

Definition coinexFrame : json float :=
  JObj [("method", JStr "state.update");
        ("data",
         JObj [("state_list",
                JArr [coinexState "BTCUSDT" "100"; coinexState "ETHUSDT" "0"])])].

Definition bingxData (c : string) : json float :=
  JObj [("s", JStr "BTC-USDT"); ("c", JStr c); ("o", JStr "80");
        ("h", JStr "101"); ("l", JStr "79"); ("v", JStr "12.5")].

Definition bingxFrame : json float :=
  JObj [("dataType", JStr "BTC-USDT@ticker"); ("data", bingxData "100")].

(** A platform that knows two texts. *)
Definition parseFrames (s : string) : option (json float) :=
  if String.eqb s "good" then Some goodFrame
  else if String.eqb s "bad" then Some badFrame
  else None.

(** A stand-in for gzip: the magic bytes in front of the text. *)
Definition gzipOf (text : string) : string :=
  String (ascii_of_nat 31) (String (ascii_of_nat 139) text).
Definition gunzipOf (bytes : string) : option string :=
  if gzipMagic bytes then Some (JSString.drop 2 bytes) else None.
Definition noInflate (bytes : string) : option string := None.

Definition runOn (e : ExchangeId) (trace : list (Z * Input float))
  : option (World float) :=
  Connector.run parseFrames gunzipOf noInflate e trace initial.

Definition pairs : list string := ["BTC/USDT"; "ETH/USDT"].

(** A Gate.io connector with two pairs loses its socket: an error, the
    close that follows, and a [connect()] that throws while the reconnect
    is pending. *)
Definition losing : list (Z * Input float) :=
  [(0, CallSubscribe pairs); (1, CallConnect false); (20, WsOpen 0);
   (900, WsError 0 "read ECONNRESET"); (901, WsClose 0);
   (2000, CallConnect true)]%Z.

(** Then the reconnect timer fires and [connect()] builds a new socket. *)
Definition retrying : list (Z * Input float) :=
  losing ++ [(5901, TimerFires 1 false)]%Z.

(** Connect, open, tear down. *)
Definition tornDown : list (Z * Input float) :=
  [(1, CallConnect false); (20, WsOpen 0); (300, CallDisconnect)]%Z.

(** The cache with a good Bitget ticker in it. *)
Definition goodTicker : Ticker float :=
  mkTicker bitget "BTC/USDT" 100%float 101%float 100.5%float 12.5%float
           1%float 7%Z.
Definition goodCache : Engine.State float :=
  Engine.updateTicker goodTicker
    (Engine.mkState ∅ (Wiring.defaultSettings [bitget; okx] ["BTC/USDT"]) ∅ 0).

(** What Bitget emits for [badFrame] at the instant 9. *)
Definition badTicker : Ticker float :=
  mkTicker bitget "BTC/USDT" 0%float (-1)%float 0%float 12.5%float 1%float 9%Z.

(** The world after subscribe, connect and open. *)
Definition connecting : list (Z * Input float) :=
  [(0, CallSubscribe pairs); (1, CallConnect false); (20, WsOpen 0)]%Z.
Definition connectedWorld : World float :=
  default initial (runOn bybit connecting).

Definition losingWorld : World float :=
  default initial (runOn gateio losing).

Definition retryingWorld : World float :=
  default initial (runOn gateio retrying).

(** *** Exact books *)

(** Bybit quotes 99/100, OKX quotes 102/103, in exact arithmetic. *)
Definition profitableBookX : Engine.State xnum :=
  updateTicker (quote okx 102 103)
    (updateTicker (quote bybit 99 100)
       (mkState ∅ (Wiring.defaultSettings [bybit; okx] ["BTC/USDT"]) ∅ 0)).

Definition profitableQuoteX : Engine.Quote xnum :=
  mkQuote [mkPoint bybit (XFin 100); mkPoint okx (XFin 103)]
          (mkPoint bybit (XFin 100)) (mkPoint okx (XFin 103))
          (XFin 102) (XFin 2.00) (XFin 0.001) (XFin 0.001)
          (XFin 1.80000000).

(** *** A polling connector

    Subscribe, connect, let the polling timer fire, lose a request, and call
    [connect()] once more. *)
Definition polling : list (Z * Input float) :=
  [(0, CallSubscribe pairs); (1, CallConnect false); (2001, TimerFires 0 false);
   (2050, Fetched FetchRejected); (9000, CallConnect false)]%Z.

Definition pollingWorld : World float :=
  default initial (runOn kucoin polling).

(** *** A connector that has published a ticker *)
Definition receiving : list (Z * Input float) :=
  [(1, CallConnect false); (20, WsOpen 0); (30, WsMessage 0 (DString "good"))]%Z.

Definition receivingWorld : World float :=
  default initial (runOn bitget receiving).

(** *** A server

    Stand-ins for the built-ins that print, and a server with a token and a
    chat. *)
Definition noFixed (d : nat) (x : float) : string := "".
Definition noTime (t : Z) : string := "".
Definition textOf (v : json float) : string :=
  match v with JStr s => s | _ => "" end.

Definition serverStart : Server.Server float :=
  Server.start [bybit; okx] ["BTC/USDT"] (Some "token") (Some "chat").

(** A busy server: Bybit quotes 99/100 and OKX 102/103, then 101 scans, 30
    seconds apart, each of which finds the opportunity; Telegram accepts
    every message. *)
Definition accepted : Telegram.Reply float :=
  Telegram.ReplyJson
    (JObj [("ok", JBool true);
           ("result", JObj [("message_id", JNum 7%float)])]).

Definition busy : list (Z * Server.Input float) :=
  [(1, Server.Ticked bybit (quote64 bybit 99 100));
   (2, Server.Ticked okx (quote64 okx 102 103))]%Z
  ++ flat_map
       (fun i =>
          let t := (1000000 + 30000 * Z.of_nat i)%Z in
          [(t, Server.Scanned);
           ((t + 400)%Z, Server.TelegramReplied 0 accepted)])
       (seq 0 101).

(** The opportunity a pass finds in that book. *)
Definition foundOpportunity : ArbitrageOpportunity float :=
  mkOpportunity "BTC/USDT" bybit okx 100%float 102%float 2%float 1.8%float
                18%float 0%float 1%float 1%float 4030000.

Definition serverRun (trace : list (Z * Server.Input float))
    (s : Server.Server float) : option (Server.Server float) :=
  Server.run Wiring.configuredTakerFee noFixed noTime noTime textOf
             exchange_name trace s.

Definition serverBusy : Server.Server float :=
  default serverStart (serverRun busy serverStart).

(** *** An order

    Stand-ins for the signature and the encoding, and a market order sent
    with the token the server expects. *)
Definition signOf (key text : string) : string := "signed".
Definition encodeOf (text : string) : string := text.

Definition orderConfig : MexcApi.MexcConfig :=
  MexcApi.mkConfig "key" "secret" "https://api.mexc.com".

Definition orderBody : json float :=
  JObj [("symbol", JStr "btc/usdt"); ("side", JStr "BUY");
        ("type", JStr "MARKET"); ("quantity", JStr "1")].

Definition orderCall : MexcApi.Call :=
  MexcApi.mkCall
    "POST"
    ("https://api.mexc.com/api/v3/order"
     +:+ "?symbol=BTCUSDT&side=BUY&type=MARKET&quantity=1&timestamp=1000"
     +:+ "&signature=signed")
    (Some "key").

End Scenarios.


(** * Properties *)

(** Case analysis on the condition of the first conditional of the goal. *)
Ltac case_if :=
  match goal with
  | |- context [if ?c then _ else _] =>
      let E := fresh "Hif" in destruct c eqn:E
  end.

Module ExactFacts.
Import Exact.

Lemma Qle_bool_total p q : Qle_bool p q = true \/ Qle_bool q p = true.
Proof.
  destruct (Qlt_le_dec p q) as [Hlt | Hle].
  - left. apply Qle_bool_iff. now apply Qlt_le_weak.
  - right. now apply Qle_bool_iff.
Qed.

Lemma xleb_refl a : ordered a -> xleb a a = true.
Proof.
  destruct a as [q | s |]; simpl; intros Ha.
  - apply Qle_bool_iff. apply Qle_refl.
  - now destruct s.
  - now contradiction Ha.
Qed.

Lemma xleb_total a b : ordered a -> ordered b -> xleb a b = true \/ xleb b a = true.
Proof.
  destruct a as [p | s |], b as [q | t |]; simpl; intros Ha Hb;
    try (now contradiction Ha); try (now contradiction Hb).
  - apply Qle_bool_total.
  - destruct t; auto.
  - destruct s; auto.
  - destruct s, t; auto.
Qed.

Lemma xleb_trans a b c : xleb a b = true -> xleb b c = true -> xleb a c = true.
Proof.
  destruct a as [p | s |], b as [q | t |], c as [r | u |]; simpl;
    repeat match goal with x : bool |- _ => destruct x end; simpl;
    try congruence.
  rewrite !Qle_bool_iff. apply Qle_trans.
Qed.

Lemma zero_lt_sub a b :
  ordered a -> ordered b ->
  xltb (XFin 0) (xsub a b) = negb (xleb a b).
Proof.
  destruct a as [p | s |], b as [q | t |]; simpl; intros Ha Hb;
    try (now contradiction Ha); try (now contradiction Hb).
  - unfold Qltb. f_equal.
    apply eq_true_iff_eq. rewrite !Qle_bool_iff.
    split; intros Hle.
    + apply Qplus_le_l with (z := (- q)%Q). now rewrite Qplus_opp_r.
    + apply Qplus_le_l with (z := (- q)%Q) in Hle. now rewrite Qplus_opp_r in Hle.
  - now destruct t.
  - now destruct s.
  - now destruct s, t.
Qed.

Lemma gt_zero_sub (a b : xnum) :
  ordered a -> ordered b ->
  (num_sub a b >? num_int 0)%js = negb (xleb a b).
Proof. exact (zero_lt_sub a b). Qed.

Lemma positive_ordered a : xltb (XFin 0) a = true -> ordered a.
Proof. destruct a; simpl; intros Hpos; unfold ordered; congruence. Qed.

Lemma xnum_order : NumberOrder xnum.
Proof.
  split.
  - reflexivity.
  - intros x Hx. change (xltb (XFin 0) x = true) in Hx.
    change (xtruthy x = true).
    destruct x as [q | s |]; simpl in *; try congruence.
    unfold Qltb, Qzero in *. apply negb_true_iff in Hx.
    apply negb_true_iff, not_true_is_false. intros Hz.
    apply Qeq_bool_iff in Hz. apply not_true_iff_false in Hx. apply Hx.
    apply Qle_bool_iff. rewrite Hz. apply Qle_refl.
  - intros x Ht Hle. change (xtruthy x = true) in Ht.
    change (xleb x (XFin 0) = false) in Hle.
    change (xltb (XFin 0) x = true).
    destruct x as [q | s |]; simpl in *; try congruence.
    + unfold Qltb. now rewrite Hle.
    + now destruct s.
Qed.

End ExactFacts.

(** ** Facts about binary64 numbers *)

Module FloatFacts.
Import Binary64.

Lemma float_zero : num_int (num:=float) 0 = 0%float.
Proof. reflexivity. Qed.

Lemma SFcompare_finite_refl s m e :
  SFcompare (S754_finite s m e) (S754_finite s m e) = Some Eq.
Proof.
  simpl. rewrite Z.compare_refl, Pos.compare_refl. now destruct s.
Qed.

Lemma float_order : NumberOrder float.
Proof.
  split.
  - reflexivity.
  - intros x. cbn [num_ltb num_truthy float_number]. rewrite float_zero.
    unfold float_truthy. rewrite FloatAxioms.ltb_spec, !FloatAxioms.eqb_spec.
    change (Prim2SF 0) with (S754_zero false).
    destruct (Prim2SF x) as [s | s | | s m e]; try discriminate.
    + destruct s; [discriminate | reflexivity].
    + destruct s; [discriminate |]. intros _.
      unfold SFeqb. rewrite SFcompare_finite_refl. reflexivity.
  - intros x. cbn [num_ltb num_leb num_truthy float_number]. rewrite float_zero.
    unfold float_truthy.
    rewrite FloatAxioms.ltb_spec, FloatAxioms.leb_spec, !FloatAxioms.eqb_spec.
    change (Prim2SF 0) with (S754_zero false).
    destruct (Prim2SF x) as [s | s | | s m e]; intros Ht Hle;
      try destruct s; cbn in *; congruence.
Qed.

End FloatFacts.

(** ** Facts about the stable sort, in the exact model *)

Module SortFacts.
Import Exact ExactFacts.

Section ByKey.
Context {A : Type} (key : A -> xnum).

Let comparefn (a b : A) : xnum := num_sub (key a) (key b).
Let le (a b : A) : Prop := xleb (key a) (key b) = true.
Let valid (a : A) : Prop := ordered (key a).

Lemma sort_insert_perm x l : Permutation (Engine.sort_insert comparefn x l) (x :: l).
Proof.
  induction l as [| y ys IH]; simpl.
  - reflexivity.
  - case_if.
    + rewrite IH. apply perm_swap.
    + reflexivity.
Qed.

Lemma sort_perm l : Permutation (Engine.sort comparefn l) l.
Proof.
  induction l as [| x xs IH]; simpl.
  - reflexivity.
  - unfold Engine.sort in *. simpl. rewrite sort_insert_perm. now constructor.
Qed.

Lemma sort_insert_sorted x l :
  valid x -> Forall valid l -> StronglySorted le l ->
  StronglySorted le (Engine.sort_insert comparefn x l).
Proof.
  intros Hx Hl Hs. induction Hs as [| y ys Hs IH Hy]; cbn [Engine.sort_insert].
  - repeat constructor.
  - inversion Hl as [| ? ? Hvy Hvys]; subst.
    unfold comparefn at 1. rewrite gt_zero_sub by assumption.
    destruct (xleb (key x) (key y)) eqn:Hxy; cbn [negb].
    + constructor; [now constructor |].
      constructor; [exact Hxy |].
      eapply Forall_impl; [exact Hy |].
      intros z Hz. unfold le in *. eapply xleb_trans; eassumption.
    + assert (Hyx : le y x).
      { destruct (xleb_total (key x) (key y)) as [E | E]; auto. congruence. }
      constructor; [now apply IH |].
      eapply Permutation_Forall; [symmetry; apply sort_insert_perm |].
      now constructor.
Qed.

Lemma sort_sorted l : Forall valid l -> StronglySorted le (Engine.sort comparefn l).
Proof.
  induction 1 as [| x xs Hx Hxs IH]; unfold Engine.sort in *; simpl.
  - constructor.
  - apply sort_insert_sorted; auto.
    eapply Permutation_Forall; [symmetry; apply sort_perm | assumption].
Qed.

Lemma sorted_head_least l b :
  Forall valid l -> StronglySorted le l -> head l = Some b ->
  forall x, In x l -> le b x.
Proof.
  intros Hv Hs Hh x Hx. destruct l as [| y ys]; [discriminate |].
  simpl in Hh. injection Hh as ->. inversion Hs as [| ? ? _ Hall]; subst.
  inversion Hv; subst.
  destruct Hx as [-> | Hx].
  - now apply xleb_refl.
  - rewrite Forall_forall in Hall. apply Hall. now apply list_elem_of_In.
Qed.

Lemma sorted_last_greatest l s :
  Forall valid l -> StronglySorted le l -> last l = Some s ->
  forall x, In x l -> le x s.
Proof.
  intros Hv Hs. revert s. induction Hs as [| y ys Hs IH Hy]; intros s Hl x Hx.
  - destruct Hx.
  - inversion Hv as [| ? ? Hvy Hvys]; subst.
    destruct ys as [| z zs].
    + simpl in Hl. injection Hl as <-. destruct Hx as [-> | []].
      now apply xleb_refl.
    + change (last (y :: z :: zs)) with (last (z :: zs)) in Hl.
      destruct Hx as [-> | Hx].
      * rewrite Forall_forall in Hy. apply Hy.
        apply list_elem_of_In. eapply last_Some_elem_of in Hl.
        now apply list_elem_of_In.
      * now apply IH.
Qed.

End ByKey.
End SortFacts.


(** ** One pass of the engine *)

Module PassFacts.
Import Engine.

Section AnyNumbers.
Context {num : Type} `{JSNumber num}.
Variable takerFee : ExchangeId -> num.

Abbreviation State := (Engine.State num).
Abbreviation Quote := (Engine.Quote num).

Lemma opportunities_app (a b : list (Engine.Event num)) :
  opportunities (a ++ b) = opportunities a ++ opportunities b.
Proof. unfold opportunities. apply flat_map_app. Qed.

Lemma opportunities_analysis (c : bool) (a : Engine.AnalysisResult num) :
  opportunities (if c then [EvAnalysis a] else []) = [].
Proof. now destruct c. Qed.

(** A pass leaves the cache and the settings alone. *)
Lemma analyzePair_frame now pair (st : State) :
  tickers (fst (analyzePair takerFee now pair st)) = tickers st
  /\ settings (fst (analyzePair takerFee now pair st)) = settings st.
Proof.
  unfold analyzePair.
  destruct (analyse takerFee st pair) as [q |]; [| now split].
  repeat case_if; now split.
Qed.

Lemma analyse_ext (st st' : State) pair :
  tickers st' = tickers st -> settings st' = settings st ->
  analyse takerFee st' pair = analyse takerFee st pair.
Proof.
  intros Ht Hs. unfold analyse, collectPrices. now rewrite Ht, Hs.
Qed.

(** The decision of one pass. *)
Lemma analyzePair_decision now pair (st : State) (q : Quote) :
  analyse takerFee st pair = Some q ->
  let key := opportunityKey pair (pp_exchange (q_bestBuy q))
                            (pp_exchange (q_bestSell q)) in
  let emits := qualifies st q && cooledDown now pair st q in
  opportunities (snd (analyzePair takerFee now pair st))
    = (if emits then [opportunityOf now pair st q] else [])
  /\ lastOpportunities (fst (analyzePair takerFee now pair st))
    = (if emits then <[key := now]> (lastOpportunities st)
       else lastOpportunities st).
Proof.
  intros Hq key emits. subst emits. unfold analyzePair. rewrite Hq.
  unfold qualifies, cooledDown. fold key.
  destruct (num_leb (minProfitPercent (settings st)) (q_profitPercent q));
    cbn [andb fst snd].
  - destruct (now - lastTimeOf st key <? COOLDOWN_MS)%Z eqn:Hcool.
    + apply Z.ltb_lt in Hcool.
      destruct (COOLDOWN_MS <=? now - lastTimeOf st key)%Z eqn:Hle.
      * apply Z.leb_le in Hle. lia.
      * cbn [fst snd lastOpportunities]. split; [| reflexivity].
        apply opportunities_analysis.
    + apply Z.ltb_ge in Hcool. apply Z.leb_le in Hcool. rewrite Hcool.
      cbn [fst snd lastOpportunities]. split; [| reflexivity].
      rewrite opportunities_app, opportunities_analysis. reflexivity.
  - cbn [fst snd lastOpportunities]. split; [| reflexivity].
    apply opportunities_analysis.
Qed.



(** The events of a pass that analyses the pair: the analysis when the
    spread is notable, then the opportunity when the pass emits. *)
Lemma analyzePair_events now pair (st : State) (q : Quote) :
  analyse takerFee st pair = Some q ->
  snd (analyzePair takerFee now pair st)
  = (if num_leb (num_lit 3 (-1)) (q_spread q)
     then [EvAnalysis (analysisOf now pair q)] else [])
    ++ (if qualifies st q && cooledDown now pair st q
        then [EvOpportunity (opportunityOf now pair st q)] else []).
Proof.
  intros Hq. unfold analyzePair. rewrite Hq. unfold qualifies, cooledDown.
  destruct (num_leb (minProfitPercent (settings st)) (q_profitPercent q));
    cbn [andb snd]; [| now rewrite app_nil_r].
  destruct (now - lastTimeOf st _ <? COOLDOWN_MS)%Z eqn:Hcool.
  - apply Z.ltb_lt in Hcool.
    destruct (COOLDOWN_MS <=? now - lastTimeOf st _)%Z eqn:Hle.
    + apply Z.leb_le in Hle. lia.
    + cbn [snd]. now rewrite app_nil_r.
  - apply Z.ltb_ge in Hcool. apply Z.leb_le in Hcool. rewrite Hcool.
    reflexivity.
Qed.


(** A pass that does not analyse the pair (fewer than two usable sources)
    emits nothing and changes nothing. *)
Lemma analyzePair_skips now pair (st : State) :
  analyse takerFee st pair = None ->
  analyzePair takerFee now pair st = (st, []).
Proof. intros Hq. unfold analyzePair. now rewrite Hq. Qed.

(** C10.  [updateSettings] replaces the fields the partial object has and
    keeps the others; [getSettings] then returns the merged record, and the
    rest of the engine is untouched. *)
Theorem updateSettings_merges (p : PartialSettings num) (st : State) :
  let merged := getSettings (updateSettings p st) in
  let old := settings st in
  minProfitPercent merged
    = default (minProfitPercent old) (p_minProfitPercent p)
  /\ enabledExchanges merged
    = default (enabledExchanges old) (p_enabledExchanges p)
  /\ enabledPairs merged = default (enabledPairs old) (p_enabledPairs p)
  /\ telegramEnabled merged
    = default (telegramEnabled old) (p_telegramEnabled p)
  /\ soundEnabled merged = default (soundEnabled old) (p_soundEnabled p)
  /\ tradeAmount merged = default (tradeAmount old) (p_tradeAmount p)
  /\ tickers (updateSettings p st) = tickers st
  /\ lastOpportunities (updateSettings p st) = lastOpportunities st
  /\ analysisCount (updateSettings p st) = analysisCount st.
Proof.
  destruct p as [pm pe pp pt ps pa]. unfold getSettings, updateSettings.
  cbn [settings tickers lastOpportunities analysisCount minProfitPercent
       enabledExchanges enabledPairs telegramEnabled soundEnabled tradeAmount
       p_minProfitPercent p_enabledExchanges p_enabledPairs
       p_telegramEnabled p_soundEnabled p_tradeAmount].
  destruct pm, pe, pp, pt, ps, pa; repeat split; reflexivity.
Qed.

(** What [analyse] returns, piece by piece. *)
Lemma analyse_Some_inv (st : State) pair (q : Quote) :
  analyse takerFee st pair = Some q ->
  let sorted := sort (fun a b => num_sub (pp_price a) (pp_price b))
                     (collectPrices st pair) in
  (2 <= length (collectPrices st pair))%nat
  /\ q_prices q = sorted
  /\ head sorted = Some (q_bestBuy q)
  /\ last sorted = Some (q_bestSell q)
  /\ q_sellPrice q =
       match tickers st !! tickerKey (pp_exchange (q_bestSell q)) pair with
       | Some t => num_or (tk_bid t) (pp_price (q_bestSell q))
       | None => pp_price (q_bestSell q)
       end
  /\ q_spread q = spreadOf (q_sellPrice q) (pp_price (q_bestBuy q))
  /\ q_buyFee q = takerFee (pp_exchange (q_bestBuy q))
  /\ q_sellFee q = takerFee (pp_exchange (q_bestSell q))
  /\ q_profitPercent q = profitOf (q_spread q) (q_buyFee q) (q_sellFee q).
Proof.
  unfold analyse. intros Hq.
  destruct (length (collectPrices st pair) <? 2)%nat eqn:Hlen; [discriminate |].
  apply Nat.ltb_ge in Hlen.
  destruct (head _) as [b |] eqn:Hb; [| discriminate].
  destruct (last _) as [s |] eqn:Hs; [| discriminate].
  injection Hq as <-. repeat split; solve [reflexivity | assumption].
Qed.

End AnyNumbers.

Import Binary64 Exact Scenarios.

Lemma analyse_profitableBook :
  analyse Wiring.configuredTakerFee profitableBook "BTC/USDT"
  = Some profitableQuote.
Proof. vm_compute. reflexivity. Qed.


End PassFacts.


(** ** The venues a pass selects, in the exact model *)

Module EngineFacts.
Import Exact Binary64 ExactFacts SortFacts Engine PassFacts Scenarios.

Section Exactly.
Variable takerFee : ExchangeId -> xnum.

Abbreviation State := (Engine.State xnum).
Abbreviation Quote := (Engine.Quote xnum).
Abbreviation PricePoint := (Engine.PricePoint xnum).

Lemma usable_positive (t : Ticker xnum) :
  usable t = true ->
  xltb (XFin 0) (tk_ask t) = true /\ xltb (XFin 0) (tk_bid t) = true.
Proof. unfold usable. intros Hu. apply andb_true_iff in Hu. exact Hu. Qed.

Lemma positive_truthy a : xltb (XFin 0) a = true -> xtruthy a = true.
Proof.
  destruct a as [q | s |]; simpl; try congruence.
  unfold Qltb, Qzero. intros Hq. apply negb_true_iff in Hq.
  apply negb_true_iff. apply not_true_is_false. intros Hz.
  apply Qeq_bool_iff in Hz. apply not_true_iff_false in Hq. apply Hq.
  apply Qle_bool_iff. rewrite Hz. apply Qle_refl.
Qed.

Lemma collectPrices_In (st : State) pair (p : PricePoint) :
  In p (collectPrices st pair) <->
  exists t, quoted st pair (pp_exchange p) t /\ pp_price p = tk_ask t.
Proof.
  unfold collectPrices, quoted. rewrite in_flat_map. split.
  - intros (e & He & Hp).
    destruct (tickers st !! tickerKey e pair) as [t |] eqn:Ht; [| destruct Hp].
    destruct (usable t) eqn:Hu; [| destruct Hp].
    destruct Hp as [<- | []]. simpl. eauto 6.
  - intros (t & (He & Ht & Hu) & Hp).
    exists (pp_exchange p). split; [exact He |].
    rewrite Ht, Hu. left. destruct p; simpl in *. now subst.
Qed.

Lemma collectPrices_ordered (st : State) pair :
  Forall (fun p : PricePoint => ordered (pp_price p)) (collectPrices st pair).
Proof.
  apply Forall_forall. intros p Hp. apply list_elem_of_In in Hp.
  apply collectPrices_In in Hp as (t & (_ & _ & Hu) & ->).
  apply positive_ordered. now apply usable_positive.
Qed.

Lemma flat_map_two {A B} (f : A -> list B) (l : list A) a b :
  a <> b -> In a l -> In b l -> f a <> [] -> f b <> [] ->
  (2 <= length (flat_map f l))%nat.
Proof.
  intros Hab Ha Hb Hfa Hfb.
  assert (Hone : forall c m, In c m -> f c <> [] ->
                             (1 <= length (flat_map f m))%nat).
  { intros c m. induction m as [| d m IH]; simpl; [tauto |].
    intros [-> | Hc] Hfc; rewrite length_app.
    - destruct (f c); [congruence | simpl; lia].
    - specialize (IH Hc Hfc). lia. }
  induction l as [| c l IH]; simpl in *; [tauto |].
  rewrite length_app.
  destruct Ha as [-> | Ha], Hb as [Hb | Hb]; subst; try congruence.
  - specialize (Hone b l Hb Hfb). destruct (f a); [congruence | simpl; lia].
  - specialize (Hone a l Ha Hfa). destruct (f b); [congruence | simpl; lia].
  - specialize (IH Ha Hb). lia.
Qed.

Lemma collectPrices_two (st : State) pair e1 e2 t1 t2 :
  e1 <> e2 -> quoted st pair e1 t1 -> quoted st pair e2 t2 ->
  (2 <= length (collectPrices st pair))%nat.
Proof.
  intros Hne (He1 & Ht1 & Hu1) (He2 & Ht2 & Hu2).
  unfold collectPrices.
  apply flat_map_two with (a := e1) (b := e2); auto.
  - now rewrite Ht1, Hu1.
  - now rewrite Ht2, Hu2.
Qed.

Lemma analyse_total (st : State) pair :
  (2 <= length (collectPrices st pair))%nat ->
  exists q, analyse takerFee st pair = Some q.
Proof.
  intros Hlen. unfold analyse.
  destruct (length (collectPrices st pair) <? 2)%nat eqn:Hlt.
  { apply Nat.ltb_lt in Hlt. lia. }
  set (sorted := sort _ _).
  assert (Hperm : Permutation sorted (collectPrices st pair))
    by apply sort_perm.
  apply Permutation_length in Hperm.
  destruct sorted as [| b rest] eqn:Hsorted; [simpl in Hperm; lia |].
  destruct (last (b :: rest)) as [s |] eqn:Hs.
  - simpl. eauto.
  - apply last_None in Hs. discriminate.
Qed.

(** C1 (as amended).  When two different enabled exchanges have usable
    tickers for the pair, a pass analyses the pair; the buy price it selects
    is the lowest ask among the usable enabled exchanges; the sell venue is
    an exchange with the highest ask among them, and the sell price is the bid
    cached for that venue. *)
Theorem analyse_buys_lowest_ask_sells_bid_of_highest_ask
    (st : State) (pair : string) (e1 e2 : ExchangeId) (t1 t2 : Ticker xnum) :
  e1 <> e2 -> quoted st pair e1 t1 -> quoted st pair e2 t2 ->
  exists q : Quote,
    analyse takerFee st pair = Some q
    /\ is_min_ask st pair (pp_price (q_bestBuy q))
    /\ exists ts : Ticker xnum,
         quoted st pair (pp_exchange (q_bestSell q)) ts
         /\ tk_ask ts = pp_price (q_bestSell q)
         /\ (forall e t, quoted st pair e t ->
                         xleb (tk_ask t) (tk_ask ts) = true)
         /\ q_sellPrice q = tk_bid ts.
Proof.
  intros Hne Hq1 Hq2.
  pose proof (collectPrices_two st pair e1 e2 t1 t2 Hne Hq1 Hq2) as Hlen.
  destruct (analyse_total st pair Hlen) as [q Hq]. exists q.
  split; [exact Hq |].
  apply (analyse_Some_inv takerFee) in Hq.
  destruct Hq as (_ & _ & Hhead & Hlast & Hsell & _).
  set (key := fun p : PricePoint => pp_price p) in *.
  set (sorted := sort _ _) in *.
  assert (Hperm : Permutation sorted (collectPrices st pair))
    by apply (sort_perm key).
  assert (Hvalid : Forall (fun p => ordered (key p)) sorted).
  { eapply Permutation_Forall; [symmetry; exact Hperm |].
    apply collectPrices_ordered. }
  assert (Hsorted : StronglySorted
                      (fun a b => xleb (key a) (key b) = true) sorted).
  { apply (sort_sorted key). apply collectPrices_ordered. }
  assert (Hin : forall p, In p sorted <-> In p (collectPrices st pair)).
  { intros p. split; apply Permutation_in;
      [exact Hperm | symmetry; exact Hperm]. }
  split.
  - (* the buy price *)
    assert (Hb : In (q_bestBuy q) sorted).
    { destruct sorted; [discriminate |]. injection Hhead as <-. now left. }
    apply Hin, collectPrices_In in Hb as (tb & Hqb & Hpb).
    split.
    + exists (pp_exchange (q_bestBuy q)), tb. now split.
    + intros e t Hqt.
      assert (Hp : In (mkPoint e (tk_ask t)) sorted).
      { apply Hin, collectPrices_In. exists t. now split. }
      apply (sorted_head_least key sorted _ Hvalid Hsorted Hhead) in Hp.
      exact Hp.
  - (* the sell venue and the sell price *)
    assert (Hs : In (q_bestSell q) sorted).
    { apply list_elem_of_In. eapply last_Some_elem_of. exact Hlast. }
    apply Hin, collectPrices_In in Hs as (ts & Hqs & Hps).
    exists ts. split; [exact Hqs |]. split; [now symmetry |]. split.
    + intros e t Hqt.
      assert (Hp : In (mkPoint e (tk_ask t)) sorted).
      { apply Hin, collectPrices_In. exists t. now split. }
      apply (sorted_last_greatest key sorted _ Hvalid Hsorted Hlast) in Hp.
      unfold key in Hp. simpl in Hp. now rewrite Hps in Hp.
    + destruct Hqs as (_ & Hts & Hu). rewrite Hsell, Hts.
      unfold num_or. simpl.
      now rewrite (positive_truthy _ (proj2 (usable_positive _ Hu))).
Qed.

End Exactly.

Lemma crossedBook_quoted :
  quoted crossedBook "BTC/USDT" bybit (quote bybit 99 100)
  /\ quoted crossedBook "BTC/USDT" okx (quote okx 90 101).
Proof. split; (split; [simpl; tauto | split; vm_compute; reflexivity]). Qed.

(** C1, the counterexample: with Bybit at 99/100 and OKX at 90/101, two
    enabled exchanges with usable tickers, the pass buys at 100, the lowest
    ask, and sells at 90, the bid of the exchange with the highest ask,
    although the highest bid among the two exchanges is 99; in exact
    arithmetic and in binary64 alike. *)
Lemma sell_price_is_not_the_highest_bid :
  (exists q : Engine.Quote xnum,
     analyse Wiring.configuredTakerFee crossedBook "BTC/USDT" = Some q
     /\ quoted crossedBook "BTC/USDT" bybit (quote bybit 99 100)
     /\ quoted crossedBook "BTC/USDT" okx (quote okx 90 101)
     /\ q_sellPrice q = XFin (inject_Z 90)
     /\ ~ is_max_bid crossedBook "BTC/USDT" (q_sellPrice q))
  /\ (exists q : Engine.Quote float,
        analyse Wiring.configuredTakerFee crossedBook64 "BTC/USDT" = Some q
        /\ quoted crossedBook64 "BTC/USDT" bybit (quote64 bybit 99 100)
        /\ q_sellPrice q = 90%float
        /\ ~ is_max_bid crossedBook64 "BTC/USDT" (q_sellPrice q)).
Proof.
  split.
  - destruct crossedBook_quoted as [Hb Ho].
    eexists. split; [vm_compute; reflexivity |].
    split; [exact Hb |]. split; [exact Ho |].
    split; [reflexivity |].
    intros [_ Hmax]. specialize (Hmax bybit _ Hb).
    vm_compute in Hmax. discriminate.
  - assert (Hb : quoted crossedBook64 "BTC/USDT" bybit (quote64 bybit 99 100)).
    { split; [simpl; tauto | split; vm_compute; reflexivity]. }
    eexists. split; [vm_compute; reflexivity |].
    split; [exact Hb |]. split; [reflexivity |].
    intros [_ Hmax]. specialize (Hmax bybit _ Hb).
    vm_compute in Hmax. discriminate.
Qed.

(** The theorem at the book above. *)
Lemma analyse_crossedBook_witness :
  exists q : Engine.Quote xnum,
    analyse Wiring.configuredTakerFee crossedBook "BTC/USDT" = Some q
    /\ is_min_ask crossedBook "BTC/USDT" (pp_price (q_bestBuy q))
    /\ exists ts : Ticker xnum,
         quoted crossedBook "BTC/USDT" (pp_exchange (q_bestSell q)) ts
         /\ tk_ask ts = pp_price (q_bestSell q)
         /\ (forall e t, quoted crossedBook "BTC/USDT" e t ->
                         xleb (tk_ask t) (tk_ask ts) = true)
         /\ q_sellPrice q = tk_bid ts.
Proof.
  apply (analyse_buys_lowest_ask_sells_bid_of_highest_ask
           Wiring.configuredTakerFee crossedBook "BTC/USDT" bybit okx
           (quote bybit 99 100) (quote okx 90 101)).
  - discriminate.
  - split; [simpl; tauto | split; vm_compute; reflexivity].
  - split; [simpl; tauto | split; vm_compute; reflexivity].
Defined.

End EngineFacts.


(** ** Symbol translation *)

Module StringFacts.
Import JSString.

Lemma append_cons (c : ascii) (s t : string) :
  String c s +:+ t = String c (s +:+ t).
Proof. reflexivity. Qed.

Lemma append_length (s t : string) :
  String.length (s +:+ t) = (String.length s + String.length t)%nat.
Proof.
  induction s as [| c s IH]; [reflexivity |].
  rewrite append_cons. simpl. now rewrite IH.
Qed.

Lemma append_assoc (s t u : string) : (s +:+ t) +:+ u = s +:+ (t +:+ u).
Proof.
  induction s as [| c s IH]; [reflexivity |].
  rewrite !append_cons. now rewrite IH.
Qed.

Lemma append_empty (s : string) : s +:+ "" = s.
Proof.
  induction s as [| c s IH]; [reflexivity |].
  rewrite append_cons. now rewrite IH.
Qed.

Lemma drop_append (s t : string) : drop (String.length s) (s +:+ t) = t.
Proof.
  induction s as [| c s IH]; [now destruct t |].
  rewrite append_cons. exact IH.
Qed.

Lemma take_append (s t : string) : take (String.length s) (s +:+ t) = s.
Proof.
  induction s as [| c s IH]; [now destruct t |].
  rewrite append_cons. simpl. now rewrite IH.
Qed.

Lemma drop_all (s : string) : drop (String.length s) s = "".
Proof. induction s as [| c s IH]; simpl; [reflexivity | exact IH]. Qed.

Lemma startsWith_append (s t : string) : startsWith (s +:+ t) s = true.
Proof.
  induction s as [| c s IH]; [now destruct t |].
  rewrite append_cons. simpl. now rewrite Ascii.eqb_refl.
Qed.

Lemma indexOf_unfold (s p : string) :
  indexOf s p =
  if startsWith s p then Some O
  else match s with
       | EmptyString => None
       | String _ s' => option_map S (indexOf s' p)
       end.
Proof. now destruct s. Qed.

Lemma replace_unfold (s p r : string) :
  replace s p r =
  if startsWith s p then r +:+ drop (String.length p) s
  else match s with
       | EmptyString => EmptyString
       | String c s' => String c (replace s' p r)
       end.
Proof. now destruct s. Qed.

(** [s.replace(p, r)] rewrites the text at [s.indexOf(p)]. *)
Lemma replace_indexOf (s p r : string) (n : nat) :
  indexOf s p = Some n ->
  replace s p r = take n s +:+ r +:+ drop (n + String.length p) s.
Proof.
  revert n. induction s as [| c s IH]; intros n;
    rewrite indexOf_unfold, replace_unfold;
    destruct (startsWith _ p) eqn:Hp.
  - intros [= <-]. reflexivity.
  - discriminate.
  - intros [= <-]. reflexivity.
  - destruct (indexOf s p) as [m |] eqn:Hm; [| discriminate].
    intros [= <-]. cbn [take Nat.add drop]. rewrite append_cons.
    now rewrite (IH m).
Qed.

(** A pattern that first occurs at the end of [b +:+ p] is cut off by
    [replace]. *)
Lemma replace_suffix (b p : string) :
  indexOf (b +:+ p) p = Some (String.length b) ->
  replace (b +:+ p) p "" = b.
Proof.
  intros Hi. rewrite (replace_indexOf _ _ _ _ Hi).
  rewrite take_append. simpl.
  rewrite <- append_length, drop_all. apply append_empty.
Qed.

(** The first separator of [b +:+ c +:+ rest] is the one after [b] when [b]
    has none. *)
Lemma replace_separator (b rest r : string) (c : ascii) :
  contains_char c b = false ->
  replace (b +:+ String c "" +:+ rest) (String c "") r = b +:+ r +:+ rest.
Proof.
  change (String c "" +:+ rest) with (String c rest).
  induction b as [| d b IH]; intros Hc.
  - change ("" +:+ String c rest) with (String c rest).
    change ("" +:+ r +:+ rest) with (r +:+ rest).
    simpl. rewrite Ascii.eqb_refl. now destruct rest.
  - simpl in Hc. apply orb_false_iff in Hc as [Hcd Hb].
    rewrite !append_cons. simpl. rewrite Hcd. now rewrite IH.
Qed.

Lemma endsWith_append (s p : string) : endsWith (s +:+ p) p = true.
Proof.
  unfold endsWith. rewrite append_length.
  replace (String.length s + String.length p - String.length p)%nat
    with (String.length s) by lia.
  rewrite drop_append, String.eqb_refl.
  apply andb_true_iff. split; [apply Nat.leb_le; lia | reflexivity].
Qed.

Lemma endsWith_append_other (s p p' : string) :
  String.length p' = String.length p -> p <> p' ->
  endsWith (s +:+ p) p' = false.
Proof.
  intros Hlen Hne. unfold endsWith. rewrite append_length, Hlen.
  replace (String.length s + String.length p - String.length p)%nat
    with (String.length s) by lia.
  rewrite drop_append. apply andb_false_iff. right.
  now apply String.eqb_neq.
Qed.

Lemma toUpperCase_append (s t : string) :
  toUpperCase (s +:+ t) = toUpperCase s +:+ toUpperCase t.
Proof.
  induction s as [| c s IH]; [reflexivity |].
  rewrite append_cons. simpl. rewrite append_cons. now rewrite IH.
Qed.

End StringFacts.

(** ** The keys of the cache and of the cooldown map

    Both keys are built with hyphens; no exchange identifier holds one, so
    different exchanges and pairs never share a key. *)

Module KeyFacts.
Import JSString StringFacts Engine.

Lemma splitFirst_append (c : ascii) (a b : string) :
  contains_char c a = false ->
  splitFirst c (a +:+ String c b) = Some (a, b).
Proof.
  induction a as [| d a IH]; intros Hc.
  - change ("" +:+ String c b) with (String c b). simpl.
    now rewrite Ascii.eqb_refl.
  - simpl in Hc. apply orb_false_iff in Hc as [Hcd Ha].
    rewrite append_cons. simpl. rewrite Hcd. now rewrite IH.
Qed.

Lemma splitLast_none (c : ascii) (b : string) :
  contains_char c b = false -> splitLast c b = None.
Proof.
  induction b as [| d b IH]; simpl; intros Hc; [reflexivity |].
  apply orb_false_iff in Hc as [Hcd Hb]. now rewrite IH, Hcd.
Qed.

Lemma splitLast_append (c : ascii) (a b : string) :
  contains_char c b = false ->
  splitLast c (a +:+ String c b) = Some (a, b).
Proof.
  intros Hc. induction a as [| d a IH].
  - change ("" +:+ String c b) with (String c b). simpl.
    now rewrite splitLast_none, Ascii.eqb_refl.
  - rewrite append_cons. simpl. now rewrite IH.
Qed.

Lemma exchange_name_inj (e e' : ExchangeId) :
  exchange_name e = exchange_name e' -> e = e'.
Proof. destruct e, e'; simpl; intros Heq; try reflexivity; discriminate. Qed.

Lemma exchange_name_no_hyphen (e : ExchangeId) :
  contains_char "-" (exchange_name e) = false.
Proof. now destruct e. Qed.

Lemma dash_split (a b : string) : dash a b = a +:+ String "-" b.
Proof. reflexivity. Qed.

(** The key of the ticker cache determines the exchange and the pair. *)
Lemma tickerKey_inj (e e' : ExchangeId) (pair pair' : string) :
  tickerKey e pair = tickerKey e' pair' -> e = e' /\ pair = pair'.
Proof.
  unfold tickerKey. rewrite !dash_split. intros Heq.
  pose proof (splitFirst_append "-" (exchange_name e) pair
                (exchange_name_no_hyphen e)) as H1.
  pose proof (splitFirst_append "-" (exchange_name e') pair'
                (exchange_name_no_hyphen e')) as H2.
  rewrite Heq, H2 in H1. injection H1 as Hn Hp.
  split; [now apply exchange_name_inj | now symmetry].
Qed.

(** The key of the cooldown map determines the pair, the buy exchange and
    the sell exchange. *)
Lemma opportunityKey_inj (pair pair' : string) (b b' s s' : ExchangeId) :
  opportunityKey pair b s = opportunityKey pair' b' s' ->
  pair = pair' /\ b = b' /\ s = s'.
Proof.
  unfold opportunityKey. rewrite !dash_split. intros Heq.
  pose proof (splitLast_append "-" (pair +:+ String "-" (exchange_name b))
                (exchange_name s) (exchange_name_no_hyphen s)) as H1.
  pose proof (splitLast_append "-" (pair' +:+ String "-" (exchange_name b'))
                (exchange_name s') (exchange_name_no_hyphen s')) as H2.
  rewrite Heq, H2 in H1. injection H1 as Hinner Hs.
  pose proof (splitLast_append "-" pair (exchange_name b)
                (exchange_name_no_hyphen b)) as H3.
  pose proof (splitLast_append "-" pair' (exchange_name b')
                (exchange_name_no_hyphen b')) as H4.
  rewrite <- Hinner, H4 in H3. injection H3 as Hp Hb.
  repeat split; [now symmetry | | ]; symmetry; now apply exchange_name_inj.
Qed.

End KeyFacts.

Module SymbolFacts.
Import JSString Symbols StringFacts.

Section RoundTrip.
Variables (base quote : string).
Hypothesis quote_known : quote = "USDT" \/ quote = "USDC".
Hypothesis no_slash : contains_char "/" base = false.

Lemma format_plain_pair : format_plain (base +:+ "/" +:+ quote) = base +:+ quote.
Proof. unfold format_plain. now rewrite replace_separator. Qed.

Lemma parse_plain_pair :
  indexOf (base +:+ quote) quote = Some (String.length base) ->
  parse_plain (base +:+ quote) = base +:+ "/" +:+ quote.
Proof.
  intros Hfirst. unfold parse_plain.
  destruct quote_known as [-> | ->].
  - rewrite endsWith_append, replace_suffix by exact Hfirst. reflexivity.
  - rewrite (endsWith_append_other base "USDC" "USDT") by (reflexivity || discriminate).
    rewrite endsWith_append, replace_suffix by exact Hfirst. reflexivity.
Qed.

Lemma hyphen_pair :
  contains_char "-" base = false ->
  parse_hyphen (format_hyphen (base +:+ "/" +:+ quote)) = base +:+ "/" +:+ quote.
Proof.
  intros Hh. unfold parse_hyphen, format_hyphen.
  rewrite replace_separator by exact no_slash.
  now rewrite replace_separator.
Qed.

Lemma gateio_pair :
  contains_char "_" base = false ->
  parse_gateio (format_gateio (base +:+ "/" +:+ quote)) = base +:+ "/" +:+ quote.
Proof.
  intros Hu. unfold parse_gateio, format_gateio, symbolMapping, reverseMapping.
  cbn [fold_left].
  rewrite replace_separator by exact no_slash.
  now rewrite replace_separator.
Qed.

Lemma mexc_pair :
  toUpperCase base = base ->
  format_mexc (base +:+ "/" +:+ quote) = base +:+ quote.
Proof.
  intros Hup. unfold format_mexc. rewrite replace_separator by exact no_slash.
  cbn [String.append]. rewrite toUpperCase_append, Hup.
  now destruct quote_known as [-> | ->].
Qed.

(** C9 (as amended).  For a pair [BASE/QUOTE] with [QUOTE] one of USDT and
    USDC, where [BASE] holds no separator character ([/], [-], [_]), is left
    unchanged by [toUpperCase], and is such that [QUOTE] first occurs in
    [BASE ++ QUOTE] at its end, every adapter maps the exchange symbol of the
    pair back to the pair. *)
Theorem parseSymbol_formatSymbol (e : ExchangeId) :
  contains_char "-" base = false ->
  contains_char "_" base = false ->
  toUpperCase base = base ->
  indexOf (base +:+ quote) quote = Some (String.length base) ->
  parseSymbol e (formatSymbol e (base +:+ "/" +:+ quote))
  = base +:+ "/" +:+ quote.
Proof.
  intros Hh Hu Hup Hfirst.
  destruct e; cbn [parseSymbol formatSymbol];
    first [ rewrite format_plain_pair; now apply parse_plain_pair
          | now apply hyphen_pair
          | now apply gateio_pair
          | rewrite mexc_pair by exact Hup; now apply parse_plain_pair ].
Qed.

End RoundTrip.

(** The theorem at [BTC/USDT] on MEXC and at [ETH/USDC] on Bybit. *)
Lemma parseSymbol_formatSymbol_witness :
  parseSymbol mexc (formatSymbol mexc "BTC/USDT") = "BTC/USDT"
  /\ parseSymbol bybit (formatSymbol bybit "ETH/USDC") = "ETH/USDC".
Proof.
  split.
  - apply (parseSymbol_formatSymbol "BTC" "USDT"); try reflexivity.
    now left.
  - apply (parseSymbol_formatSymbol "ETH" "USDC"); try reflexivity.
    now right.
Defined.

(** C9, the counterexamples.  [USDTX/USDT] and [btc/USDT] have a non-empty
    base without a separator that does not end in USDT or USDC; Bybit maps
    the first back to [XUSDT/USDT] ([replace] removes the first [USDT], not
    the last) and MEXC maps the second back to [BTC/USDT]. *)
Lemma symbol_round_trip_fails :
  (endsWith "USDTX" "USDT" = false /\ endsWith "USDTX" "USDC" = false
   /\ parseSymbol bybit (formatSymbol bybit "USDTX/USDT") = "XUSDT/USDT"
   /\ parseSymbol bybit (formatSymbol bybit "USDTX/USDT") <> "USDTX/USDT")
  /\ (endsWith "btc" "USDT" = false /\ endsWith "btc" "USDC" = false
      /\ parseSymbol mexc (formatSymbol mexc "btc/USDT") = "BTC/USDT"
      /\ parseSymbol mexc (formatSymbol mexc "btc/USDT") <> "btc/USDT").
Proof. repeat split; try reflexivity; vm_compute; discriminate. Qed.

End SymbolFacts.


(** ** Adapters that skip a frame without a positive price *)

Module AdapterFacts.
Import Json Adapters.

Section WithNumbers.
Context {num : Type} `{JSNumber num}.

Lemma bind_emitted {E A B} (m : Run E A) (f : A -> Run E B) :
  fst m = [] ->
  (forall a, snd m = Some a -> fst (f a) = []) ->
  fst (bind m f) = [].
Proof.
  destruct m as [es [a |]]; simpl; intros -> Hf; [| reflexivity].
  specialize (Hf a eq_refl). destruct (f a) as [es' r]. simpl in *. now subst.
Qed.

Lemma field_emitted (d : json num) k : fst (field d k) = [].
Proof. unfold field, lift. now destruct (get d k). Qed.

Lemma floatOr0_emitted (d : json num) k : fst (floatOr0 d k) = [].
Proof.
  unfold floatOr0. apply bind_emitted; [apply field_emitted | reflexivity].
Qed.

Lemma floatOr0_value (d : json num) k v :
  snd (floatOr0 d k) = Some v ->
  exists j, get d k = Some j /\ v = num_or (parseFloat j) zero.
Proof.
  unfold floatOr0, field, lift, bind. destruct (get d k) as [j |]; simpl.
  - intros [= <-]. eauto.
  - discriminate.
Qed.

Lemma parseSymbolOf_emitted e (v : json num) : fst (parseSymbolOf e v) = [].
Proof. unfold parseSymbolOf. now destruct v. Qed.

(** BingX: no ticker unless the last price is positive. *)
Lemma bingx_skips_nonpositive now (data : json num) c :
  get data "c" = Some c ->
  num_leb (num_or (parseFloat c) zero) zero = true ->
  fst (bingx_handleTicker now data) = [].
Proof.
  intros Hc Hle. unfold bingx_handleTicker.
  apply bind_emitted; [apply field_emitted |]. intros s _.
  apply bind_emitted; [apply field_emitted |]. intros c' Hc'.
  unfold field, lift in Hc'. rewrite Hc in Hc'. injection Hc' as <-.
  destruct (negb (truthy s) || negb (truthy c)); [reflexivity |].
  now rewrite Hle.
Qed.

(** CoinEx: the same, for each entry of the state list. *)
Lemma coinex_skips_nonpositive now (state : json num) last :
  get state "last" = Some last ->
  num_leb (num_or (parseFloat last) zero) zero = true ->
  fst (coinex_handleState now state) = [].
Proof.
  intros Hl Hle. unfold coinex_handleState.
  apply bind_emitted; [apply floatOr0_emitted |]. intros v Hv.
  apply floatOr0_value in Hv as (j & Hj & ->).
  rewrite Hl in Hj. injection Hj as <-. now rewrite Hle.
Qed.

(** MEXC and KuCoin: a ticker of a snapshot is skipped unless both its bid
    and its ask are positive. *)
Lemma poll_item_skips_nonpositive e kBid kAsk kLast kVol kChange scale now
    symbols (item : json num) bid ask :
  get item kBid = Some bid -> get item kAsk = Some ask ->
  num_ltb zero (num_or (parseFloat bid) zero)
  && num_ltb zero (num_or (parseFloat ask) zero) = false ->
  fst (poll_item e kBid kAsk kLast kVol kChange scale now symbols item) = [].
Proof.
  intros Hb Ha Hpos. unfold poll_item.
  apply bind_emitted; [apply field_emitted |]. intros symbol _.
  destruct symbol; try reflexivity.
  destruct (negb _); [reflexivity |].
  apply bind_emitted; [apply floatOr0_emitted |]. intros vb Hvb.
  apply floatOr0_value in Hvb as (jb & Hjb & ->).
  apply bind_emitted; [apply floatOr0_emitted |]. intros va Hva.
  apply floatOr0_value in Hva as (ja & Hja & ->).
  apply bind_emitted; [apply floatOr0_emitted |]. intros vl _.
  apply bind_emitted; [apply floatOr0_emitted |]. intros vv _.
  apply bind_emitted; [apply field_emitted |]. intros ch _.
  rewrite Hb in Hjb. rewrite Ha in Hja. injection Hjb as <-.
  injection Hja as <-. now rewrite Hpos.
Qed.

(** Bitget emits a ticker for every ticker frame with a string symbol and a
    data object, whatever its price fields hold. *)
Lemma bitget_always_emits now (instId : string) (d : json num) :
  get d "bidPr" <> None ->
  exists t, fst (bitget_handleTicker now (JStr instId) d) = [EmitTicker t]
            /\ tk_bid t = num_or (parseFloat (get_opt d "bidPr")) zero
            /\ tk_ask t = num_or (parseFloat (get_opt d "askPr")) zero.
Proof.
  intros Hd. unfold bitget_handleTicker, floatOr0, field, lift, get_opt.
  assert (Hall : forall k, exists j, get d k = Some j).
  { intros k. destruct d; simpl in *; try congruence; eauto. }
  destruct (Hall "bidPr") as [b ->], (Hall "askPr") as [a ->],
    (Hall "lastPr") as [l ->], (Hall "baseVolume") as [v ->],
    (Hall "change24h") as [c ->].
  simpl. eexists. split; [reflexivity |]. split; reflexivity.
Qed.

End WithNumbers.
End AdapterFacts.


(** ** The connector lifecycle *)

Module ConnectorFacts.
Import Json Adapters Connector.

Section WithNumbers.
Context {num : Type} `{JSNumber num}.
Variable JSON_parse : string -> option (json num).
Variable gunzipSync : string -> option string.
Variable inflateSync : string -> option string.

Abbreviation World := (Connector.World num).
Abbreviation step := (Connector.step JSON_parse gunzipSync inflateSync).
Abbreviation reachable := (Connector.reachable JSON_parse gunzipSync inflateSync).
Abbreviation on_message := (Connector.on_message JSON_parse gunzipSync inflateSync).

Lemma clock_publish p (w : World) : clock (publish p w) = clock w.
Proof. reflexivity. Qed.
Lemma clock_write i f (w : World) : clock (write i f w) = clock w.
Proof. reflexivity. Qed.
Lemma clock_set_sockets v (w : World) : clock (set_sockets v w) = clock w.
Proof. reflexivity. Qed.
Lemma clock_set_fetches v (w : World) : clock (set_fetches v w) = clock w.
Proof. reflexivity. Qed.
Lemma clock_set_ws v (w : World) : clock (on_self (set_ws v) w) = clock w.
Proof. reflexivity. Qed.
Lemma clock_set_isConnected v (w : World) :
  clock (on_self (set_isConnected v) w) = clock w.
Proof. reflexivity. Qed.
Lemma clock_set_isPolling v (w : World) :
  clock (on_self (set_isPolling v) w) = clock w.
Proof. reflexivity. Qed.
Lemma clock_set_subscribedPairs f (w : World) :
  clock (on_self (fun x => set_subscribedPairs (f x) x) w) = clock w.
Proof. reflexivity. Qed.
Lemma clock_set_messageId f (w : World) :
  clock (on_self (fun x => set_messageId (f x) x) w) = clock w.
Proof. reflexivity. Qed.
Lemma clock_emitStatus e now st msg (w : World) :
  clock (emitStatus e now st msg w) = clock w.
Proof. reflexivity. Qed.
Lemma clock_setSocket i s (w : World) : clock (setSocket i s w) = clock w.
Proof. reflexivity. Qed.
Lemma clock_fetchAllTickers (w : World) : clock (fetchAllTickers w) = clock w.
Proof. reflexivity. Qed.

Lemma clock_fold {A} (f : World -> A -> World) (l : list A) (w : World) :
  (forall w x, clock (f w x) = clock w) ->
  clock (fold_left f l w) = clock w.
Proof.
  intros Hf. revert w. induction l as [| x l IH]; intros w; simpl.
  - reflexivity.
  - now rewrite IH, Hf.
Qed.

Lemma clock_send p (w : World) : clock (send p w) = clock w.
Proof. unfold send. now destruct (openSocket w). Qed.

Lemma clock_sendAll ps (w : World) : clock (sendAll ps w) = clock w.
Proof. unfold sendAll. apply clock_fold. intros. apply clock_send. Qed.

Lemma clock_bumpMessageId e (w : World) : clock (bumpMessageId e w) = clock w.
Proof. now destruct e. Qed.

Lemma clock_sendSubscribe e now pairs (w : World) :
  clock (sendSubscribe e now pairs w) = clock w.
Proof. unfold sendSubscribe. now rewrite clock_bumpMessageId, clock_sendAll. Qed.

Lemma clock_sendUnsubscribe e now pairs (w : World) :
  clock (sendUnsubscribe e now pairs w) = clock w.
Proof.
  unfold sendUnsubscribe. now rewrite clock_bumpMessageId, clock_sendAll.
Qed.

Lemma clock_sendPing e now (w : World) : clock (sendPing e now w) = clock w.
Proof.
  unfold sendPing. destruct e;
    rewrite ?clock_bumpMessageId, ?clock_send; try reflexivity;
    repeat case_if; rewrite ?clock_send; try reflexivity.
  destruct (openSocket w); reflexivity.
Qed.

Lemma clock_onConnected e now (w : World) :
  clock (onConnected e now w) = clock w.
Proof.
  unfold onConnected. destruct e; try reflexivity;
    repeat case_if; rewrite ?clock_sendSubscribe; reflexivity.
Qed.

Lemma clock_closeSocket i (w : World) : clock (closeSocket i w) = clock w.
Proof.
  unfold closeSocket. destruct (sockets w !! i) as [[] |]; reflexivity.
Qed.

Lemma clock_runHandler h (w : World) : clock (runHandler h w) = clock w.
Proof.
  unfold runHandler. apply clock_fold. intros w' [t | o]; reflexivity.
Qed.

Lemma clock_on_message e now data (w : World) :
  clock (on_message e now data w) = clock w.
Proof.
  unfold Connector.on_message.
  destruct (decode _ _ data) as [s |]; [| reflexivity].
  destruct (String.eqb s ""); [reflexivity |].
  destruct (JSON_parse s); [| reflexivity].
  rewrite clock_runHandler. now destruct e.
Qed.

Lemma clock_on_fetched e now r (w : World) :
  clock (on_fetched e now r w) = clock w.
Proof.
  unfold on_fetched. destruct e; try reflexivity; apply clock_runHandler.
Qed.

Lemma clock_on_error e now msg (w : World) :
  clock (on_error e now msg w) = clock w.
Proof. reflexivity. Qed.

Lemma clock_subscribe e now pairs (w : World) :
  clock (subscribe e now pairs w) = clock w.
Proof.
  unfold subscribe. case_if; rewrite ?clock_sendSubscribe; reflexivity.
Qed.

Lemma clock_unsubscribe e now pairs (w : World) :
  clock (unsubscribe e now pairs w) = clock w.
Proof.
  unfold unsubscribe. case_if; rewrite ?clock_sendUnsubscribe; reflexivity.
Qed.

Lemma in_without id x k (ts : list (nat * TimerKind)) :
  In (x, k) (without id ts) <-> In (x, k) ts /\ x <> id.
Proof.
  unfold without. rewrite filter_In. simpl.
  rewrite negb_true_iff, Nat.eqb_neq. tauto.
Qed.

Lemma NoDup_without id (ts : list (nat * TimerKind)) :
  NoDup (map fst ts) -> NoDup (map fst (without id ts)).
Proof.
  induction ts as [| [x k] ts IH]; simpl; intros Hnd.
  - constructor.
  - apply NoDup_cons in Hnd as [Hx Hnd].
    destruct (negb (x =? id)%nat); simpl; [| now apply IH].
    apply NoDup_cons. split; [| now apply IH].
    rewrite list_elem_of_In in *. rewrite in_map_iff in *.
    intros ([y k'] & Hy & Hin). simpl in Hy. subst y.
    apply in_without in Hin as [Hin _].
    apply Hx. exists (x, k'). now split.
Qed.

Lemma NoDup_arm (ts : list (nat * TimerKind)) n k :
  (forall id k', In (id, k') ts -> (id < n)%nat) ->
  NoDup (map fst ts) -> NoDup (map fst (ts ++ [(n, k)])).
Proof.
  intros Hfresh Hnd. rewrite map_app. simpl.
  apply NoDup_app. split; [exact Hnd |]. split.
  - intros x Hx Hn. apply list_elem_of_In in Hn as [<- | []].
    apply list_elem_of_In, in_map_iff in Hx as ([y k'] & Hy & Hin).
    simpl in Hy. subst y. apply Hfresh in Hin. lia.
  - apply NoDup_singleton.
Qed.

Lemma same_handle (ts : list (nat * TimerKind)) x k1 k2 :
  NoDup (map fst ts) -> In (x, k1) ts -> In (x, k2) ts -> k1 = k2.
Proof.
  induction ts as [| [y k] ts IH]; simpl; intros Hnd H1 H2; [tauto |].
  apply NoDup_cons in Hnd as [Hy Hnd].
  assert (Hout : forall k', In (y, k') ts -> False).
  { intros k' Hin. apply Hy, list_elem_of_In, in_map_iff.
    exists (y, k'). now split. }
  destruct H1 as [E1 | H1], H2 as [E2 | H2].
  - congruence.
  - injection E1 as -> ->. exfalso. eapply Hout. exact H2.
  - injection E2 as -> ->. exfalso. eapply Hout. exact H1.
  - now apply IH.
Qed.

(** Arming a timer of kind [k] and remembering its handle. *)
Lemma clock_ok_arm ts n r p q k :
  clock_ok (ts, n, r, p, q) ->
  (k = ReconnectTimer -> r = None) ->
  clock_ok (ts ++ [(n, k)], S n,
            if bool_decide (k = ReconnectTimer) then Some n else r,
            if bool_decide (k = PingTimer) then Some n else p,
            if bool_decide (k = PollTimer) then Some n else q).
Proof.
  intros (Hfresh & Hnd & Hr & Hp & Hq) Hnone.
  assert (Hin : forall id k', In (id, k') (ts ++ [(n, k)]) <->
                              In (id, k') ts \/ (id = n /\ k' = k)).
  { intros id k'. rewrite in_app_iff. simpl. split.
    - intros [? | [[= -> ->] | []]]; auto.
    - intros [? | [-> ->]]; auto. }
  repeat split.
  - intros id k' Hi. apply Hin in Hi as [Hi | [-> _]]; [| lia].
    apply Hfresh in Hi. lia.
  - now apply NoDup_arm.
  - intros Hid. apply Hin. case_bool_decide as Hk.
    + injection Hid as <-. now right.
    + left. now apply Hr.
  - intros Hi. apply Hin in Hi as [Hi | [-> <-]].
    + case_bool_decide as Hk.
      * rewrite (Hnone Hk) in Hr. apply Hr in Hi. discriminate.
      * now apply Hr.
    + now rewrite bool_decide_eq_true_2.
  - intros id Hid. apply Hin. case_bool_decide as Hk.
    + injection Hid as <-. now right.
    + left. now apply Hp.
  - intros id Hid. apply Hin. case_bool_decide as Hk.
    + injection Hid as <-. now right.
    + left. now apply Hq.
Qed.

(** Disarming the timer a field remembers, and forgetting it. *)
Lemma clock_ok_clear ts n r p q k id :
  clock_ok (ts, n, r, p, q) ->
  In (id, k) ts ->
  clock_ok (without id ts, n,
            if bool_decide (k = ReconnectTimer) then None else r,
            if bool_decide (k = PingTimer) then None else p,
            if bool_decide (k = PollTimer) then None else q).
Proof.
  intros (Hfresh & Hnd & Hr & Hp & Hq) Hid.
  assert (Hother : forall x k', In (x, k') ts -> k' <> k -> x <> id).
  { intros x k' Hx Hk ->. apply Hk. eapply same_handle; eauto. }
  repeat split.
  - intros x k' Hx. apply in_without in Hx as [Hx _]. eauto.
  - now apply NoDup_without.
  - case_bool_decide as Hk; [discriminate |].
    intros Hx. apply in_without. apply Hr in Hx. split; [exact Hx |].
    eapply Hother; eauto.
  - intros Hx. apply in_without in Hx as [Hx Hne].
    case_bool_decide as Hk.
    + subst k. apply Hr in Hx. apply Hr in Hid. congruence.
    + now apply Hr.
  - intros x Hx. case_bool_decide as Hk; [discriminate |].
    apply in_without. split; [now apply Hp |].
    eapply Hother; [now apply Hp | congruence].
  - intros x Hx. case_bool_decide as Hk; [discriminate |].
    apply in_without. split; [now apply Hq |].
    eapply Hother; [now apply Hq | congruence].
Qed.

Lemma timers_ok_same (w w' : World) :
  clock w' = clock w -> timers_ok w -> timers_ok w'.
Proof. unfold timers_ok. now intros ->. Qed.

Lemma timers_ok_initial : timers_ok (initial : World).
Proof.
  unfold timers_ok, clock_ok. simpl. repeat split; try discriminate; try tauto.
  constructor.
Qed.

Lemma timers_ok_startPing (w : World) : timers_ok w -> timers_ok (startPing w).
Proof.
  intros Hok.
  exact (clock_ok_arm _ _ _ _ _ PingTimer Hok ltac:(discriminate)).
Qed.

Lemma timers_ok_stopPing (w : World) : timers_ok w -> timers_ok (stopPing w).
Proof.
  intros Hok. unfold stopPing.
  destruct (pingInterval (self w)) as [id |] eqn:Hp; [| exact Hok].
  assert (Hin : In (id, PingTimer) (timers w)).
  { destruct Hok as (_ & _ & _ & Hping & _). now apply Hping. }
  pose proof (clock_ok_clear _ _ _ _ _ PingTimer id Hok Hin) as Hc.
  exact Hc.
Qed.

Lemma timers_ok_scheduleReconnect (w : World) :
  timers_ok w -> timers_ok (scheduleReconnect w).
Proof.
  intros Hok. unfold scheduleReconnect.
  destruct (reconnectTimeout (self w)) as [id |] eqn:Hr; [exact Hok |].
  pose proof (clock_ok_arm _ _ _ _ _ ReconnectTimer Hok (fun _ => Hr)) as Hc.
  exact Hc.
Qed.

Lemma timers_ok_startPolling e now (w : World) :
  timers_ok w -> timers_ok (startPolling e now w).
Proof.
  intros Hok. unfold startPolling.
  destruct (isPolling (self w)); [exact Hok |].
  exact (clock_ok_arm _ _ _ _ _ PollTimer Hok ltac:(discriminate)).
Qed.

Lemma timers_ok_stopPolling (w : World) :
  timers_ok w -> timers_ok (stopPolling w).
Proof.
  intros Hok. unfold stopPolling.
  destruct (pollingInterval (self w)) as [id |] eqn:Hq.
  - assert (Hin : In (id, PollTimer) (timers w)).
    { destruct Hok as (_ & _ & _ & _ & Hpoll). now apply Hpoll. }
    exact (clock_ok_clear _ _ _ _ _ PollTimer id Hok Hin).
  - exact Hok.
Qed.

Lemma timers_ok_clearReconnect (w : World) id :
  timers_ok w -> In (id, ReconnectTimer) (timers w) ->
  timers_ok (on_self (set_reconnectTimeout None) (clearTimer id w)).
Proof.
  intros Hok Hin.
  exact (clock_ok_clear _ _ _ _ _ ReconnectTimer id Hok Hin).
Qed.

Lemma timers_ok_base_connect e now throws (w : World) :
  timers_ok w -> timers_ok (base_connect e now throws w).
Proof.
  intros Hok. unfold base_connect.
  destruct (openSocket w); [exact Hok |].
  destruct throws.
  - now apply timers_ok_scheduleReconnect.
  - exact Hok.
Qed.

Lemma timers_ok_connect e now throws (w : World) :
  timers_ok w -> timers_ok (connect e now throws w).
Proof.
  intros Hok. unfold connect, polling_connect.
  destruct e;
    first [ now apply timers_ok_base_connect
          | now apply timers_ok_startPolling ].
Qed.

Lemma timers_ok_base_disconnect (w : World) :
  timers_ok w -> timers_ok (base_disconnect w).
Proof.
  intros Hok. unfold base_disconnect.
  set (w1 := match reconnectTimeout (self w) with
             | Some id => on_self (set_reconnectTimeout None) (clearTimer id w)
             | None => w
             end).
  assert (Hok1 : timers_ok w1).
  { subst w1. destruct (reconnectTimeout (self w)) as [id |] eqn:Hr;
      [| exact Hok].
    apply timers_ok_clearReconnect; [exact Hok |].
    destruct Hok as (_ & _ & Hrec & _). now apply Hrec. }
  apply timers_ok_stopPing in Hok1.
  set (w2 := stopPing w1) in *.
  eapply timers_ok_same; [| exact Hok1].
  rewrite clock_set_isConnected.
  destruct (ws (self w2)); [| reflexivity].
  now rewrite clock_set_ws, clock_closeSocket.
Qed.

Lemma timers_ok_disconnect e (w : World) :
  timers_ok w -> timers_ok (disconnect e w).
Proof.
  intros Hok. unfold disconnect.
  destruct e; apply timers_ok_base_disconnect;
    first [exact Hok | now apply timers_ok_stopPolling].
Qed.

Lemma timers_ok_on_open e now (w : World) :
  timers_ok w -> timers_ok (on_open e now w).
Proof.
  intros Hok. unfold on_open. apply timers_ok_startPing.
  eapply timers_ok_same; [| exact Hok].
  now rewrite clock_onConnected.
Qed.

Lemma timers_ok_on_close e now (w : World) :
  timers_ok w -> timers_ok (on_close e now w).
Proof.
  intros Hok. unfold on_close.
  now apply timers_ok_scheduleReconnect, timers_ok_stopPing.
Qed.

Lemma timerKind_armed id k (w : World) :
  timerKind id w = Some k -> In (id, k) (timers w).
Proof.
  unfold timerKind. destruct (find _ _) as [[x k'] |] eqn:Hf; [| discriminate].
  intros [= <-]. apply find_some in Hf as [Hin Hx]. simpl in Hx.
  apply Nat.eqb_eq in Hx. now subst x.
Qed.

Lemma armed_timerKind id k (w : World) :
  timers_ok w -> In (id, k) (timers w) -> timerKind id w = Some k.
Proof.
  intros Hok Hin. destruct (timerKind id w) as [k' |] eqn:Hk.
  - apply timerKind_armed in Hk. f_equal.
    unfold timers_ok, clock, clock_ok in Hok. destruct Hok as (_ & Hnd & _).
    exact (same_handle (timers w) id k' k Hnd Hk Hin).
  - unfold timerKind in Hk.
    destruct (find _ (timers w)) eqn:Hf; [discriminate |].
    apply (find_none _ _ Hf) in Hin. simpl in Hin.
    rewrite Nat.eqb_refl in Hin. discriminate.
Qed.

(** Every input keeps the timers in order. *)
Lemma timers_ok_step e now inp (w w' : World) :
  step e now inp w = Some w' -> timers_ok w -> timers_ok w'.
Proof.
  intros Hstep Hok.
  destruct inp as [throws | | pairs | pairs | i | i data | i msg | i
                  | id throws | r]; simpl in Hstep.
  - injection Hstep as <-. now apply timers_ok_connect.
  - injection Hstep as <-. now apply timers_ok_disconnect.
  - injection Hstep as <-.
    eapply timers_ok_same; [apply clock_subscribe | exact Hok].
  - injection Hstep as <-.
    eapply timers_ok_same; [apply clock_unsubscribe | exact Hok].
  - destruct (sockets w !! i) as [[] |]; try discriminate.
    injection Hstep as <-. now apply timers_ok_on_open.
  - destruct (sockets w !! i) as [[] |]; try discriminate;
      injection Hstep as <-;
      (eapply timers_ok_same; [apply clock_on_message | exact Hok]).
  - destruct (sockets w !! i) as [[] |]; try discriminate;
      injection Hstep as <-; exact Hok.
  - destruct (sockets w !! i) as [[] |]; try discriminate;
      injection Hstep as <-; now apply timers_ok_on_close.
  - destruct (timerKind id w) as [[] |] eqn:Hk; try discriminate;
      injection Hstep as <-.
    + apply timers_ok_connect, timers_ok_clearReconnect; [exact Hok |].
      now apply timerKind_armed.
    + eapply timers_ok_same; [apply clock_sendPing | exact Hok].
    + exact Hok.
  - destruct (fetches w); [discriminate |]. injection Hstep as <-.
    eapply timers_ok_same; [apply clock_on_fetched | exact Hok].
Qed.

Lemma timers_ok_reachable e (w : World) : reachable e w -> timers_ok w.
Proof.
  induction 1 as [| w now inp w' _ IH Hstep].
  - exact timers_ok_initial.
  - eapply timers_ok_step; eauto.
Qed.

Lemma run_reachable e trace (w w' : World) :
  reachable e w -> Connector.run JSON_parse gunzipSync inflateSync e trace w
                   = Some w' ->
  reachable e w'.
Proof.
  revert w. induction trace as [| [now inp] rest IH]; intros w Hw; simpl.
  - now intros [= <-].
  - destruct (step e now inp w) as [w1 |] eqn:Hstep; [| discriminate].
    apply IH. econstructor; eauto.
Qed.

(** With the timers in order, the armed reconnect timers are the one
    [reconnectTimeout] holds, if any. *)
Lemma reconnectTimers_ok (w : World) :
  timers_ok w ->
  reconnectTimers w = match reconnectTimeout (self w) with
                      | Some id => [id]
                      | None => []
                      end.
Proof.
  intros (_ & Hnd & Hrec & _). unfold reconnectTimers, armed.
  set (l := map fst (List.filter
                       (fun t => bool_decide (snd t = ReconnectTimer))
                       (timers w))).
  assert (Hmem : forall id,
            In id (map fst (List.filter
                              (fun t => bool_decide (snd t = ReconnectTimer))
                              (timers w)))
            <-> reconnectTimeout (self w) = Some id).
  { intros id. rewrite Hrec, in_map_iff. split.
    - intros ([x k] & Hx & Hin). simpl in Hx. subst x.
      apply filter_In in Hin as [Hin Hk]. simpl in Hk.
      apply bool_decide_eq_true in Hk. now subst k.
    - intros Hin. exists (id, ReconnectTimer). split; [reflexivity |].
      apply filter_In. split; [exact Hin |]. now apply bool_decide_eq_true. }
  assert (Hnd' : NoDup (map fst (List.filter
                              (fun t => bool_decide (snd t = ReconnectTimer))
                              (timers w)))).
  { clear Hmem Hrec. induction (timers w) as [| [x k] ts IH]; simpl in *.
    - constructor.
    - apply NoDup_cons in Hnd as [Hx Hnd].
      destruct (bool_decide (k = ReconnectTimer)); simpl; [| now apply IH].
      apply NoDup_cons. split; [| now apply IH].
      intros Hin. apply Hx. apply list_elem_of_In in Hin.
      apply list_elem_of_In. apply in_map_iff in Hin as (t & Ht & Hin).
      apply filter_In in Hin as [Hin _]. apply in_map_iff. eauto. }
  fold l in Hmem, Hnd'. clearbody l.
  destruct l as [| a [| b rest]].
  - destruct (reconnectTimeout (self w)) as [id |]; [| reflexivity].
    destruct (proj2 (Hmem id) eq_refl).
  - rewrite (proj1 (Hmem a)) by now left. reflexivity.
  - exfalso. pose proof (proj1 (Hmem a) ltac:(now left)) as Ha.
    pose proof (proj1 (Hmem b) ltac:(now right; left)) as Hb.
    rewrite Ha in Hb. injection Hb as ->.
    apply NoDup_cons in Hnd' as [Hnot _]. apply Hnot. now left.
Qed.

(** *** The polling connectors own no socket *)

Lemma sockets_fold {A} (f : World -> A -> World) (l : list A) (w : World) :
  (forall w x, sockets (f w x) = sockets w) ->
  sockets (fold_left f l w) = sockets w.
Proof.
  intros Hf. revert w. induction l as [| x l IH]; intros w; simpl.
  - reflexivity.
  - now rewrite IH, Hf.
Qed.

Lemma sockets_runHandler h (w : World) : sockets (runHandler h w) = sockets w.
Proof.
  unfold runHandler. apply sockets_fold. intros w' [t | o]; reflexivity.
Qed.

Lemma sockets_startPolling e now (w : World) :
  sockets (startPolling e now w) = sockets w.
Proof. unfold startPolling. now destruct (isPolling (self w)). Qed.

Lemma sockets_stopPolling (w : World) : sockets (stopPolling w) = sockets w.
Proof. unfold stopPolling. now destruct (pollingInterval (self w)). Qed.

Lemma sockets_stopPing (w : World) : sockets (stopPing w) = sockets w.
Proof. unfold stopPing. now destruct (pingInterval (self w)). Qed.

Lemma base_disconnect_no_sockets (w : World) :
  sockets w = [] -> sockets (base_disconnect w) = [].
Proof.
  intros Hs. unfold base_disconnect.
  set (w1 := match reconnectTimeout (self w) with
             | Some id => on_self (set_reconnectTimeout None) (clearTimer id w)
             | None => w
             end).
  assert (H1 : sockets w1 = []).
  { subst w1. now destruct (reconnectTimeout (self w)). }
  assert (H2 : sockets (stopPing w1) = []) by now rewrite sockets_stopPing.
  set (w2 := stopPing w1) in *. simpl.
  destruct (ws (self w2)) as [i |]; [| exact H2].
  simpl. unfold closeSocket. rewrite H2. simpl. exact H2.
Qed.

Lemma polling_step_no_sockets e now inp (w w' : World) :
  polls e = true -> step e now inp w = Some w' ->
  sockets w = [] -> sockets w' = [].
Proof.
  intros He Hstep Hs.
  assert (Hconnect : forall throws (w0 : World),
            sockets w0 = [] -> sockets (connect e now throws w0) = []).
  { intros throws w0 Hw0. destruct e; try discriminate;
      unfold connect, polling_connect, useRestApi; cbv iota;
      now rewrite sockets_startPolling. }
  destruct inp as [throws | | pairs | pairs | i | i data | i msg | i
                  | id throws | r]; simpl in Hstep.
  - injection Hstep as <-. now apply Hconnect.
  - injection Hstep as <-. destruct e; try discriminate; unfold disconnect;
      apply base_disconnect_no_sockets; now rewrite sockets_stopPolling.
  - injection Hstep as <-. unfold subscribe.
    destruct e; try discriminate; case_if; exact Hs.
  - injection Hstep as <-. unfold unsubscribe.
    destruct e; try discriminate; case_if; exact Hs.
  - rewrite Hs in Hstep. discriminate.
  - rewrite Hs in Hstep. discriminate.
  - rewrite Hs in Hstep. discriminate.
  - rewrite Hs in Hstep. discriminate.
  - destruct (timerKind id w) as [[] |]; try discriminate;
      injection Hstep as <-.
    + now apply Hconnect.
    + destruct e; try discriminate; exact Hs.
    + exact Hs.
  - destruct (fetches w); [discriminate |]. injection Hstep as <-.
    unfold on_fetched. destruct e; try discriminate;
      now rewrite sockets_runHandler.
Qed.

Lemma polling_no_sockets e (w : World) :
  polls e = true -> reachable e w -> sockets w = [].
Proof.
  intros He. induction 1 as [| w now inp w' _ IH Hstep].
  - reflexivity.
  - eapply polling_step_no_sockets; eauto.
Qed.

(** *** What the handler of ["open"] writes *)

Lemma openSocket_send m (w : World) : openSocket (send m w) = openSocket w.
Proof. unfold send. now destruct (openSocket w) eqn:Ho. Qed.

Lemma wire_sendAll ms (w : World) i :
  openSocket w = Some i ->
  wire (sendAll ms w) = wire w ++ map (fun m => (i, WireText m)) ms.
Proof.
  unfold sendAll. revert w. induction ms as [| m ms IH]; intros w Ho; simpl.
  - now rewrite app_nil_r.
  - rewrite IH by now rewrite openSocket_send.
    unfold send at 1. rewrite Ho. simpl. now rewrite <- app_assoc.
Qed.

Lemma wire_bumpMessageId e (w : World) : wire (bumpMessageId e w) = wire w.
Proof. now destruct e. Qed.

Lemma self_sendAll ms (w : World) : self (sendAll ms w) = self w.
Proof.
  unfold sendAll. revert w. induction ms as [| m ms IH]; intros w; simpl.
  - reflexivity.
  - rewrite IH. unfold send. now destruct (openSocket w).
Qed.

Lemma subscribedPairs_bumpMessageId e (w : World) :
  subscribedPairs (self (bumpMessageId e w)) = subscribedPairs (self w).
Proof. now destruct e. Qed.

Lemma on_open_writes e now i (w : World) :
  polls e = false -> openSocket w = Some i ->
  wire (on_open e now w)
  = wire w ++ map (fun m => (i, WireText m)) (replay e now (self w))
  /\ subscribedPairs (self (on_open e now w)) = subscribedPairs (self w).
Proof.
  intros He Ho. unfold on_open, replay.
  set (w1 := emitStatus e now StConnected None
               (on_self (set_isConnected true) w)).
  assert (Ho1 : openSocket w1 = Some i) by exact Ho.
  assert (Hs1 : self w1 = set_isConnected true (self w)) by reflexivity.
  assert (Hw1 : wire w1 = wire w) by reflexivity.
  assert (Hsub : forall pairs,
            wire (sendSubscribe e now pairs w1)
            = wire w ++ map (fun m => (i, WireText m))
                            (subscribeMessages e now (self w) pairs)
            /\ subscribedPairs (self (sendSubscribe e now pairs w1))
               = subscribedPairs (self w)).
  { intros pairs. unfold sendSubscribe.
    rewrite wire_bumpMessageId, subscribedPairs_bumpMessageId, self_sendAll.
    rewrite (wire_sendAll _ _ i Ho1), Hw1, Hs1. split; [| reflexivity].
    now destruct e. }
  change (wire (startPing ?x)) with (wire x).
  change (subscribedPairs (self (startPing ?x)))
    with (subscribedPairs (self x)).
  unfold onConnected. fold w1. rewrite Hs1. cbn [subscribedPairs set_isConnected].
  destruct (subscribedPairs (self w)) as [| p ps] eqn:Hpairs.
  - destruct e; try discriminate; simpl; rewrite ?app_nil_r; now split.
  - destruct e; try discriminate; cbn [length Nat.ltb Nat.leb]; apply Hsub.
Qed.

(** Every pair handed to [sendSubscribe] is asked for in one of its
    messages. *)
Lemma subscribeMessages_cover e now (x : Exchange) pairs p :
  polls e = false -> In p pairs ->
  exists m, In m (subscribeMessages (num:=num) e now x pairs)
            /\ requestsTicker e p m.
Proof.
  intros He Hp. destruct e; try discriminate; cbn [subscribeMessages].
  - (* Bybit *)
    eexists. split; [| reflexivity].
    unfold bybit_subscribe. apply in_app_iff. left.
    rewrite map_map. apply in_map_iff. exists p. now split.
  - (* OKX *)
    eexists. split; [now left |]. eexists. split; [reflexivity |].
    unfold okx_args. apply in_flat_map. exists p. split; [exact Hp | now left].
  - (* Bitget *)
    eexists. split; [now left |]. eexists. split; [reflexivity |].
    unfold bitget_args. apply in_flat_map. exists p.
    split; [exact Hp | now left].
  - (* Gate.io *)
    unfold gateio_messages. eexists. split; [now left |].
    do 2 eexists. split; [reflexivity |].
    rewrite map_map. apply in_map_iff. exists p. now split.
  - (* CoinEx *)
    unfold coinex_message. eexists. split; [now left |].
    do 2 eexists. split; [reflexivity |].
    apply in_map_iff. exists p. now split.
  - (* BingX *)
    unfold bingx_messages. eexists. split.
    + apply in_map_iff. exists p. split; [reflexivity | exact Hp].
    + eexists. reflexivity.
Qed.

Lemma step_reachable e now inp (w w' : World) :
  reachable e w -> step e now inp w = Some w' -> reachable e w'.
Proof. intros Hreach Hstep. econstructor; eassumption. Qed.

(** C4.  In every world a connector can reach, at most one reconnect timer
    is armed, and it is the one [reconnectTimeout] holds; whatever comes
    next (a close, an error, a [connect()] that throws) leaves at most one
    armed.  When the socket the connector holds opens, the handler writes
    to it the subscribe messages [sendSubscribe] builds for the whole
    subscription set, and leaves the set as it is: every subscribed pair is
    asked for in one of those messages, in the wire format of the exchange.
    The polling connectors (MEXC, KuCoin) never own a socket. *)
Theorem one_reconnect_timer_and_full_replay e (w : World) :
  reachable e w ->
  (length (reconnectTimers w) <= 1)%nat
  /\ reconnectTimers w = match reconnectTimeout (self w) with
                         | Some id => [id]
                         | None => []
                         end
  /\ (forall now inp w',
        step e now inp w = Some w' ->
        (length (reconnectTimers w') <= 1)%nat)
  /\ forall now i,
       ws (self w) = Some i -> sockets w !! i = Some CONNECTING ->
       exists w' frames,
         step e now (WsOpen i) w = Some w'
         /\ wire w' = wire w ++ map (fun m => (i, WireText m)) frames
         /\ frames = replay e now (self w)
         /\ subscribedPairs (self w') = subscribedPairs (self w)
         /\ forall p, In p (subscribedPairs (self w)) ->
               exists m, In m frames /\ requestsTicker e p m.
Proof.
  intros Hreach.
  assert (Hone : forall v : World,
            reachable e v ->
            reconnectTimers v = match reconnectTimeout (self v) with
                                | Some id => [id]
                                | None => []
                                end
            /\ (length (reconnectTimers v) <= 1)%nat).
  { intros v Hv.
    pose proof (reconnectTimers_ok v (timers_ok_reachable e v Hv)) as Hrec.
    split; [exact Hrec |]. rewrite Hrec.
    destruct (reconnectTimeout (self v)); simpl; lia. }
  destruct (Hone w Hreach) as [Hrec Hlen].
  split; [exact Hlen |]. split; [exact Hrec |]. split.
  - intros now inp w' Hstep.
    apply (Hone w' (step_reachable e now inp w w' Hreach Hstep)).
  - intros now i Hws Hsock.
    assert (He : polls e = false).
    { destruct (polls e) eqn:He; [| reflexivity].
      rewrite (polling_no_sockets e w He Hreach) in Hsock. discriminate. }
    exists (on_open e now (setSocket i OPEN w)), (replay e now (self w)).
    split; [unfold Connector.step; now rewrite Hsock |].
    assert (Ho : openSocket (setSocket i OPEN w) = Some i).
    { unfold openSocket. simpl. rewrite Hws.
      rewrite list_lookup_insert_eq; [reflexivity |].
      eapply lookup_lt_Some. exact Hsock. }
    destruct (on_open_writes e now i _ He Ho) as [Hwire Hpairs].
    split; [exact Hwire |]. split; [reflexivity |]. split; [exact Hpairs |].
    intros p Hp. unfold replay.
    destruct (subscribedPairs (self w)) as [| q qs] eqn:Hq; [destruct Hp |].
    now apply subscribeMessages_cover.
Qed.

End WithNumbers.
End ConnectorFacts.


Module LifecycleFacts.
Import Json Adapters Connector ConnectorFacts.

Section WithNumbers.
Context {num : Type} `{JSNumber num}.
Variable JSON_parse : string -> option (json num).
Variable gunzipSync : string -> option string.
Variable inflateSync : string -> option string.

Abbreviation World := (Connector.World num).
Abbreviation step := (Connector.step JSON_parse gunzipSync inflateSync).
Abbreviation reachable := (Connector.reachable JSON_parse gunzipSync inflateSync).
Abbreviation on_message := (Connector.on_message JSON_parse gunzipSync inflateSync).

(** [getStatus()] never answers "error", nor with an error message. *)
Lemma getStatus_not_error e now (w : World) :
  cs_status (getStatus e now w) <> StError
  /\ cs_errorMessage (getStatus e now w) = None.
Proof. unfold getStatus. simpl. now destruct (isConnected (self w)). Qed.

Lemma self_stopPing_fields (w : World) :
  ws (self (stopPing w)) = ws (self w)
  /\ isConnected (self (stopPing w)) = isConnected (self w)
  /\ reconnectTimeout (self (stopPing w)) = reconnectTimeout (self w)
  /\ sockets (stopPing w) = sockets w
  /\ published (stopPing w) = published w.
Proof. unfold stopPing. now destruct (pingInterval (self w)). Qed.

(** C6 (as amended).  When a socket of the connector reports an error, the
    handler publishes a status event with the status "error" and the message
    of the error, and does nothing else: the fields of the connector and
    the timers stay as they are, so [getStatus()] answers what it answered
    before, which is never "error", and no reconnect is scheduled by it.
    The "close" event that follows the error publishes "disconnected", sets
    the connector disconnected and leaves exactly one reconnect timer armed,
    the one [reconnectTimeout] holds.  When that timer fires [connect()] runs
    again, and opens a new socket if the socket that failed was the one the
    connector held. *)
Theorem transport_error_is_published_and_reconnect_armed
    e (w : World) i message now now' now'' :
  reachable e w ->
  (exists s, sockets w !! i = Some s /\ s <> CLOSED) ->
  exists w1 w2 w3 id,
    step e now (WsError i message) w = Some w1
    /\ published w1
       = published w ++ [PubStatus (mkStatus e StError now (Some message))]
    /\ self w1 = self w
    /\ clock w1 = clock w
    /\ (forall t, getStatus e t w1 = getStatus e t w
                  /\ cs_status (getStatus e t w1) <> StError
                  /\ cs_errorMessage (getStatus e t w1) = None)
    /\ step e now' (WsClose i) w1 = Some w2
    /\ published w2
       = published w1 ++ [PubStatus (mkStatus e StDisconnected now' None)]
    /\ isConnected (self w2) = false
    /\ cs_status (getStatus e now' w2) = StDisconnected
    /\ reconnectTimeout (self w2) = Some id
    /\ reconnectTimers w2 = [id]
    /\ step e now'' (TimerFires id false) w2 = Some w3
    /\ reconnectTimers w3 = []
    /\ (ws (self w) = Some i ->
        ws (self w3) = Some (length (sockets w2))
        /\ sockets w3 !! length (sockets w2) = Some CONNECTING).
Proof.
  intros Hreach (s & Hs & Hopen).
  assert (He : polls e = false).
  { destruct (polls e) eqn:He; [| reflexivity].
    rewrite (polling_no_sockets JSON_parse gunzipSync inflateSync e w He Hreach)
      in Hs. discriminate. }
  assert (Hlt : (i < length (sockets w))%nat) by (eapply lookup_lt_Some; eauto).
  set (w1 := on_error e now message (setSocket i CLOSING w)).
  assert (Hstep1 : step e now (WsError i message) w = Some w1).
  { unfold Connector.step. rewrite Hs. now destruct s. }
  assert (Hsock1 : sockets w1 !! i = Some CLOSING).
  { subst w1. simpl. now apply list_lookup_insert_eq. }
  set (w2 := on_close e now' (setSocket i CLOSED w1)).
  assert (Hstep2 : step e now' (WsClose i) w1 = Some w2).
  { unfold Connector.step. now rewrite Hsock1. }
  assert (Hreach2 : reachable e w2).
  { econstructor; [| exact Hstep2]. econstructor; [exact Hreach | exact Hstep1]. }
  pose proof (timers_ok_reachable JSON_parse gunzipSync inflateSync e w2
                Hreach2) as Hok2.
  pose proof (reconnectTimers_ok w2 Hok2) as Hrec.
  set (v := emitStatus e now' StDisconnected None
              (on_self (set_isConnected false) (setSocket i CLOSED w1))).
  destruct (self_stopPing_fields v) as (Hws & Hcon & _ & Hsocks & Hpub).
  assert (Hw2 : w2 = scheduleReconnect (stopPing v)) by reflexivity.
  assert (Hfields : ws (self w2) = ws (self w)
                    /\ isConnected (self w2) = false
                    /\ sockets w2 = <[i := CLOSED]> (sockets w1)
                    /\ published w2
                       = published w1
                         ++ [PubStatus (mkStatus e StDisconnected now' None)]
                    /\ exists id, reconnectTimeout (self w2) = Some id).
  { rewrite Hw2. unfold scheduleReconnect.
    destruct (reconnectTimeout (self (stopPing v))) as [id |] eqn:Hr; simpl;
      rewrite ?Hws, ?Hcon, ?Hsocks, ?Hpub; repeat split; eauto. }
  destruct Hfields as (Hws2 & Hcon2 & Hsocks2 & Hpub2 & id & Hid).
  rewrite Hid in Hrec.
  assert (Hkind : timerKind id w2 = Some ReconnectTimer).
  { apply armed_timerKind; [exact Hok2 |].
    unfold timers_ok, clock, clock_ok in Hok2.
    destruct Hok2 as (_ & _ & Hr & _). now apply Hr. }
  set (w2' := on_self (set_reconnectTimeout None) (clearTimer id w2)).
  set (w3 := connect e now'' false w2').
  assert (Hstep3 : step e now'' (TimerFires id false) w2 = Some w3).
  { unfold Connector.step. now rewrite Hkind. }
  assert (Hreach3 : reachable e w3).
  { econstructor; [exact Hreach2 | exact Hstep3]. }
  pose proof (reconnectTimers_ok w3
                (timers_ok_reachable JSON_parse gunzipSync inflateSync e w3
                   Hreach3)) as Hrec3.
  assert (Hbase : w3 = base_connect e now'' false w2').
  { subst w3. unfold connect. destruct e; try reflexivity; discriminate. }
  assert (Hr3 : reconnectTimeout (self w3) = None).
  { rewrite Hbase. unfold base_connect.
    destruct (openSocket w2'); reflexivity. }
  rewrite Hr3 in Hrec3.
  exists w1, w2, w3, id.
  split; [exact Hstep1 |]. split; [reflexivity |]. split; [reflexivity |].
  split; [reflexivity |].
  split; [intros t; split; [reflexivity | apply getStatus_not_error] |].
  split; [exact Hstep2 |]. split; [exact Hpub2 |]. split; [exact Hcon2 |].
  split; [unfold getStatus; simpl; now rewrite Hcon2 |].
  split; [exact Hid |]. split; [exact Hrec |]. split; [exact Hstep3 |].
  split; [exact Hrec3 |].
  intros Hheld. rewrite Hbase. unfold base_connect.
  assert (Hnone : openSocket w2' = None).
  { unfold openSocket. subst w2'. simpl. rewrite Hws2, Hheld, Hsocks2.
    rewrite list_lookup_insert_eq; [reflexivity |].
    subst w1. simpl. now rewrite length_insert. }
  rewrite Hnone. simpl.
  split; [reflexivity |].
  rewrite lookup_app_r by lia. now rewrite Nat.sub_diag.
Qed.

(** X14.  What [disconnect()] leaves behind, right after the call: no
    reconnect timer, no heartbeat timer of its own, no socket held, and the
    socket it held no longer open. *)
Lemma disconnect_tears_down e (w : World) :
  reachable e w ->
  let w' := disconnect e w in
  reconnectTimers w' = []
  /\ reconnectTimeout (self w') = None
  /\ pingInterval (self w') = None
  /\ ws (self w') = None
  /\ isConnected (self w') = false
  /\ (forall i, ws (self w) = Some i ->
               sockets w' !! i <> Some OPEN
               /\ sockets w' !! i <> Some CONNECTING).
Proof.
  intros Hreach w'.
  assert (Hok : timers_ok w').
  { apply timers_ok_disconnect.
    exact (timers_ok_reachable JSON_parse gunzipSync inflateSync e w Hreach). }
  assert (Hbase : forall v : World,
            let v' := base_disconnect v in
            reconnectTimeout (self v') = None
            /\ pingInterval (self v') = None
            /\ ws (self v') = None
            /\ isConnected (self v') = false
            /\ (forall i, ws (self v) = Some i ->
                 sockets v' !! i <> Some OPEN
                 /\ sockets v' !! i <> Some CONNECTING)).
  { intros v. unfold base_disconnect.
    set (v1 := match reconnectTimeout (self v) with
               | Some id => on_self (set_reconnectTimeout None) (clearTimer id v)
               | None => v
               end).
    assert (Hr1 : reconnectTimeout (self v1) = None).
    { subst v1. now destruct (reconnectTimeout (self v)) eqn:E. }
    assert (Hws1 : ws (self v1) = ws (self v)).
    { subst v1. now destruct (reconnectTimeout (self v)). }
    assert (Hs1 : sockets v1 = sockets v).
    { subst v1. now destruct (reconnectTimeout (self v)). }
    set (v2 := stopPing v1).
    assert (Hr2 : reconnectTimeout (self v2) = None).
    { subst v2. unfold stopPing. now destruct (pingInterval (self v1)). }
    assert (Hp2 : pingInterval (self v2) = None).
    { subst v2. unfold stopPing. now destruct (pingInterval (self v1)) eqn:E. }
    assert (Hws2 : ws (self v2) = ws (self v)).
    { subst v2. unfold stopPing. now destruct (pingInterval (self v1)). }
    assert (Hs2 : sockets v2 = sockets v).
    { subst v2. unfold stopPing. now destruct (pingInterval (self v1)). }
    cbv zeta. destruct (ws (self v2)) as [j |] eqn:Hj.
    - assert (Hclosed : sockets (closeSocket j v2) !! j <> Some OPEN
                        /\ sockets (closeSocket j v2) !! j <> Some CONNECTING).
      { unfold closeSocket.
        destruct (sockets v2 !! j) as [[] |] eqn:Hsj; simpl;
          rewrite ?list_lookup_insert_eq by (eapply lookup_lt_Some; eauto);
          rewrite ?Hsj; split; discriminate. }
      assert (Hfields : reconnectTimeout (self (closeSocket j v2)) = None
                        /\ pingInterval (self (closeSocket j v2)) = None).
      { unfold closeSocket. destruct (sockets v2 !! j) as [[] |]; now split. }
      destruct Hfields as [Hr3 Hp3].
      split; [exact Hr3 |]. split; [exact Hp3 |].
      split; [reflexivity |]. split; [reflexivity |].
      intros k Hk. assert (Hjk : Some j = Some k) by congruence.
      injection Hjk as <-. exact Hclosed.
    - split; [exact Hr2 |]. split; [exact Hp2 |].
      split; [exact Hj |]. split; [reflexivity |].
      intros k Hk. congruence. }
  assert (Hfields : reconnectTimeout (self w') = None
            /\ pingInterval (self w') = None
            /\ ws (self w') = None
            /\ isConnected (self w') = false
            /\ (forall i, ws (self w) = Some i ->
                 sockets w' !! i <> Some OPEN
                 /\ sockets w' !! i <> Some CONNECTING)).
  { subst w'. unfold disconnect.
    assert (Hsp : ws (self (stopPolling w)) = ws (self w)).
    { unfold stopPolling. now destruct (pollingInterval (self w)). }
    destruct e; try apply Hbase;
      (destruct (Hbase (stopPolling w)) as (A & B & C & D & E);
       repeat split; try assumption; apply E; now rewrite Hsp). }
  destruct Hfields as (Hr & Hrest).
  split; [| split; [exact Hr | exact Hrest]].
  rewrite (reconnectTimers_ok w' Hok).
  now rewrite Hr.
Qed.

(** C8.  A binary frame that starts with the gzip magic bytes and inflates
    to [text] (by [gunzipSync], or by [inflateSync] when [gunzipSync]
    throws) is handled exactly like the frame that carries [text] itself, as
    a buffer or as a string: the same message is parsed, the same tickers are
    published. *)
Theorem compressed_frame_handled_like_plain
    e now (gz text : string) (w : World) :
  gzipMagic gz = true -> gzipMagic text = false ->
  gunzipSync gz = Some text
  \/ (gunzipSync gz = None /\ inflateSync gz = Some text) ->
  decode gunzipSync inflateSync (DBuffer gz) = Some text
  /\ decode gunzipSync inflateSync (DBuffer text) = Some text
  /\ on_message e now (DBuffer gz) w = on_message e now (DBuffer text) w
  /\ on_message e now (DBuffer gz) w = on_message e now (DString text) w
  /\ on_message e now (DArrayBuffer gz) w = on_message e now (DString text) w
  /\ published (on_message e now (DBuffer gz) w)
     = published (on_message e now (DString text) w).
Proof.
  intros Hgz Htext Hinflate.
  assert (Hd : decodeBuffer gunzipSync inflateSync gz = Some text).
  { unfold decodeBuffer. rewrite Hgz.
    destruct Hinflate as [-> | [-> ->]]; reflexivity. }
  assert (Hp : decodeBuffer gunzipSync inflateSync text = Some text).
  { unfold decodeBuffer. now rewrite Htext. }
  unfold Connector.on_message, decode. rewrite Hd, Hp.
  repeat split; reflexivity.
Qed.

End WithNumbers.
End LifecycleFacts.


(** ** Concrete runs, in binary64 *)

Module ScenarioFacts.
Import Json Adapters Connector Binary64 ConnectorFacts LifecycleFacts Scenarios.

Abbreviation reachable64 :=
  (Connector.reachable parseFrames gunzipOf noInflate).

Lemma runOn_reachable e trace w : runOn e trace = Some w -> reachable64 e w.
Proof. apply run_reachable. constructor. Qed.

Lemma losingWorld_run : runOn gateio losing = Some losingWorld.
Proof. vm_compute. reflexivity. Qed.

Lemma retryingWorld_run : runOn gateio retrying = Some retryingWorld.
Proof. vm_compute. reflexivity. Qed.

(** C4 at a Gate.io connector with two pairs.  After the error, the close
    and the failed [connect()], one reconnect timer is armed, not two; after
    it fired none is, and when the new socket opens the subscriptions of
    both pairs are written to it: the ticker streams of both in one
    message, then the book ticker of each. *)
Lemma one_reconnect_timer_and_full_replay_witness :
  reconnectTimers losingWorld = [1%nat]
  /\ (length (reconnectTimers losingWorld) <= 1)%nat
  /\ reconnectTimers retryingWorld = []
  /\ exists w',
       Connector.step parseFrames gunzipOf noInflate gateio 5950 (WsOpen 1)
                      retryingWorld = Some w'
       /\ subscribedPairs (self w') = ["BTC/USDT"; "ETH/USDT"]
       /\ writtenTo 1 w'
          = map WireText
              [JObj [("time", JNum 5%float); ("channel", JStr "spot.tickers");
                     ("event", JStr "subscribe");
                     ("payload", JArr [JStr "BTC_USDT"; JStr "ETH_USDT"])];
               JObj [("time", JNum 5%float);
                     ("channel", JStr "spot.book_ticker");
                     ("event", JStr "subscribe");
                     ("payload", JArr [JStr "BTC_USDT"])];
               JObj [("time", JNum 5%float);
                     ("channel", JStr "spot.book_ticker");
                     ("event", JStr "subscribe");
                     ("payload", JArr [JStr "ETH_USDT"])]].
Proof.
  destruct (one_reconnect_timer_and_full_replay parseFrames gunzipOf noInflate
              gateio losingWorld
              (runOn_reachable _ _ _ losingWorld_run))
    as (Hone & _ & _ & _).
  destruct (one_reconnect_timer_and_full_replay parseFrames gunzipOf noInflate
              gateio retryingWorld
              (runOn_reachable _ _ _ retryingWorld_run))
    as (_ & Hnone & _ & Hopen).
  split; [vm_compute; reflexivity |]. split; [exact Hone |].
  split; [rewrite Hnone; vm_compute; reflexivity |].
  destruct (Hopen 5950%Z 1%nat) as (w' & frames & Hstep & Hwire & Hf & Hp & _).
  - vm_compute. reflexivity.
  - vm_compute. reflexivity.
  - exists w'. split; [exact Hstep |].
    split; [rewrite Hp; vm_compute; reflexivity |].
    unfold writtenTo. rewrite Hwire, Hf. vm_compute. reflexivity.
Defined.

Lemma connectedWorld_reachable : reachable64 bybit connectedWorld.
Proof.
  apply (runOn_reachable bybit connecting connectedWorld).
  vm_compute. reflexivity.
Qed.

(** C6, as the claim states it, fails at a connected Bybit connector whose
    socket reports an error: after the handler of the error the connector
    still answers "connected", with no error message, and no reconnect is
    scheduled. *)
Lemma error_sets_no_error_state_and_arms_no_reconnect :
  exists w1 : World float,
    Connector.step parseFrames gunzipOf noInflate bybit 900
                   (WsError 0 "read ECONNRESET") connectedWorld = Some w1
    /\ getStatus bybit 900 w1 = mkStatus bybit StConnected 900 None
    /\ cs_status (getStatus bybit 900 w1) <> StError
    /\ reconnectTimeout (self w1) = None
    /\ reconnectTimers w1 = []
    /\ timers w1 = timers connectedWorld.
Proof.
  eexists. split; [vm_compute; reflexivity |].
  repeat split; try (vm_compute; reflexivity).
  vm_compute. discriminate.
Qed.

(** C6 (as amended) at that connector: the error is published and changes
    nothing else; the close that follows arms the reconnect timer 1; when it
    fires the connector opens the socket 1. *)
Lemma transport_error_witness :
  exists w1 w2 w3,
    Connector.step parseFrames gunzipOf noInflate bybit 900
                   (WsError 0 "read ECONNRESET") connectedWorld = Some w1
    /\ published w1
       = published connectedWorld
         ++ [PubStatus (mkStatus bybit StError 900 (Some "read ECONNRESET"))]
    /\ self w1 = self connectedWorld
    /\ Connector.step parseFrames gunzipOf noInflate bybit 901 (WsClose 0) w1
       = Some w2
    /\ cs_status (getStatus bybit 901 w2) = StDisconnected
    /\ reconnectTimers w2 = [1%nat]
    /\ Connector.step parseFrames gunzipOf noInflate bybit 5901
                      (TimerFires 1 false) w2 = Some w3
    /\ reconnectTimers w3 = []
    /\ ws (self w3) = Some 1%nat
    /\ sockets w3 = [CLOSED; CONNECTING].
Proof.
  destruct (transport_error_is_published_and_reconnect_armed
              parseFrames gunzipOf noInflate bybit connectedWorld 0
              "read ECONNRESET" 900 901 5901 connectedWorld_reachable)
    as (w1 & w2 & w3 & id & H1 & Hp1 & Hs1 & _ & _ & H2 & _ & _ & Hst2 & Hid
        & Hrec & H3 & Hrec3 & Hnew).
  { exists OPEN. split; [vm_compute; reflexivity | discriminate]. }
  pose proof H1 as E1. vm_compute in E1. injection E1 as <-.
  pose proof H2 as E2. vm_compute in E2. injection E2 as <-.
  assert (Hone : id = 1%nat).
  { vm_compute in Hid. now injection Hid as <-. }
  subst id.
  pose proof H3 as E3. vm_compute in E3. injection E3 as <-.
  do 3 eexists.
  split; [exact H1 |]. split; [exact Hp1 |]. split; [exact Hs1 |].
  split; [exact H2 |]. split; [exact Hst2 |]. split; [exact Hrec |].
  split; [exact H3 |]. split; [exact Hrec3 |].
  split; [apply Hnew; vm_compute; reflexivity |].
  vm_compute. reflexivity.
Defined.

(** C7, the failing run: connect, open, [disconnect()].  Right after the
    call no timer is armed, no socket is held and the state is disconnected;
    but the socket, now closing, still delivers its "close" event, whose
    handler arms a reconnect timer; 5 seconds later that timer fires and
    [connect()] opens a new socket, although the connector was torn down. *)
Theorem disconnect_then_close_rearms_reconnect :
  exists wd wc wf : World float,
    runOn bybit tornDown = Some wd
    /\ timers wd = [] /\ ws (self wd) = None /\ isConnected (self wd) = false
    /\ sockets wd = [CLOSING]
    /\ Connector.step parseFrames gunzipOf noInflate bybit 320 (WsClose 0) wd
       = Some wc
    /\ reconnectTimers wc = [1%nat]
    /\ Connector.step parseFrames gunzipOf noInflate bybit 5320
                      (TimerFires 1 false) wc = Some wf
    /\ sockets wf = [CLOSED; CONNECTING]
    /\ ws (self wf) = Some 1%nat.
Proof.
  do 3 eexists.
  split; [vm_compute; reflexivity |].
  repeat split; vm_compute; reflexivity.
Qed.

(** C8 at a good Bitget frame: compressed or plain, it publishes the same
    ticker. *)
Lemma compressed_frame_witness :
  Connector.on_message parseFrames gunzipOf noInflate bitget 7
                       (DBuffer (gzipOf "good")) initial
  = Connector.on_message parseFrames gunzipOf noInflate bitget 7
                         (DString "good") initial
  /\ published (Connector.on_message parseFrames gunzipOf noInflate bitget 7
                                     (DString "good") initial)
     = [PubTicker goodTicker].
Proof.
  destruct (compressed_frame_handled_like_plain
              parseFrames gunzipOf noInflate bitget 7 (gzipOf "good") "good"
              initial)
    as (_ & _ & _ & Heq & _).
  - reflexivity.
  - reflexivity.
  - left. reflexivity.
  - split; [exact Heq |]. vm_compute. reflexivity.
Defined.

(** C5, the failing frame: a Bitget ticker frame whose bid is not a number,
    whose ask is negative and whose last price is empty is not skipped:
    a ticker with bid 0, ask -1 and last 0 is emitted, and the listener of
    the engine overwrites the good entry of the cache with it. *)
Theorem bitget_bad_prices_reach_the_cache :
  let w := Connector.on_message parseFrames gunzipOf noInflate bitget 9
                                (DString "bad") initial in
  fst (handleMessage bitget 9 badFrame) = [EmitTicker badTicker]
  /\ published w = [PubTicker badTicker]
  /\ Engine.tickers goodCache !! Engine.tickerKey bitget "BTC/USDT"
     = Some goodTicker
  /\ Engine.tickers (Wiring.deliverAll (published w) goodCache)
       !! Engine.tickerKey bitget "BTC/USDT"
     = Some badTicker.
Proof. repeat split; vm_compute; reflexivity. Qed.

End ScenarioFacts.


Module CacheFacts.
Import Engine KeyFacts.

Section AnyNumbers.
Context {num : Type} `{JSNumber num}.

(** X1.  [updateTicker] files a ticker under its exchange and its pair: the
    cache then answers with that ticker for them, the entry of every other
    exchange and pair is what it was, and nothing else of the engine
    changes. *)
Theorem updateTicker_then_lookup (t : Ticker num) (st : Engine.State num) :
  tickers (updateTicker t st) !! tickerKey (tk_exchange t) (tk_pair t) = Some t
  /\ (forall e pair,
        (e, pair) <> (tk_exchange t, tk_pair t) ->
        tickers (updateTicker t st) !! tickerKey e pair
        = tickers st !! tickerKey e pair)
  /\ settings (updateTicker t st) = settings st
  /\ lastOpportunities (updateTicker t st) = lastOpportunities st
  /\ analysisCount (updateTicker t st) = analysisCount st.
Proof.
  unfold updateTicker; cbn [tickers settings lastOpportunities analysisCount].
  split; [apply lookup_insert_eq |].
  split; [| auto].
  intros e pair Hne. apply lookup_insert_ne.
  intros Hkey. apply tickerKey_inj in Hkey as [He Hp]. apply Hne. congruence.
Qed.

End AnyNumbers.
End CacheFacts.


(** ** Bounded lists *)

Module ArrayFacts.
Import JSArray.

Lemma unshiftCapped_take {A} (cap : nat) (x : A) (l : list A) :
  unshiftCapped cap x (take cap l) = take cap (x :: l).
Proof.
  unfold unshiftCapped.
  destruct (Nat.ltb_spec cap (length (x :: take cap l))) as [Hlt | Hge].
  - rewrite removelast_firstn_len. simpl length in *.
    rewrite length_take in *.
    replace (Nat.pred (S (cap `min` length l))) with cap by lia.
    destruct cap as [| cap]; [reflexivity |].
    simpl. f_equal. rewrite take_take. f_equal. lia.
  - simpl length in Hge. rewrite length_take in Hge.
    destruct cap as [| cap]; [lia |].
    simpl. f_equal. rewrite !take_ge; auto; lia.
Qed.

Lemma unshiftCapped_length {A} (cap : nat) (x : A) (l : list A) :
  (length l <= cap)%nat -> (length (unshiftCapped cap x l) <= Nat.max 1 cap)%nat.
Proof.
  intros Hl. rewrite <- (take_ge l cap) by exact Hl.
  rewrite unshiftCapped_take, length_take. simpl. lia.
Qed.

Lemma slice0_take {A} (l : list A) (n : Z) :
  (0 <= n)%Z -> slice0 l n = take (Z.to_nat n) l.
Proof.
  intros Hn. unfold slice0.
  destruct (Z.ltb_spec n 0) as [Hneg | _]; [lia |].
  destruct (Z.le_ge_cases n (Z.of_nat (length l))) as [Hle | Hge].
  - now rewrite Z.min_l.
  - rewrite Z.min_r, Nat2Z.id by exact Hge.
    rewrite !take_ge; auto; lia.
Qed.

Lemma slice0_negative {A} (l : list A) (n : Z) :
  (n < 0)%Z -> slice0 l n = take (length l - Z.to_nat (- n)) l.
Proof.
  intros Hn. unfold slice0.
  destruct (Z.ltb_spec n 0) as [_ | Hpos]; [| lia].
  f_equal. lia.
Qed.

End ArrayFacts.

(** ** The in-memory store *)

Module StorageFacts.
Import JSArray Storage ArrayFacts.

Section WithNumbers.
Context {num : Type} `{JSNumber num}.
Variable EXCHANGES : list ExchangeId.
Variable TRADING_PAIRS : list string.

Lemma calls_snoc (cs : list (Call num)) c (s : MemStorage num) :
  calls (cs ++ [c]) s = call c (calls cs s).
Proof. unfold calls. now rewrite fold_left_app. Qed.

Lemma calls_lists (cs : list (Call num)) :
  let s := calls cs (create EXCHANGES TRADING_PAIRS) in
  ms_opportunities s = take 100 (rev (addedOpportunities cs))
  /\ ms_signals s = take 50 (rev (addedSignals cs)).
Proof.
  induction cs as [| c cs IH] using rev_ind.
  - split; reflexivity.
  - cbv zeta in *. rewrite calls_snoc.
    unfold addedOpportunities, addedSignals in *.
    rewrite !flat_map_app, !rev_app_distr. simpl flat_map.
    destruct IH as [IHo IHs].
    destruct c; cbn [call addOpportunity addSignal updateTicker updateSettings
                     updateConnectionStatus fst ms_opportunities ms_signals
                     app rev];
      try (split; assumption).
    + rewrite IHo, unshiftCapped_take. split; [reflexivity | assumption].
    + rewrite IHs, unshiftCapped_take. split; [assumption | reflexivity].
Qed.

(** X8.  After any sequence of calls on a new store, [getOpportunities()]
    returns the 100 opportunities added last and [getSignals()] the 50
    signals added last, the newest first; with a limit that is not negative
    they return that many of them at most. *)
Theorem store_keeps_the_latest_entries (cs : list (Call num)) :
  let s := calls cs (create EXCHANGES TRADING_PAIRS) in
  let latest := rev (addedOpportunities cs) in
  let sent := rev (addedSignals cs) in
  getOpportunities None s = take 100 latest
  /\ getSignals None s = take 50 sent
  /\ (forall limit, (0 <= limit)%Z ->
        getOpportunities (Some limit) s
        = take (Z.to_nat limit `min` 100) latest
        /\ getSignals (Some limit) s = take (Z.to_nat limit `min` 50) sent)
  /\ (length (getOpportunities None s) <= 100)%nat
  /\ (length (getSignals None s) <= 50)%nat.
Proof.
  intros s latest sent.
  destruct (calls_lists cs) as [Ho Hs]. fold s latest in Ho. fold s sent in Hs.
  unfold getOpportunities, getSignals. rewrite Ho, Hs. simpl default.
  assert (H100 : slice0 (take 100 latest) 100 = take 100 latest).
  { rewrite slice0_take by lia. now rewrite take_take. }
  assert (H50 : slice0 (take 50 sent) 50 = take 50 sent).
  { rewrite slice0_take by lia. now rewrite take_take. }
  rewrite H100, H50. repeat split.
  - rewrite slice0_take by assumption. now rewrite take_take.
  - rewrite slice0_take by assumption. now rewrite take_take.
  - rewrite length_take. lia.
  - rewrite length_take. lia.
Qed.

End WithNumbers.
End StorageFacts.


(** ** Scans of the engine *)

Module ScanFacts.
Import Engine KeyFacts PassFacts.

Section AnyNumbers.
Context {num : Type} `{JSNumber num}.
Variable takerFee : ExchangeId -> num.

Abbreviation State := (Engine.State num).
Abbreviation Quote := (Engine.Quote num).

(** The sort permutes its input, whatever the comparison function answers. *)
Lemma sort_insert_permutation {A} (comparefn : A -> A -> num) x l :
  Permutation (sort_insert comparefn x l) (x :: l).
Proof.
  induction l as [| y ys IH]; simpl.
  - reflexivity.
  - case_if.
    + rewrite IH. apply perm_swap.
    + reflexivity.
Qed.

Lemma sort_permutation {A} (comparefn : A -> A -> num) l :
  Permutation (sort comparefn l) l.
Proof.
  induction l as [| x xs IH]; simpl.
  - reflexivity.
  - unfold sort in *. simpl. rewrite sort_insert_permutation. now constructor.
Qed.

Lemma collectPrices_exchanges (st : State) pair :
  map pp_exchange (collectPrices st pair)
  = List.filter (contributes st pair) (enabledExchanges (settings st)).
Proof.
  unfold collectPrices, contributes.
  induction (enabledExchanges (settings st)) as [| e es IH]; simpl.
  - reflexivity.
  - rewrite map_app, IH.
    destruct (tickers st !! tickerKey e pair) as [t |]; simpl; [| reflexivity].
    destruct (usable t); reflexivity.
Qed.

Lemma head_last_differ {A} (l : list A) a b :
  NoDup l -> (2 <= length l)%nat -> head l = Some a -> last l = Some b -> a <> b.
Proof.
  destruct l as [| x [| y l']]; simpl; intros Hnd Hlen Hhead Hlast; try lia.
  assert (x = a) as Hx by congruence. subst x. clear Hhead.
  apply NoDup_cons in Hnd as [Hnot _].
  intros Hab. apply Hnot. rewrite Hab.
  change (last (a :: y :: l') = Some b) in Hlast.
  rewrite last_cons_cons in Hlast.
  apply last_Some_elem_of in Hlast. exact Hlast.
Qed.

Lemma head_map {A B} (f : A -> B) (l : list A) : head (map f l) = f <$> head l.
Proof. now destruct l. Qed.

Lemma last_map {A B} (f : A -> B) (l : list A) : last (map f l) = f <$> last l.
Proof.
  induction l as [| x [| y l'] IH]; try reflexivity.
  change (last (f x :: f y :: map f l') = f <$> last (x :: y :: l')).
  now rewrite !last_cons_cons.
Qed.

(** X3.  With no exchange listed twice in [enabledExchanges], the venue a
    pass buys on is never the venue it sells on. *)
Theorem buy_and_sell_venues_differ (st : State) (pair : string) (q : Quote) :
  NoDup (enabledExchanges (settings st)) ->
  analyse takerFee st pair = Some q ->
  pp_exchange (q_bestBuy q) <> pp_exchange (q_bestSell q).
Proof.
  intros Hnd Hq.
  destruct (analyse_Some_inv takerFee st pair q Hq)
    as (Hlen & _ & Hhead & Hlast & _).
  set (sorted := sort _ _) in *.
  assert (Hperm : Permutation sorted (collectPrices st pair))
    by apply sort_permutation.
  apply (head_last_differ (map pp_exchange sorted)).
  - apply NoDup_ListNoDup.
    apply (Permutation_NoDup (l := map pp_exchange (collectPrices st pair))).
    + apply Permutation_map. now symmetry.
    + rewrite collectPrices_exchanges. apply List.NoDup_filter.
      now apply NoDup_ListNoDup.
  - rewrite length_map, (Permutation_length Hperm). exact Hlen.
  - now rewrite head_map, Hhead.
  - now rewrite last_map, Hlast.
Qed.

(** A pass analyses a pair exactly when two enabled exchanges or more have
    a usable ticker for it. *)
Lemma analysable_analyse (st : State) pair :
  analysable st pair
  = match analyse takerFee st pair with Some _ => true | None => false end.
Proof.
  unfold analysable, analyse.
  rewrite <- collectPrices_exchanges, length_map.
  destruct (Nat.ltb_spec (length (collectPrices st pair)) 2) as [Hlt | Hge].
  - apply Nat.leb_gt. exact Hlt.
  - pose proof (Permutation_length
                  (sort_permutation
                     (fun a b => num_sub (pp_price a) (pp_price b))
                     (collectPrices st pair))) as Hlen.
    destruct (sort _ (collectPrices st pair)) as [| x xs] eqn:Hs;
      [simpl in Hlen; lia |].
    cbn [head].
    destruct (last (x :: xs)) as [y |] eqn:Hl.
    + apply Nat.leb_le. exact Hge.
    + apply last_None in Hl. discriminate.
Qed.

(** What a pass that analyses the pair adds to the counter. *)
Lemma analyzePair_counts now pair (st : State) (q : Quote) :
  analyse takerFee st pair = Some q ->
  analysisCount (fst (analyzePair takerFee now pair st)) = S (analysisCount st).
Proof.
  intros Hq. unfold analyzePair. rewrite Hq.
  repeat case_if; reflexivity.
Qed.

Lemma scan_from now (st0 : State) (l : list string)
    (acc : State * list (Engine.Event num)) :
  tickers (fst acc) = tickers st0 -> settings (fst acc) = settings st0 ->
  let r := fold_left
             (fun acc pair =>
                let '(st', evs) := analyzePair takerFee now pair (fst acc) in
                (st', snd acc ++ evs))
             l acc in
  tickers (fst r) = tickers st0 /\ settings (fst r) = settings st0
  /\ analysisCount (fst r)
     = (analysisCount (fst acc) + length (List.filter (analysable st0) l))%nat
  /\ exists new,
       opportunities (snd r) = opportunities (snd acc) ++ new
       /\ sublist (map op_pair new) (List.filter (analysable st0) l)
       /\ Forall (fun o => op_timestamp o = now) new.
Proof.
  revert acc. induction l as [| pair l IH]; intros [st evs] Ht Hs; simpl in *.
  - repeat split; auto; try lia.
    exists []. rewrite app_nil_r. repeat split; constructor.
  - destruct (analyzePair_frame takerFee now pair st) as [Ht1 Hs1].
    assert (Ha : analyse takerFee st pair = analyse takerFee st0 pair)
      by now apply analyse_ext.
    destruct (analyzePair takerFee now pair st) as [st1 evs1] eqn:Hpass.
    simpl in Ht1, Hs1.
    specialize (IH (st1, evs ++ evs1)). simpl in IH.
    destruct IH as (IHt & IHs & IHc & new & IHo & IHsub & IHn);
      [congruence | congruence |].
    assert (Hb : analysable st0 pair
                 = match analyse takerFee st pair with
                   | Some _ => true
                   | None => false
                   end) by (rewrite analysable_analyse; now rewrite Ha).
    rewrite Hb. rewrite opportunities_app in IHo.
    destruct (analyse takerFee st pair) as [q |] eqn:Hq.
    + pose proof (analyzePair_counts now pair st q Hq) as Hc.
      pose proof (analyzePair_decision takerFee now pair st q Hq) as [Ho _].
      rewrite Hpass in Hc, Ho. simpl in Hc, Ho.
      repeat split; auto; [rewrite IHc, Hc; simpl; lia |].
      rewrite Ho in IHo. rewrite <- app_assoc in IHo.
      eexists. split; [exact IHo |].
      destruct (_ && _); simpl.
      * split; [now apply sublist_skip |]. now constructor.
      * split; [now apply sublist_cons | exact IHn].
    + rewrite (analyzePair_skips takerFee now pair st Hq) in Hpass.
      injection Hpass as <- <-.
      change (opportunities []) with (@nil (ArbitrageOpportunity num)) in IHo.
      rewrite app_nil_r in *. rewrite ?app_nil_r in IHo. repeat split; auto.
      exists new. repeat split; assumption.
Qed.

(** X5.  A scan leaves the cache and the settings alone.  It counts one
    analysis for each enabled pair for which two enabled exchanges or more
    have a usable ticker (ask and bid above zero) in the cache, and none for
    the other pairs.  The opportunities it emits are for such pairs, one at
    most for each, in the order of [enabledPairs], and carry the instant of
    the scan. *)
Theorem scan_counts_each_analysable_pair now (st : State) :
  let r := analyzeAllPairs takerFee now st in
  let sources pair :=
    List.filter (contributes st pair) (enabledExchanges (settings st)) in
  let analysed :=
    List.filter (fun pair => (2 <=? length (sources pair))%nat)
                (enabledPairs (settings st)) in
  tickers (fst r) = tickers st /\ settings (fst r) = settings st
  /\ analysisCount (fst r) = (analysisCount st + length analysed)%nat
  /\ sublist (map op_pair (opportunities (snd r))) analysed
  /\ Forall (fun o => op_timestamp o = now) (opportunities (snd r)).
Proof.
  intros r sources analysed.
  destruct (scan_from now st (enabledPairs (settings st)) (st, []))
    as (Ht & Hs & Hc & new & Ho & Hsub & Hn); [reflexivity | reflexivity |].
  change (opportunities (snd r) = new) in Ho. rewrite Ho.
  repeat split; auto.
Qed.

(** X6.  The cooldown is kept for each route: a pass over [pair] changes
    the instant recorded for the route it selects and for no other. *)
Theorem cooldown_is_kept_per_route now pair (st : State) pair' buy sell :
  (forall q, analyse takerFee st pair = Some q ->
             (pair', buy, sell)
             <> (pair, pp_exchange (q_bestBuy q), pp_exchange (q_bestSell q))) ->
  lastTimeOf (fst (analyzePair takerFee now pair st))
             (opportunityKey pair' buy sell)
  = lastTimeOf st (opportunityKey pair' buy sell).
Proof.
  intros Hother. unfold lastTimeOf.
  destruct (analyse takerFee st pair) as [q |] eqn:Hq.
  - destruct (analyzePair_decision takerFee now pair st q Hq) as [_ Hlast].
    rewrite Hlast. destruct (_ && _); [| reflexivity].
    rewrite lookup_insert_ne; [reflexivity |].
    intros Hkey. apply opportunityKey_inj in Hkey as (Hp & Hb & Hs).
    apply (Hother q eq_refl). congruence.
  - now rewrite (analyzePair_skips takerFee now pair st Hq).
Qed.

End AnyNumbers.
End ScanFacts.


(** ** The spread and the net profit of a pass *)

Module SpreadFacts.
Import Exact Binary64 Engine PassFacts ScanFacts Scenarios.

Section AnyNumbers.
Context {num : Type} `{JSNumber num}.
Variable takerFee : ExchangeId -> num.
Hypothesis order : NumberOrder num.

Abbreviation State := (Engine.State num).
Abbreviation Quote := (Engine.Quote num).

Lemma collectPrices_quoted (st : State) pair (p : Engine.PricePoint num) :
  In p (collectPrices st pair) ->
  exists t, quoted st pair (pp_exchange p) t /\ pp_price p = tk_ask t.
Proof.
  unfold collectPrices, quoted. rewrite in_flat_map.
  intros (e & He & Hp).
  destruct (tickers st !! tickerKey e pair) as [t |] eqn:Ht; [| destruct Hp].
  destruct (usable t) eqn:Hu; [| destruct Hp].
  destruct Hp as [<- | []]. simpl. eauto 6.
Qed.

(** The two prices of a pass come from the cache: the buy price is the ask
    cached for the buy venue, the sell price the bid cached for the sell
    venue (it is above zero, so [||] keeps it). *)
Lemma analysed_from_the_cache (st : State) pair (q : Quote) :
  analyse takerFee st pair = Some q ->
  exists buyTicker sellTicker,
    quoted st pair (pp_exchange (q_bestBuy q)) buyTicker
    /\ quoted st pair (pp_exchange (q_bestSell q)) sellTicker
    /\ pp_price (q_bestBuy q) = tk_ask buyTicker
    /\ q_sellPrice q = tk_bid sellTicker.
Proof.
  intros Hq.
  destruct (analyse_Some_inv takerFee st pair q Hq)
    as (_ & _ & Hhead & Hlast & Hsell & _).
  pose proof (sort_permutation
                (fun a b => num_sub (pp_price a) (pp_price b))
                (collectPrices st pair)) as Hperm.
  apply head_Some_elem_of in Hhead. apply last_Some_elem_of in Hlast.
  rewrite Hperm in Hhead, Hlast.
  apply list_elem_of_In, collectPrices_quoted in Hhead as (tb & Hb & Hbp).
  apply list_elem_of_In, collectPrices_quoted in Hlast as (ts & Hs & Hsp).
  exists tb, ts. split; [exact Hb |]. split; [exact Hs |].
  split; [exact Hbp |].
  destruct Hs as (_ & Hts & Hus). rewrite Hts in Hsell. rewrite Hsell.
  unfold usable in Hus. apply andb_true_iff in Hus as [_ Hbid].
  unfold num_or. now rewrite (ord_positive_truthy num order _ Hbid).
Qed.

End AnyNumbers.

(** C3.  For a pair that two enabled exchanges or more have a usable ticker
    for, a pass computes, from the ask cached for the venue it buys on and
    the bid cached for the venue it sells on, the spread
    [(sellBid - buyAsk) / buyAsk * 100] and the net profit: the spread less
    [(buyTakerFee + sellTakerFee) * 100], the fees being those of the fee
    table for the two venues.  The analysis it emits carries that spread, and
    the opportunity it emits carries the spread and the profit, each rounded
    to 10 decimals.

    In binary64, the pass over the book in which Bybit asks 100 and OKX bids
    102, both with the taker fee 0.001, emits an analysis with the spread 2
    exactly and an opportunity with the spread 2 and the net profit 1.8 (the
    double nearest to it); in exact arithmetic the spread is 2 and the
    profit 1.8. *)
Theorem spread_and_profit_formulas :
  (forall (num : Type) (N : JSNumber num) (takerFee : ExchangeId -> num)
          (st : Engine.State num) (pair : string) (now : Z),
     NumberOrder num ->
     (2 <= length (List.filter (contributes st pair)
                               (enabledExchanges (settings st))))%nat ->
     exists q buyTicker sellTicker,
       analyse takerFee st pair = Some q
       /\ quoted st pair (pp_exchange (q_bestBuy q)) buyTicker
       /\ quoted st pair (pp_exchange (q_bestSell q)) sellTicker
       /\ let buyAsk := tk_ask buyTicker in
          let sellBid := tk_bid sellTicker in
          let spread := ((sellBid - buyAsk) / buyAsk * num_int 100)%js in
          let profit :=
            (spread
             - (takerFee (pp_exchange (q_bestBuy q))
                + takerFee (pp_exchange (q_bestSell q))) * num_int 100)%js in
          let pass := analyzePair takerFee now pair st in
          q_spread q = spread
          /\ q_profitPercent q = profit
          /\ (forall a, In (EvAnalysis a) (snd pass) -> ar_spread a = spread)
          /\ (forall o, In (EvOpportunity o) (snd pass) ->
                spreadPercent o = num_fixed 10 spread
                /\ profitPercent o = num_fixed 10 profit))
  /\ (exists st' a o,
        analyzePair Wiring.configuredTakerFee 1000000 "BTC/USDT" profitableBook
        = (st', [EvAnalysis a; EvOpportunity o])
        /\ ar_bestBuy a = mkPoint bybit 100%float
        /\ ar_bestSell a = mkPoint okx 102%float
        /\ ar_spread a = 2%float
        /\ PrimFloat.leb
             (PrimFloat.abs (PrimFloat.sub (ar_spread a) 2%float))
             1e-9%float = true
        /\ spreadPercent o = 2%float
        /\ profitPercent o = 1.8%float)
  /\ (exists st' a o,
        analyzePair Wiring.configuredTakerFee 1000000 "BTC/USDT"
                    profitableBookX
        = (st', [EvAnalysis a; EvOpportunity o])
        /\ Exact.xeq (ar_spread a) (Exact.XFin 2%Q)
        /\ Exact.xeq (spreadPercent o) (Exact.XFin 2%Q)
        /\ Exact.xeq (profitPercent o) (Exact.XFin 1.8%Q)).
Proof.
  split; [| split].
  - intros num N takerFee st pair now L Hlen.
    destruct (analyse takerFee st pair) as [q |] eqn:Hq.
    2: { pose proof (analysable_analyse takerFee st pair) as Ha.
         rewrite Hq in Ha. unfold analysable in Ha.
         apply Nat.leb_gt in Ha. lia. }
    destruct (analysed_from_the_cache takerFee L st pair q Hq)
      as (tb & ts & Hb & Hs & Hbp & Hsp).
    exists q, tb, ts. split; [reflexivity |].
    split; [exact Hb |]. split; [exact Hs |]. cbv zeta.
    destruct (analyse_Some_inv takerFee st pair q Hq)
      as (_ & _ & _ & _ & _ & Hspread & Hbf & Hsf & Hprofit).
    assert (Hsp' : q_spread q
                   = ((tk_bid ts - tk_ask tb) / tk_ask tb * num_int 100)%js).
    { rewrite Hspread, Hsp, Hbp. reflexivity. }
    assert (Hpr : q_profitPercent q
                  = (q_spread q
                     - (takerFee (pp_exchange (q_bestBuy q))
                        + takerFee (pp_exchange (q_bestSell q)))
                       * num_int 100)%js).
    { rewrite Hprofit, Hbf, Hsf. reflexivity. }
    rewrite <- Hsp', <- Hpr. split; [reflexivity |]. split; [reflexivity |].
    rewrite (analyzePair_events takerFee now pair st q Hq). split.
    + intros a Hin. apply in_app_or in Hin as [Hin | Hin].
      * destruct (num_leb _ (q_spread q)); [| destruct Hin].
        destruct Hin as [[= <-] | []]. reflexivity.
      * destruct (_ && _); [| destruct Hin].
        destruct Hin as [Hin | []]. discriminate.
    + intros o Hin. apply in_app_or in Hin as [Hin | Hin].
      * destruct (num_leb _ (q_spread q)); [| destruct Hin].
        destruct Hin as [Hin | []]. discriminate.
      * destruct (_ && _); [| destruct Hin].
        destruct Hin as [[= <-] | []]. split; reflexivity.
  - do 3 eexists. split; [vm_compute; reflexivity |].
    repeat split; vm_compute; reflexivity.
  - do 3 eexists. split; [vm_compute; reflexivity |].
    repeat split; vm_compute; reflexivity.
Qed.

(** The theorem at the profitable book, in binary64: Bybit and OKX both have
    a usable ticker; the pass buys on Bybit at its ask 100, sells on OKX at
    its bid 102, and computes the spread 2 and the net profit 1.8. *)
Lemma spread_and_profit_witness :
  (2 <= length (List.filter (contributes profitableBook "BTC/USDT")
                            (enabledExchanges (settings profitableBook))))%nat
  /\ exists q buyTicker sellTicker,
       analyse Wiring.configuredTakerFee profitableBook "BTC/USDT" = Some q
       /\ quoted profitableBook "BTC/USDT" bybit buyTicker
       /\ quoted profitableBook "BTC/USDT" okx sellTicker
       /\ tk_ask buyTicker = 100%float
       /\ tk_bid sellTicker = 102%float
       /\ q_spread q = 2%float
       /\ q_profitPercent q = 1.8%float.
Proof.
  assert (Hlen : (2 <= length (List.filter
                                 (contributes profitableBook "BTC/USDT")
                                 (enabledExchanges (settings profitableBook))))%nat)
    by (vm_compute; lia).
  split; [exact Hlen |].
  destruct (proj1 spread_and_profit_formulas float float_number
              (@Wiring.configuredTakerFee float float_number)
              profitableBook "BTC/USDT" 1000000%Z FloatFacts.float_order Hlen)
    as (q & tb & ts & Hq & Hb & Hs & Hspread & Hprofit & _).
  pose proof Hq as Hcomputed. vm_compute in Hcomputed.
  injection Hcomputed as <-.
  eexists _, tb, ts. split; [exact Hq |].
  split; [exact Hb |]. split; [exact Hs |].
  destruct Hb as (_ & Hb & _). destruct Hs as (_ & Hs & _).
  vm_compute in Hb. vm_compute in Hs.
  injection Hb as <-. injection Hs as <-.
  split; [reflexivity |]. split; [reflexivity |]. split.
  - rewrite Hspread. vm_compute. reflexivity.
  - rewrite Hprofit. vm_compute. reflexivity.
Defined.

End SpreadFacts.


(** ** The order of the prices, in the exact model *)

Module OrderFacts.
Import Exact ExactFacts SortFacts Engine PassFacts EngineFacts.

Section Exactly.
Variable takerFee : ExchangeId -> xnum.

Abbreviation State := (Engine.State xnum).
Abbreviation Quote := (Engine.Quote xnum).
Abbreviation PricePoint := (Engine.PricePoint xnum).

(** X2.  The prices a pass works on (the [prices] of its analysis event)
    are the asks of the usable enabled exchanges, each of them once, in
    ascending order; the buy venue is the first and the sell venue the
    last. *)
Theorem analysed_prices_ascend (st : State) (pair : string) (q : Quote) :
  analyse takerFee st pair = Some q ->
  Permutation (q_prices q) (collectPrices st pair)
  /\ StronglySorted (fun a b : PricePoint => xleb (pp_price a) (pp_price b) = true)
                    (q_prices q)
  /\ head (q_prices q) = Some (q_bestBuy q)
  /\ last (q_prices q) = Some (q_bestSell q)
  /\ Forall (fun p : PricePoint =>
               exists t, quoted st pair (pp_exchange p) t
                         /\ pp_price p = tk_ask t)
            (q_prices q).
Proof.
  intros Hq.
  destruct (analyse_Some_inv takerFee st pair q Hq)
    as (_ & Hprices & Hhead & Hlast & _).
  rewrite Hprices.
  assert (Hperm := sort_perm (A := PricePoint) pp_price (collectPrices st pair)).
  repeat split; auto.
  - apply (sort_sorted pp_price). apply collectPrices_ordered.
  - apply Forall_forall. intros p Hp.
    apply collectPrices_In. apply list_elem_of_In.
    rewrite <- Hperm. exact Hp.
Qed.

Variable EXCHANGES : list ExchangeId.

(** X7.  [getPricesForPair] lists the ticker of every exchange of
    [EXCHANGES] that has one in the cache for the pair, whether the exchange
    is enabled and whatever its prices are, and no other; when no ask is
    NaN the list is in ascending order of the ask. *)
Theorem getPricesForPair_lists_the_cache_by_ask (st : State) (pair : string) :
  let prices := getPricesForPair EXCHANGES st pair in
  (forall e t, In (e, t) prices <->
               In e EXCHANGES /\ tickers st !! tickerKey e pair = Some t)
  /\ (Forall (fun et : ExchangeId * Ticker xnum => ordered (tk_ask (snd et)))
             prices ->
      StronglySorted
        (fun a b : ExchangeId * Ticker xnum =>
           xleb (tk_ask (snd a)) (tk_ask (snd b)) = true)
        prices).
Proof.
  intros prices. unfold getPricesForPair in prices.
  set (cached := flat_map _ EXCHANGES) in prices.
  assert (Hperm := sort_perm (A := ExchangeId * Ticker xnum)
                             (fun et => tk_ask (snd et)) cached).
  change (Permutation prices cached) in Hperm.
  split.
  - intros e t. 
    assert (Hin : In (e, t) prices <-> In (e, t) cached).
    { split; intros Hp; apply list_elem_of_In; apply list_elem_of_In in Hp.
      - now rewrite <- Hperm.
      - now rewrite Hperm. }
    rewrite Hin. unfold cached. rewrite in_flat_map. split.
    + intros (e' & He' & Het).
      destruct (tickers st !! tickerKey e' pair) as [t' |] eqn:Hk;
        simpl in Het; [| contradiction].
      destruct Het as [Het | []]. injection Het as -> ->. auto.
    + intros [He Hk]. exists e. split; [exact He |]. rewrite Hk. now left.
  - intros Hord.
    apply (sort_sorted (fun et : ExchangeId * Ticker xnum => tk_ask (snd et))).
    apply Forall_forall. intros et Het.
    apply (proj1 (Forall_forall _ _) Hord).
    apply list_elem_of_In. apply list_elem_of_In in Het. now rewrite Hperm.
Qed.

End Exactly.
End OrderFacts.


(** ** The profit of an emitted opportunity, in the exact model *)

Module ProfitFacts.
Import Exact ExactFacts SortFacts Engine PassFacts EngineFacts.

Lemma Qltb_true p q : Qltb p q = true <-> (p < q)%Q.
Proof.
  unfold Qltb. rewrite negb_true_iff, <- not_true_iff_false, Qle_bool_iff.
  split; [apply Qnot_le_lt | apply Qlt_not_le].
Qed.

Lemma Qltb_false p q : Qltb p q = false <-> (q <= p)%Q.
Proof.
  unfold Qltb. rewrite negb_false_iff, Qle_bool_iff. reflexivity.
Qed.

Lemma Qzero_false q : (0 < q)%Q -> Qzero q = false.
Proof.
  intros Hq. unfold Qzero. apply not_true_iff_false. rewrite Qeq_bool_iff.
  intros Heq. rewrite Heq in Hq. now apply Qlt_irrefl in Hq.
Qed.

(** A spread that is not positive leaves no profit. *)
Lemma finite_profit_needs_spread (b s f g m : Q) :
  (0 < b)%Q -> (0 <= f)%Q -> (0 <= g)%Q -> (0 < m)%Q ->
  (m <= (s + - b) / b * inject_Z 100 + - ((f + g) * inject_Z 100))%Q ->
  (b < s)%Q.
Proof.
  intros Hb Hf Hg Hm Hle.
  apply Qnot_le_lt. intros Hsb.
  assert (Hinv : (0 < / b)%Q) by now apply Qinv_lt_0_compat.
  assert (Hd : ((s + - b) / b <= 0)%Q).
  { unfold Qdiv. apply Qle_trans with (0 * / b)%Q; [| lra].
    apply Qmult_le_compat_r; lra. }
  assert (H100 : ((s + - b) / b * inject_Z 100 <= 0)%Q).
  { apply Qle_trans with (0 * inject_Z 100)%Q; [| lra].
    apply Qmult_le_compat_r; [exact Hd | now compute]. }
  assert (Hfees : (0 <= (f + g) * inject_Z 100)%Q).
  { apply Qmult_le_0_compat; [lra | now compute]. }
  lra.
Qed.

Lemma profit_needs_spread (buy sell f g m : xnum) :
  xltb (XFin 0) buy = true ->
  xleb (XFin 0) f = true -> xleb (XFin 0) g = true ->
  xltb (XFin 0) m = true ->
  xleb m (profitOf (spreadOf sell buy) f g) = true ->
  xltb buy sell = true.
Proof.
  unfold profitOf, spreadOf, num_int, num_lit, num_sub, num_mul, num_div,
    num_add, xnum_number, xsub.
  change (Qdec 100 0) with (inject_Z 100).
  destruct buy as [b | [] |]; cbn [xltb]; try discriminate.
  - intros Hb. apply Qltb_true in Hb.
    destruct sell as [s | [] |]; cbn [xltb xneg xadd xdiv];
      rewrite ?(Qzero_false b Hb).
    + destruct f as [f | [] |], g as [g | [] |], m as [m | [] |];
        cbn [xltb xleb xneg xadd xmul negb]; try discriminate.
      all: try (intros; discriminate).
      intros Hf Hg Hm Hle. apply Qltb_true.
      apply Qle_bool_iff in Hf, Hg, Hle. apply Qltb_true in Hm.
      now apply (finite_profit_needs_spread b s f g m).
    + assert (Hb0 : Qltb b 0 = false) by (apply Qltb_false; lra).
      rewrite Hb0.
      destruct f as [f | [] |], g as [g | [] |], m as [m | [] |];
        cbn; intros; discriminate.
    + reflexivity.
    + destruct f as [f | [] |], g as [g | [] |], m as [m | [] |];
        cbn; intros; discriminate.
  - destruct sell as [s | [] |], f as [f | [] |], g as [g | [] |],
      m as [m | [] |]; cbn; intros; discriminate.
Qed.

Section Exactly.
Variable takerFee : ExchangeId -> xnum.

Abbreviation State := (Engine.State xnum).
Abbreviation Quote := (Engine.Quote xnum).

Lemma opportunities_In (evs : list (Engine.Event xnum)) o :
  In (EvOpportunity o) evs -> In o (opportunities evs).
Proof.
  intros Hin. unfold opportunities. apply in_flat_map.
  exists (EvOpportunity o). split; [exact Hin | now left].
Qed.

(** X4.  With taker fees that are not negative and a positive
    [minProfitPercent], every opportunity a pass emits sells above its buy
    price: the price the pass sells at exceeds the ask it buys at, which is
    positive. *)
Theorem emitted_opportunity_sells_above_its_buy_price
    now pair (st : State) (o : Engine.ArbitrageOpportunity xnum) :
  (forall e, xleb (XFin 0) (takerFee e) = true) ->
  xltb (XFin 0) (minProfitPercent (settings st)) = true ->
  In (EvOpportunity o) (snd (analyzePair takerFee now pair st)) ->
  exists q : Quote,
    analyse takerFee st pair = Some q
    /\ o = opportunityOf now pair st q
    /\ xltb (XFin 0) (pp_price (q_bestBuy q)) = true
    /\ xltb (pp_price (q_bestBuy q)) (q_sellPrice q) = true.
Proof.
  intros Hfees Hmin Hin.
  destruct (analyse takerFee st pair) as [q |] eqn:Hq.
  2: { rewrite (analyzePair_skips takerFee now pair st Hq) in Hin.
       contradiction. }
  exists q. split; [reflexivity |].
  apply opportunities_In in Hin.
  destruct (analyzePair_decision takerFee now pair st q Hq) as [Hops _].
  rewrite Hops in Hin.
  destruct (qualifies st q) eqn:Hqual; simpl in Hin; [| contradiction].
  destruct (cooledDown now pair st q); simpl in Hin; [| contradiction].
  destruct Hin as [<- | []]. split; [reflexivity |].
  destruct (analyse_Some_inv takerFee st pair q Hq)
    as (_ & _ & Hhead & _ & _ & Hspread & Hbf & Hsf & Hprofit).
  assert (Hbuy : xltb (XFin 0) (pp_price (q_bestBuy q)) = true).
  { assert (Hperm := sort_perm (A := Engine.PricePoint xnum) pp_price
                               (collectPrices st pair)).
    apply head_Some_elem_of in Hhead.
    change (q_bestBuy q ∈ sort (fun a b => num_sub (pp_price a) (pp_price b))
                               (collectPrices st pair)) in Hhead.
    rewrite Hperm in Hhead. apply list_elem_of_In in Hhead.
    apply collectPrices_In in Hhead as (t & (_ & _ & Hus) & Hprice).
    rewrite Hprice. now apply usable_positive in Hus as [Hask _]. }
  split; [exact Hbuy |].
  unfold qualifies in Hqual. rewrite Hprofit, Hspread, Hbf, Hsf in Hqual.
  now apply (profit_needs_spread _ _ _ _ _ Hbuy (Hfees _) (Hfees _) Hmin Hqual).
Qed.

End Exactly.
End ProfitFacts.


(** ** What the adapters emit *)

Module EmitFacts.
Import Json Adapters.

Section Runs.
Context {E : Type} (P : E -> Prop).

Lemma emits_ret {A} (a : A) : emits P (ret a : Run E A).
Proof. constructor. Qed.

Lemma emits_throw {A} : emits P (throw : Run E A).
Proof. constructor. Qed.

Lemma emits_lift {A} (o : option A) : emits P (lift o : Run E A).
Proof. destruct o; constructor. Qed.

Lemma emits_emit (ev : E) : P ev -> emits P (emit ev).
Proof. intros Hev. repeat constructor. exact Hev. Qed.

Lemma emits_bind {A B} (m : Run E A) (f : A -> Run E B) :
  emits P m -> (forall a, snd m = Some a -> emits P (f a)) -> emits P (bind m f).
Proof.
  unfold emits, bind. destruct m as [es [a |]]; simpl; intros Hm Hf.
  - specialize (Hf a eq_refl). destruct (f a) as [es' r]. simpl in *.
    apply Forall_app. now split.
  - exact Hm.
Qed.

Lemma emits_for_each {A} (l : list A) (body : A -> Run E unit) :
  (forall x, In x l -> emits P (body x)) -> emits P (for_each l body).
Proof.
  induction l as [| x l IH]; simpl; intros Hbody.
  - apply emits_ret.
  - apply emits_bind; [apply Hbody; now left |].
    intros _ _. apply IH. intros y Hy. apply Hbody. now right.
Qed.

Lemma emits_map_run {A B} (f : A -> Run E B) (l : list A) :
  (forall x, emits P (f x)) -> emits P (map_run f l).
Proof.
  intros Hf. induction l as [| x l IH]; simpl.
  - apply emits_ret.
  - apply emits_bind; [apply Hf |]. intros y _.
    apply emits_bind; [exact IH |]. intros ys _. apply emits_ret.
Qed.

End Runs.

Section WithNumbers.
Context {num : Type} `{JSNumber num}.
Variable P : Emitted num -> Prop.

Lemma emits_field (d : json num) k : emits P (field d k).
Proof. apply emits_lift. Qed.

Lemma emits_floatOr0 (d : json num) k : emits P (floatOr0 d k).
Proof.
  unfold floatOr0. apply emits_bind; [apply emits_field |].
  intros; apply emits_ret.
Qed.

Lemma emits_parseSymbolOf e (v : json num) : emits P (parseSymbolOf e v).
Proof. destruct v; first [apply emits_ret | apply emits_throw]. Qed.

Lemma emits_startsWithOf (v : json num) p : emits P (startsWithOf v p).
Proof. destruct v; first [apply emits_ret | apply emits_throw]. Qed.

Lemma emits_includesOf (v : json num) p : emits P (includesOf v p).
Proof. destruct v; first [apply emits_ret | apply emits_throw]. Qed.

Lemma emits_level (item : json num) : emits P (level item).
Proof.
  unfold level. apply emits_bind; [apply emits_lift |].
  intros; apply emits_ret.
Qed.

Lemma emits_levels (v : json num) : emits P (levels v).
Proof.
  unfold levels. destruct (truthy v); [| apply emits_ret].
  destruct v; try apply emits_throw. apply emits_map_run, emits_level.
Qed.

End WithNumbers.

(** Walks through a handler: every step that emits nothing is passed, every
    condition is decided both ways, and each emission is left to prove. *)
Ltac emits_step :=
  first
    [ apply emits_ret | apply emits_throw | apply emits_lift
    | apply emits_field | apply emits_floatOr0 | apply emits_parseSymbolOf
    | apply emits_startsWithOf | apply emits_includesOf | apply emits_levels
    | apply emits_bind; [| intros ? ?]
    | match goal with
      | |- emits _ (if ?c then _ else _) =>
          let E := fresh "Hif" in destruct c eqn:E
      | |- emits _ (match ?x with _ => _ end) =>
          let E := fresh "Hmatch" in destruct x eqn:E
      end
    | apply emits_emit ].

Ltac emits_walk := repeat emits_step.

Section Own.
Context {num : Type} `{JSNumber num}.

Lemma handleMessage_own e now (msg : json num) :
  emits (ownEmitted e) (handleMessage e now msg).
Proof.
  destruct e; cbn [handleMessage];
    unfold bybit_handleMessage, okx_handleMessage, mexc_handleMessage,
      bitget_handleMessage, gateio_handleMessage, kucoin_handleMessage,
      coinex_handleMessage, bingx_handleMessage,
      bybit_handleTicker, bybit_handleOrderBook, okx_handleTicker,
      okx_handleOrderBook, bitget_handleTicker, bitget_handleOrderBook,
      gateio_handleTicker, gateio_handleBookTicker, coinex_handleTickers,
      bingx_handleTicker, emitTicker, emitOrderBook.
  all: emits_walk; try reflexivity.
  all: try (apply emits_for_each; intros; unfold coinex_handleState, emitTicker;
            emits_walk; reflexivity).
Qed.

Lemma fetched_own e now pairs (r : FetchResult num) :
  emits (ownEmitted e)
        (match e with
         | mexc => mexc_fetched now pairs r
         | kucoin => kucoin_fetched now pairs r
         | _ => ret tt
         end).
Proof.
  destruct e; try apply emits_ret; unfold mexc_fetched, kucoin_fetched.
  all: emits_walk.
  all: apply emits_for_each; intros; unfold poll_item, emitTicker, emitOrderBook;
    emits_walk; reflexivity.
Qed.

(** [parseFloat(x) || 0] is above zero or at most zero, and it is above
    zero exactly when [parseFloat(x)] is. *)
Lemma or0_above (v : num) :
  NumberOrder num ->
  (num_or v zero <=? zero)%js = false -> (num_or v zero >? zero)%js = true.
Proof.
  intros L. unfold num_or, zero. destruct (num_truthy v) eqn:Hv.
  - now apply ord_truthy_positive.
  - now rewrite ord_zero.
Qed.

Lemma or0_below (v : num) :
  NumberOrder num ->
  (v >? zero)%js = false -> (num_or v zero <=? zero)%js = true.
Proof.
  intros L Hv. unfold num_or, zero in *. destruct (num_truthy v) eqn:Ht.
  - destruct (v <=? num_int 0)%js eqn:Hle; [reflexivity |].
    rewrite (ord_truthy_positive num L v Ht Hle) in Hv. discriminate.
  - now apply ord_zero.
Qed.

(** X12.  Every ticker CoinEx and BingX emit is made from a last price
    above zero, with the bid 0.9999 times and the ask 1.0001 times that
    price, and neither adapter emits an order book.  An entry whose last
    price does not parse to a number above zero (it is missing, not a
    number, zero or negative) is skipped: nothing is emitted for it. *)
Theorem coinex_and_bingx_quote_around_the_last_price now (msg : json num) :
  NumberOrder num ->
  emits aroundLast (coinex_handleMessage now msg)
  /\ emits aroundLast (bingx_handleMessage now msg)
  /\ (forall state last,
        get state "last" = Some last ->
        (parseFloat last >? zero)%js = false ->
        fst (coinex_handleState now state) = [])
  /\ (forall data c,
        get data "c" = Some c ->
        (parseFloat c >? zero)%js = false ->
        fst (bingx_handleTicker now data) = []).
Proof.
  intros L. split; [| split; [| split]].
  - unfold coinex_handleMessage, coinex_handleTickers. emits_walk.
    apply emits_for_each. intros state _.
    unfold coinex_handleState, emitTicker. emits_walk.
    match goal with
    | Hv : snd (floatOr0 _ "last") = Some ?v |- _ =>
        apply AdapterFacts.floatOr0_value in Hv as (j & _ & ->)
    end.
    simpl. split; [now apply or0_above | auto].
  - unfold bingx_handleMessage, bingx_handleTicker, emitTicker.
    emits_walk. simpl. split; [now apply or0_above | auto].
  - intros state last Hlast Hv.
    apply (AdapterFacts.coinex_skips_nonpositive now state last Hlast).
    now apply or0_below.
  - intros data c Hc Hv.
    apply (AdapterFacts.bingx_skips_nonpositive now data c Hc).
    now apply or0_below.
Qed.

Lemma poll_item_polled e kBid kAsk kLast kVol kChange scale now symbols
    (item : json num) :
  emits (polled e now symbols)
        (poll_item e kBid kAsk kLast kVol kChange scale now symbols item).
Proof.
  unfold poll_item, emitTicker, emitOrderBook, zero. emits_walk.
  all: apply negb_false_iff, existsb_exists in Hif as (sym & Hsym & Heq);
    apply String.eqb_eq in Heq; subst sym;
    apply andb_true_iff in Hif0 as [Hbid Hask].
  - simpl. unfold Engine.usable. simpl.
    split; [apply andb_true_iff; split; assumption | eauto].
  - simpl. eauto 10.
Qed.

(** X11.  Whatever a snapshot of MEXC or KuCoin holds, every ticker the
    connector emits from it is usable by the engine (its bid and its ask
    are positive), is stamped with the instant of the snapshot and belongs
    to a subscribed symbol, and every order book is the one-level book of
    such a ticker; a request that fails, or an answer that is not JSON,
    emits nothing. *)
Theorem polled_tickers_are_usable_and_subscribed
    now pairs (r : FetchResult num) :
  emits (polled mexc now (subscribedSymbols mexc pairs))
        (mexc_fetched now pairs r)
  /\ emits (polled kucoin now (subscribedSymbols kucoin pairs))
           (kucoin_fetched now pairs r)
  /\ ((forall body, r <> FetchBody (Some body)) ->
        fst (mexc_fetched now pairs r) = []
        /\ fst (kucoin_fetched now pairs r) = []).
Proof.
  split; [| split; [| intros Hnone; split]].
  - unfold mexc_fetched. emits_walk. apply emits_for_each. intros.
    apply poll_item_polled.
  - unfold kucoin_fetched. emits_walk. apply emits_for_each. intros.
    apply poll_item_polled.
  - destruct r as [| | [body |]]; try reflexivity. now contradiction (Hnone body).
  - destruct r as [| | [body |]]; try reflexivity. now contradiction (Hnone body).

Qed.

End Own.
End EmitFacts.


(** ** What a connector publishes *)

Module PublishFacts.
Import Json Adapters Connector ConnectorFacts EmitFacts.

Section WithNumbers.
Context {num : Type} `{JSNumber num}.
Variable JSON_parse : string -> option (json num).
Variable gunzipSync : string -> option string.
Variable inflateSync : string -> option string.

Abbreviation World := (Connector.World num).
Abbreviation step := (Connector.step JSON_parse gunzipSync inflateSync).
Abbreviation reachable := (Connector.reachable JSON_parse gunzipSync inflateSync).
Abbreviation on_message := (Connector.on_message JSON_parse gunzipSync inflateSync).

(** The part of a world a frame cannot change. *)
Let rest (w : World) := (self w, sockets w, timers w, nextTimer w, wire w, fetches w).

Lemma since_refl e (w : World) : publishedSince e w w.
Proof. exists []. split; [now rewrite app_nil_r | constructor]. Qed.

Lemma since_same e (w w' : World) :
  published w' = published w -> publishedSince e w w'.
Proof. intros Hp. exists []. split; [now rewrite app_nil_r | constructor]. Qed.

Lemma since_trans e (w1 w2 w3 : World) :
  publishedSince e w1 w2 -> publishedSince e w2 w3 -> publishedSince e w1 w3.
Proof.
  intros (ps & Hps & Hown) (qs & Hqs & Hown').
  exists (ps ++ qs). split.
  - now rewrite Hqs, Hps, app_assoc.
  - apply Forall_app. now split.
Qed.

Lemma since_publish e p (w : World) :
  ownEvent e p -> publishedSince e w (publish p w).
Proof. intros Hp. exists [p]. split; [reflexivity | now repeat constructor]. Qed.

Lemma since_emitStatus e now st msg (w : World) :
  publishedSince e w (emitStatus e now st msg w).
Proof. apply since_publish. reflexivity. Qed.

Lemma published_fold {A} (f : World -> A -> World) (l : list A) (w : World) :
  (forall w x, published (f w x) = published w) ->
  published (fold_left f l w) = published w.
Proof.
  intros Hf. revert w. induction l as [| x l IH]; intros w; simpl.
  - reflexivity.
  - now rewrite IH, Hf.
Qed.

Lemma published_send p (w : World) : published (send p w) = published w.
Proof. unfold send. now destruct (openSocket w). Qed.

Lemma published_sendAll ps (w : World) : published (sendAll ps w) = published w.
Proof. unfold sendAll. apply published_fold. intros. apply published_send. Qed.

Lemma published_bumpMessageId e (w : World) :
  published (bumpMessageId e w) = published w.
Proof. now destruct e. Qed.

Lemma published_sendSubscribe e now pairs (w : World) :
  published (sendSubscribe e now pairs w) = published w.
Proof.
  unfold sendSubscribe. now rewrite published_bumpMessageId, published_sendAll.
Qed.

Lemma published_sendUnsubscribe e now pairs (w : World) :
  published (sendUnsubscribe e now pairs w) = published w.
Proof.
  unfold sendUnsubscribe.
  now rewrite published_bumpMessageId, published_sendAll.
Qed.

Lemma published_sendPing e now (w : World) :
  published (sendPing e now w) = published w.
Proof.
  unfold sendPing. destruct e;
    rewrite ?published_bumpMessageId, ?published_send; try reflexivity;
    repeat case_if; rewrite ?published_send; try reflexivity.
  destruct (openSocket w); reflexivity.
Qed.

Lemma published_onConnected e now (w : World) :
  published (onConnected e now w) = published w.
Proof.
  unfold onConnected. destruct e; try reflexivity;
    repeat case_if; rewrite ?published_sendSubscribe; reflexivity.
Qed.

Lemma published_startPing (w : World) : published (startPing w) = published w.
Proof. reflexivity. Qed.

Lemma published_stopPing (w : World) : published (stopPing w) = published w.
Proof. unfold stopPing. now destruct (pingInterval (self w)). Qed.

Lemma published_scheduleReconnect (w : World) :
  published (scheduleReconnect w) = published w.
Proof. unfold scheduleReconnect. now destruct (reconnectTimeout (self w)). Qed.

Lemma published_stopPolling (w : World) :
  published (stopPolling w) = published w.
Proof. unfold stopPolling. now destruct (pollingInterval (self w)). Qed.

Lemma published_closeSocket i (w : World) :
  published (closeSocket i w) = published w.
Proof. unfold closeSocket. destruct (sockets w !! i) as [[] |]; reflexivity. Qed.

Lemma published_base_disconnect (w : World) :
  published (base_disconnect w) = published w.
Proof.
  unfold base_disconnect. cbv zeta.
  set (w1 := match reconnectTimeout (self w) with
             | Some id => on_self (set_reconnectTimeout None) (clearTimer id w)
             | None => w
             end).
  assert (H1 : published w1 = published w).
  { subst w1. now destruct (reconnectTimeout (self w)). }
  set (w2 := stopPing w1).
  assert (H2 : published w2 = published w)
    by (subst w2; now rewrite published_stopPing).
  destruct (ws (self w2)); simpl; rewrite ?published_closeSocket; exact H2.
Qed.

Lemma published_disconnect e (w : World) :
  published (disconnect e w) = published w.
Proof.
  unfold disconnect.
  destruct e; rewrite published_base_disconnect, ?published_stopPolling;
    reflexivity.
Qed.

Lemma published_subscribe e now pairs (w : World) :
  published (subscribe e now pairs w) = published w.
Proof.
  unfold subscribe. case_if; rewrite ?published_sendSubscribe; reflexivity.
Qed.

Lemma published_unsubscribe e now pairs (w : World) :
  published (unsubscribe e now pairs w) = published w.
Proof.
  unfold unsubscribe. case_if; rewrite ?published_sendUnsubscribe; reflexivity.
Qed.

Lemma since_startPolling e now (w : World) :
  publishedSince e w (startPolling e now w).
Proof.
  unfold startPolling. destruct (isPolling (self w)); [apply since_refl |].
  exists [PubStatus (mkStatus e StConnected now None)].
  split; [reflexivity | now repeat constructor].
Qed.

Lemma since_connect e now throws (w : World) :
  publishedSince e w (connect e now throws w).
Proof.
  assert (Hbase : publishedSince e w (base_connect e now throws w)).
  { unfold base_connect. destruct (openSocket w); [apply since_refl |].
    eapply since_trans; [apply (since_emitStatus e now StConnecting None) |].
    apply since_same. destruct throws.
    - apply published_scheduleReconnect.
    - reflexivity. }
  assert (Hpoll : publishedSince e w (polling_connect e now w)).
  { unfold polling_connect.
    eapply since_trans; [apply (since_emitStatus e now StConnecting None) |].
    apply since_startPolling. }
  unfold connect, useRestApi. destruct e; assumption.
Qed.

Lemma since_on_open e now (w : World) : publishedSince e w (on_open e now w).
Proof.
  unfold on_open. cbv zeta.
  eapply since_trans.
  - apply (since_emitStatus e now StConnected None
                            (on_self (set_isConnected true) w)).
  - apply since_same.
    now rewrite published_startPing, published_onConnected.
Qed.

Lemma since_on_close e now (w : World) : publishedSince e w (on_close e now w).
Proof.
  unfold on_close. cbv zeta.
  eapply since_trans.
  - apply (since_emitStatus e now StDisconnected None
                            (on_self (set_isConnected false) w)).
  - apply since_same.
    now rewrite published_scheduleReconnect, published_stopPing.
Qed.

Lemma runHandler_published (h : Handler num) (w : World) :
  published (runHandler h w)
  = published w ++ map (fun ev => match ev with
                                  | EmitTicker t => PubTicker t
                                  | EmitOrderBook o => PubOrderBook o
                                  end) (fst h)
  /\ rest (runHandler h w) = rest w.
Proof.
  unfold runHandler. revert w.
  induction (fst h) as [| ev evs IH]; intros w; simpl.
  - split; [now rewrite app_nil_r | reflexivity].
  - destruct (IH (publishEmitted ev w)) as [IHp IHr].
    rewrite IHp, IHr.
    destruct ev; simpl; rewrite <- app_assoc; split; reflexivity.
Qed.

Lemma since_runHandler e (h : Handler num) (w : World) :
  emits (ownEmitted e) h -> publishedSince e w (runHandler h w).
Proof.
  intros Hh. destruct (runHandler_published h w) as [Hp _].
  eexists. split; [exact Hp |].
  apply Forall_forall. intros p Hin.
  apply list_elem_of_In, in_map_iff in Hin as (ev & <- & Hev).
  apply list_elem_of_In in Hev.
  apply (proj1 (Forall_forall _ _) Hh) in Hev. now destruct ev.
Qed.

Lemma self_runHandler (h : Handler num) (w : World) :
  self (runHandler h w) = self w.
Proof.
  destruct (runHandler_published h w) as [_ Hr]. unfold rest in Hr. congruence.
Qed.

Lemma rest_countMessage e (w : World) :
  rest (countMessage e w)
  = (set_debugCount
       (if bool_decide (e = gateio) then gateio_debugCount (debugCount (self w))
        else debugCount (self w))
       (self w),
     sockets w, timers w, nextTimer w, wire w, fetches w).
Proof. destruct w as [[] ? ? ? ? ? ?]. now destruct e. Qed.

Lemma since_countMessage e (w : World) : publishedSince e w (countMessage e w).
Proof. apply since_same. now destruct e. Qed.

Lemma on_message_frame e now data (w : World) :
  (on_message e now data w = w
   \/ rest (on_message e now data w) = rest (countMessage e w))
  /\ publishedSince e w (on_message e now data w).
Proof.
  unfold Connector.on_message.
  destruct (decode gunzipSync inflateSync data) as [text |];
    [| split; [now left | apply since_refl]].
  destruct (String.eqb text ""); [split; [now left | apply since_refl] |].
  destruct (JSON_parse text) as [message |];
    [| split; [now left | apply since_refl]].
  destruct (runHandler_published (handleMessage e now message)
                                 (countMessage e w)) as [_ Hr].
  split; [now right |].
  eapply since_trans; [apply since_countMessage |].
  apply since_runHandler, handleMessage_own.
Qed.

(** X9.  Handling a frame leaves the sockets, the timers, the frames
    written and the pending requests as they are, and every field of the
    connector but the message counter of Gate.io; that counter goes up by
    one on each frame that parses until it is 20, whatever the rest of the
    handler does, and stays as it is on every other connector.  What the
    frame publishes carries the identifier of the exchange.  A frame that
    cannot be inflated, an empty text and a text that is not JSON change
    nothing at all. *)
Theorem a_frame_only_publishes e now data (w : World) :
  let w' := on_message e now data w in
  set_debugCount (debugCount (self w)) (self w') = self w
  /\ sockets w' = sockets w /\ timers w' = timers w
  /\ nextTimer w' = nextTimer w /\ wire w' = wire w /\ fetches w' = fetches w
  /\ publishedSince e w w'
  /\ (e <> gateio -> self w' = self w)
  /\ (forall text message,
        decode gunzipSync inflateSync data = Some text -> text <> "" ->
        JSON_parse text = Some message -> e = gateio ->
        debugCount (self w')
        = if (debugCount (self w) <? 20)%nat then S (debugCount (self w))
          else debugCount (self w))
  /\ (match decode gunzipSync inflateSync data with
      | Some text => text = "" \/ JSON_parse text = None
      | None => True
      end -> w' = w).
Proof.
  intros w'. destruct (on_message_frame e now data w) as [Hr Hs].
  assert (Hrest : rest w' = rest w
                  \/ rest w' = rest (countMessage e w)).
  { destruct Hr as [Hr | Hr]; [left; subst w'; now rewrite Hr | now right]. }
  clear Hr. rewrite rest_countMessage in Hrest. unfold rest in Hrest.
  assert (Hself : forall x : Exchange,
            set_debugCount (debugCount x) x = x) by now intros [].
  split; [| split; [| split; [| split; [| split; [| split; [| split;
    [exact Hs | split; [| split]]]]]]]].
  1-6: destruct Hrest as [Hr | Hr];
       injection Hr as Hself' Hsock Htim Hnext Hwire Hfet;
       try assumption.
  - rewrite Hself'. apply Hself.
  - rewrite Hself'. destruct (self w); reflexivity.
  - intros Hne. destruct Hrest as [Hr | Hr];
      injection Hr as Hself' _ _ _ _ _; rewrite Hself'; [reflexivity |].
    rewrite bool_decide_eq_false_2 by exact Hne. apply Hself.
  - intros text message Hd Hne Hp ->.
    subst w'. unfold Connector.on_message. rewrite Hd, Hp.
    destruct (String.eqb_spec text "") as [| _]; [contradiction |].
    rewrite self_runHandler. reflexivity.
  - subst w'. unfold Connector.on_message.
    destruct (decode gunzipSync inflateSync data) as [text |]; [| reflexivity].
    destruct (String.eqb_spec text "") as [| Hne]; [reflexivity |].
    destruct (JSON_parse text) as [message |]; [| reflexivity].
    intros [Hempty | Hnone]; [contradiction | discriminate].
Qed.

Lemma since_on_fetched e now r (w : World) :
  publishedSince e w (on_fetched e now r w).
Proof.
  unfold on_fetched.
  destruct e; try apply since_refl; apply since_runHandler.
  - apply (fetched_own mexc).
  - apply (fetched_own kucoin).
Qed.

Lemma since_step e now inp (w w' : World) :
  step e now inp w = Some w' -> publishedSince e w w'.
Proof.
  destruct inp as [throws | | pairs | pairs | i | i data | i msg | i
                  | id throws | r]; simpl; intros Hstep.
  - injection Hstep as <-. apply since_connect.
  - injection Hstep as <-. apply since_same, published_disconnect.
  - injection Hstep as <-. apply since_same, published_subscribe.
  - injection Hstep as <-. apply since_same, published_unsubscribe.
  - destruct (sockets w !! i) as [[] |]; try discriminate.
    injection Hstep as <-. apply (since_on_open e now (setSocket i OPEN w)).
  - destruct (on_message_frame e now data w) as [_ Hs].
    destruct (sockets w !! i) as [[] |]; try discriminate;
      injection Hstep as <-; exact Hs.
  - destruct (sockets w !! i) as [[] |]; try discriminate;
      injection Hstep as <-;
      apply (since_emitStatus e now StError (Some msg) (setSocket i CLOSING w)).
  - destruct (sockets w !! i) as [[] |]; try discriminate;
      injection Hstep as <-; apply (since_on_close e now (setSocket i CLOSED w)).
  - destruct (timerKind id w) as [[] |]; try discriminate;
      injection Hstep as <-.
    + apply (since_connect e now throws
               (on_self (set_reconnectTimeout None) (clearTimer id w))).
    + apply since_same, published_sendPing.
    + now apply since_same.
  - destruct (fetches w); [discriminate |]. injection Hstep as <-.
    apply (since_on_fetched e now r (set_fetches n w)).
Qed.

Lemma reachable_own e (w : World) :
  reachable e w -> Forall (ownEvent e) (published w).
Proof.
  induction 1 as [| w now inp w' _ IH Hstep].
  - constructor.
  - apply since_step in Hstep as (ps & Hps & Hown).
    rewrite Hps. apply Forall_app. now split.
Qed.

Lemma deliverAll_other e (ps : list (Published num)) (st : Engine.State num)
    e' pair :
  Forall (ownEvent e) ps -> e' <> e ->
  Engine.tickers (Wiring.deliverAll ps st) !! Engine.tickerKey e' pair
  = Engine.tickers st !! Engine.tickerKey e' pair.
Proof.
  unfold Wiring.deliverAll. revert st.
  induction ps as [| p ps IH]; intros st Hown Hne; simpl.
  - reflexivity.
  - apply Forall_cons in Hown as [Hp Hps]. rewrite IH by assumption.
    destruct p as [s | t | o]; try reflexivity. simpl in *.
    apply lookup_insert_ne. intros Hkey.
    apply KeyFacts.tickerKey_inj in Hkey as [He _]. congruence.
Qed.

(** X13.  Every event a connector publishes carries the identifier of its
    own exchange; so when the listener of the server files the tickers of a
    connector in the cache of the engine, the entries of every other
    exchange stay as they are. *)
Theorem a_connector_writes_only_its_own_cache_entries
    e (w : World) (st : Engine.State num) :
  reachable e w ->
  Forall (ownEvent e) (published w)
  /\ forall e' pair,
       e' <> e ->
       Engine.tickers (Wiring.deliverAll (published w) st)
         !! Engine.tickerKey e' pair
       = Engine.tickers st !! Engine.tickerKey e' pair.
Proof.
  intros Hreach. pose proof (reachable_own e w Hreach) as Hown.
  split; [exact Hown |]. intros e' pair Hne. now apply deliverAll_other with e.
Qed.

End WithNumbers.
End PublishFacts.


(** ** The polling connectors *)

Module PollingFacts.
Import Json Adapters Connector ConnectorFacts EmitFacts PublishFacts.

Section WithNumbers.
Context {num : Type} `{JSNumber num}.
Variable JSON_parse : string -> option (json num).
Variable gunzipSync : string -> option string.
Variable inflateSync : string -> option string.

Abbreviation World := (Connector.World num).
Abbreviation step := (Connector.step JSON_parse gunzipSync inflateSync).
Abbreviation reachable := (Connector.reachable JSON_parse gunzipSync inflateSync).

(** What a polling connector keeps true. *)
Let polling (w : World) : Prop :=
  sockets w = [] /\ wire w = [] /\ ws (self w) = None
  /\ reconnectTimeout (self w) = None /\ pingInterval (self w) = None
  /\ timers w = pollingTimers (self w)
  /\ isPolling (self w)
     = match pollingInterval (self w) with Some _ => true | None => false end
  /\ isConnected (self w) = isPolling (self w).

Lemma polling_runHandler h (w : World) : polling w -> polling (runHandler h w).
Proof.
  destruct (runHandler_published h w) as [_ Hrest].
  injection Hrest as Hself Hsock Htim _ Hwire _.
  unfold polling. now rewrite Hself, Hsock, Htim, Hwire.
Qed.

Lemma polling_step e now inp (w w' : World) :
  polls e = true -> step e now inp w = Some w' -> polling w -> polling w'.
Proof.
  intros He Hstep Hinv.
  destruct inp as [throws | | pairs | pairs | i | i data | i msg | i
                  | id throws | r].
  10: { simpl in Hstep. destruct (fetches w) as [| fe]; [discriminate |].
        injection Hstep as <-. unfold on_fetched.
        destruct e; try discriminate; apply polling_runHandler; exact Hinv. }
  all: destruct w as [[wso isC rt pi sp mid poll isP] ss ts n wi pu fe].
  all: unfold polling, pollingTimers in *; simpl in Hinv.
  all: destruct Hinv as (-> & -> & -> & -> & -> & -> & -> & ->).
  all: simpl in Hstep; try discriminate.
  - injection Hstep as <-.
    destruct e; try discriminate; destruct poll; simpl; auto 10.
  - injection Hstep as <-.
    destruct e; try discriminate; destruct poll; simpl;
      unfold without; simpl; rewrite ?Nat.eqb_refl; simpl; auto 10.
  - injection Hstep as <-.
    destruct e; try discriminate; destruct poll; simpl; auto 10.
  - injection Hstep as <-.
    destruct e; try discriminate; destruct poll; simpl; auto 10.
  - unfold timerKind in Hstep. simpl in Hstep.
    destruct poll as [p |]; simpl in Hstep; [| discriminate].
    destruct (p =? id)%nat; simpl in Hstep; [| discriminate].
    injection Hstep as <-. simpl. auto 10.
Qed.

(** X10.  A polling connector (MEXC, KuCoin) never opens a socket and never
    writes a frame; the only timer it ever has armed is its polling
    interval, armed exactly while it polls, however often [connect()] is
    called; and it reports itself connected exactly while it polls. *)
Theorem a_polling_connector_owns_one_timer e (w : World) :
  polls e = true -> reachable e w ->
  sockets w = [] /\ wire w = []
  /\ timers w = pollingTimers (self w)
  /\ isPolling (self w)
     = match pollingInterval (self w) with Some _ => true | None => false end
  /\ isConnected (self w) = isPolling (self w).
Proof.
  intros He Hreach.
  assert (Hinv : polling w).
  { induction Hreach as [| w now inp w' _ IH Hstep].
    - repeat split.
    - eapply polling_step; eauto. }
  destruct Hinv as (? & ? & _ & _ & _ & ? & ? & ?). auto.
Qed.

End WithNumbers.
End PollingFacts.


(** ** The Telegram notifier *)

Module TelegramFacts.
Import Json Engine Telegram.

Section WithNumbers.
Context {num : Type} `{JSNumber num}.
Variable toFixed : nat -> num -> string.
Variable toLocaleTimeString : Z -> string.
Variable toString : json num -> string.
Variable exchangeName : ExchangeId -> string.

Abbreviation sendOpportunity :=
  (Telegram.sendOpportunity toFixed toLocaleTimeString toString exchangeName).

Lemma present_Some (v : option string) :
  present v = true -> exists s, v = Some s /\ s <> "".
Proof.
  destruct v as [s |]; simpl; [| discriminate].
  intros Hs. exists s. split; [reflexivity |].
  intros ->. discriminate.
Qed.

Lemma configured_request (svc : TelegramService) text :
  isConfigured svc = true ->
  exists token chat,
    botToken svc = Some token /\ chatId svc = Some chat
    /\ sendMessage_request (num := num) svc text
       = Some (mkRequest
                 ("https://api.telegram.org/bot" +:+ token +:+ "/sendMessage")
                 (JObj [("chat_id", JStr chat); ("text", JStr text);
                        ("parse_mode", JStr "Markdown");
                        ("disable_web_page_preview", JBool true)])).
Proof.
  unfold isConfigured, sendMessage_request. intros Hc.
  apply andb_true_iff in Hc as [Ht Hch]. rewrite Ht, Hch.
  apply present_Some in Ht as (token & -> & _).
  apply present_Some in Hch as (chat & -> & _).
  exists token, chat. auto.
Qed.

(** X15.  [sendOpportunity] resolves to [null], without a request, exactly
    when the notifier is disabled or lacks its token or its chat.
    Otherwise it makes one request to the bot of the token and always
    resolves to a signal for the opportunity: one that is marked delivered
    when the answer of Telegram has a truthy [ok], and one that is marked
    undelivered when the request fails or the answer says otherwise. *)
Theorem sendOpportunity_always_answers_with_a_signal
    (svc : TelegramService) (o : ArbitrageOpportunity num) (now : Z)
    (reply : Reply num) :
  let result := sendOpportunity svc o now reply in
  (enabled svc && isConfigured svc = false -> result = (None, None))
  /\ (enabled svc && isConfigured svc = true ->
      exists token request,
        botToken svc = Some token
        /\ fst result = Some request
        /\ rq_url request
           = "https://api.telegram.org/bot" +:+ token +:+ "/sendMessage"
        /\ snd result
           = Some (mkSignal o now
                     (match reply with
                      | ReplyJson data => truthy (get_opt data "ok")
                      | ReplyRejected => false
                      end)
                     (match reply with
                      | ReplyJson data =>
                          if truthy (get_opt data "ok")
                          then messageIdOf toString data else None
                      | ReplyRejected => None
                      end))).
Proof.
  unfold Telegram.sendOpportunity, declines. split.
  - intros Hoff. apply andb_false_iff in Hoff as [-> | ->]; simpl;
      rewrite ?orb_true_r; reflexivity.
  - intros Hon. apply andb_true_iff in Hon as [-> Hc]. rewrite Hc. simpl.
    destruct (configured_request
                svc (opportunityText toFixed toLocaleTimeString exchangeName o)
                Hc) as (token & chat & Htoken & _ & Hreq).
    unfold sendMessage. rewrite Hreq. simpl.
    exists token. eexists. repeat split; [exact Htoken |].
    unfold signalOf, sendMessage_result, get_opt. f_equal. f_equal.
    + destruct reply as [| data]; [reflexivity |].
      destruct (get data "ok") as [ok |]; [| reflexivity].
      now destruct (truthy ok).
    + destruct reply as [| data]; [reflexivity |].
      destruct (get data "ok") as [ok |]; [| reflexivity].
      now destruct (truthy ok).
Qed.

End WithNumbers.
End TelegramFacts.

(** ** The server *)

Module ServerFacts.
Import Json Engine JSArray Telegram Server ArrayFacts.

Section WithNumbers.
Context {num : Type} `{JSNumber num}.
Variable takerFee : ExchangeId -> num.
Variable toFixed : nat -> num -> string.
Variable toLocaleTimeString : Z -> string.
Variable toISOString : Z -> string.
Variable toString : json num -> string.
Variable exchangeName : ExchangeId -> string.
Variable EXCHANGES : list ExchangeId.
Variable TRADING_PAIRS : list string.

Abbreviation Server := (Server.Server num).
Abbreviation onOpportunity :=
  (Server.onOpportunity toFixed toLocaleTimeString exchangeName).
Abbreviation onEvent :=
  (Server.onEvent toFixed toLocaleTimeString exchangeName).
Abbreviation onScan :=
  (Server.onScan takerFee toFixed toLocaleTimeString exchangeName).
Abbreviation step :=
  (Server.step takerFee toFixed toLocaleTimeString toISOString toString
               exchangeName).
Abbreviation reachable :=
  (Server.reachable takerFee toFixed toLocaleTimeString toISOString toString
                    exchangeName EXCHANGES TRADING_PAIRS).

(** The lists of the server stay within their bounds. *)
Let bounded (s : Server) : Prop :=
  (length (opportunities s) <= 100)%nat /\ (length (signals s) <= 50)%nat.

(** The notifier is switched on whenever the setting is, and keeps the
    token and the chat it was built with. *)
Let agrees (token chat : option string) (s : Server) : Prop :=
  (telegramEnabled (settings (arbitrageEngine s)) = true ->
   enabled (telegramService s) = true)
  /\ botToken (telegramService s) = orNull token
  /\ chatId (telegramService s) = orNull chat.

Lemma onOpportunity_keeps o (s : Server) :
  arbitrageEngine (onOpportunity o s) = arbitrageEngine s
  /\ telegramService (onOpportunity o s) = telegramService s
  /\ signals (onOpportunity o s) = signals s
  /\ opportunities (onOpportunity o s) = unshiftCapped 100 o (opportunities s).
Proof.
  unfold Server.onOpportunity. cbv zeta. simpl.
  repeat case_if; simpl; auto.
Qed.

Lemma onEvent_bounded ev (s : Server) : bounded s -> bounded (onEvent ev s).
Proof.
  intros [Ho Hs]. destruct ev as [a | o]; simpl.
  - split; assumption.
  - destruct (onOpportunity_keeps o s) as (_ & _ & Hsig & Hopp).
    unfold bounded. rewrite Hsig, Hopp. split; [| exact Hs].
    now apply (unshiftCapped_length 100).
Qed.

Lemma onEvent_keeps ev (s : Server) :
  arbitrageEngine (onEvent ev s) = arbitrageEngine s
  /\ telegramService (onEvent ev s) = telegramService s.
Proof.
  destruct ev as [a | o]; simpl; [auto |].
  destruct (onOpportunity_keeps o s) as (He & Ht & _). auto.
Qed.

Lemma events_bounded evs (s : Server) :
  bounded s -> bounded (fold_left (fun s ev => onEvent ev s) evs s).
Proof.
  revert s. induction evs as [| ev evs IH]; intros s Hs; simpl; [exact Hs |].
  apply IH. now apply onEvent_bounded.
Qed.

Lemma events_keep evs (s : Server) :
  let s' := fold_left (fun s ev => onEvent ev s) evs s in
  arbitrageEngine s' = arbitrageEngine s
  /\ telegramService s' = telegramService s.
Proof.
  revert s. induction evs as [| ev evs IH]; intros s; simpl; [auto |].
  destruct (IH (onEvent ev s)) as [He Ht].
  destruct (onEvent_keeps ev s) as [He' Ht']. simpl in *.
  split; congruence.
Qed.

Lemma step_bounded now inp (s s' : Server) :
  step now inp s = Some s' -> bounded s -> bounded s'.
Proof.
  destruct inp as [ex t | st | | i reply | p |]; simpl; intros Hstep Hb.
  - injection Hstep as <-. exact Hb.
  - injection Hstep as <-. exact Hb.
  - injection Hstep as <-. unfold Server.onScan.
    destruct (analyzeAllPairs takerFee now (arbitrageEngine s)) as [eng evs].
    apply events_bounded. exact Hb.
  - unfold onTelegramReply in Hstep.
    destruct (awaiting s !! i) as [[o rq] |]; [| discriminate].
    injection Hstep as <-. destruct Hb as [Ho Hs]. split; simpl.
    + exact Ho.
    + now apply (unshiftCapped_length 50).
  - injection Hstep as <-. destruct p as [p |]; exact Hb.
  - injection Hstep as <-. exact Hb.
Qed.

Lemma server_run_reachable token chat trace (s s' : Server) :
  reachable token chat s ->
  Server.run takerFee toFixed toLocaleTimeString toISOString toString
             exchangeName trace s = Some s' ->
  reachable token chat s'.
Proof.
  revert s. induction trace as [| [now inp] trace IH]; simpl; intros s Hs Hrun.
  - now injection Hrun as <-.
  - destruct (step now inp s) as [s1 |] eqn:Hstep; [| discriminate].
    apply (IH s1); [| exact Hrun]. econstructor; eassumption.
Qed.

(** X16.  The server never keeps more than 100 opportunities nor more than
    50 signals. *)
Theorem server_lists_stay_bounded token chat (s : Server) :
  reachable token chat s ->
  (length (opportunities s) <= 100)%nat /\ (length (signals s) <= 50)%nat.
Proof.
  induction 1 as [| s now inp s' _ IH Hstep].
  - split; simpl; lia.
  - exact (step_bounded now inp s s' Hstep IH).
Qed.

Lemma step_agrees token chat now inp (s s' : Server) :
  step now inp s = Some s' -> agrees token chat s -> agrees token chat s'.
Proof.
  destruct inp as [ex t | st | | i reply | p |]; simpl; intros Hstep Ha.
  - injection Hstep as <-. exact Ha.
  - injection Hstep as <-. exact Ha.
  - injection Hstep as <-. unfold Server.onScan.
    pose proof (ScanFacts.scan_from
                  takerFee now (arbitrageEngine s)
                  (enabledPairs (settings (arbitrageEngine s)))
                  (arbitrageEngine s, []) eq_refl eq_refl) as (_ & Hset & _).
    cbv zeta in Hset. fold (analyzeAllPairs takerFee now (arbitrageEngine s)) in Hset.
    destruct (analyzeAllPairs takerFee now (arbitrageEngine s)) as [eng evs].
    destruct (events_keep evs (set_engine eng s)) as [He Ht].
    unfold agrees. cbv zeta in He, Ht. rewrite He, Ht. simpl in *.
    rewrite Hset. exact Ha.
  - unfold onTelegramReply in Hstep.
    destruct (awaiting s !! i) as [[o rq] |]; [| discriminate].
    injection Hstep as <-. exact Ha.
  - injection Hstep as <-. destruct p as [p |]; [| exact Ha].
    destruct Ha as (Hen & Htok & Hchat). unfold agrees. simpl.
    repeat split; auto.
    destruct (p_telegramEnabled p) as [b |]; simpl; auto.
  - injection Hstep as <-. exact Ha.
Qed.

(** X17.  The notifier keeps the token and the chat it was built with, and
    it is switched on whenever the setting [telegramEnabled] of the engine
    is.  So the listener of ["opportunity"] makes a request to Telegram, and
    waits for its answer, exactly when that setting is on and the notifier
    is configured; the notifier never declines then. *)
Theorem notifier_is_on_whenever_the_setting_is token chat (s : Server) :
  reachable token chat s ->
  (telegramEnabled (settings (arbitrageEngine s)) = true ->
   enabled (telegramService s) = true)
  /\ isConfigured (telegramService s)
     = isConfigured (Telegram.create token chat)
  /\ forall o,
       let s' := onOpportunity o s in
       if telegramEnabled (settings (arbitrageEngine s))
          && isConfigured (Telegram.create token chat)
       then exists request,
              requests s' = requests s ++ [request]
              /\ awaiting s' = awaiting s ++ [(o, Some request)]
       else requests s' = requests s /\ awaiting s' = awaiting s.
Proof.
  intros Hreach.
  assert (Ha : agrees token chat s).
  { induction Hreach as [| s now inp s' _ IH Hstep].
    - repeat split.
    - exact (step_agrees token chat now inp s s' Hstep IH). }
  destruct Ha as (Hen & Htok & Hchat).
  assert (Hconf : isConfigured (telegramService s)
                  = isConfigured (Telegram.create token chat)).
  { unfold isConfigured. now rewrite Htok, Hchat. }
  split; [exact Hen |]. split; [exact Hconf |].
  intros o s'. subst s'. rewrite <- Hconf.
  unfold Server.onOpportunity, declines, getSettings. cbv zeta. simpl.
  destruct (telegramEnabled (settings (arbitrageEngine s))) eqn:Hset;
    simpl; [| auto].
  destruct (isConfigured (telegramService s)) eqn:Hc; simpl; [| auto].
  rewrite (Hen eq_refl). simpl.
  destruct (TelegramFacts.configured_request
              (num := num) (telegramService s)
              (opportunityText toFixed toLocaleTimeString exchangeName o) Hc)
    as (tk & ch & _ & _ & Hreq).
  rewrite Hreq. simpl. eauto.
Qed.

End WithNumbers.
End ServerFacts.


(** ** The signals of the server *)

Module SignalFacts.
Import Json Engine JSArray Telegram Server ArrayFacts.

Section WithNumbers.
Context {num : Type} `{JSNumber num}.
Variable takerFee : ExchangeId -> num.
Variable toFixed : nat -> num -> string.
Variable toLocaleTimeString : Z -> string.
Variable toISOString : Z -> string.
Variable toString : json num -> string.
Variable exchangeName : ExchangeId -> string.
Variable EXCHANGES : list ExchangeId.
Variable TRADING_PAIRS : list string.

Abbreviation Server := (Server.Server num).
Abbreviation onOpportunity :=
  (Server.onOpportunity toFixed toLocaleTimeString exchangeName).
Abbreviation onEvent :=
  (Server.onEvent toFixed toLocaleTimeString exchangeName).
Abbreviation step :=
  (Server.step takerFee toFixed toLocaleTimeString toISOString toString
               exchangeName).
Abbreviation reachable :=
  (Server.reachable takerFee toFixed toLocaleTimeString toISOString toString
                    exchangeName EXCHANGES TRADING_PAIRS).

(** The opportunity [o] went out to the clients. *)
Let sent (s : Server) (o : ArbitrageOpportunity num) : Prop :=
  In (MsgOpportunity o) (broadcasts s).

Let backed (s : Server) : Prop :=
  (forall g, In g (signals s) -> sent s (sg_opportunity g))
  /\ (forall g, In (MsgSignal g) (broadcasts s) -> sent s (sg_opportunity g))
  /\ (forall o rq, In (o, rq) (awaiting s) -> sent s o).

Lemma unshiftCapped_In {A} cap (x y : A) l :
  In y (unshiftCapped cap x l) -> y = x \/ In y l.
Proof.
  unfold unshiftCapped. cbv zeta. intros Hy.
  assert (Hin : In y (x :: l)).
  { destruct (cap <? length (x :: l))%nat; [| exact Hy].
    rewrite removelast_firstn_len in Hy.
    apply list_elem_of_In. apply list_elem_of_In in Hy.
    apply elem_of_take in Hy as (i & Hy & _).
    now apply list_elem_of_lookup_2 in Hy. }
  destruct Hin as [-> | Hin]; auto.
Qed.

Lemma delete_In {A} i (x : A) (l : list A) : In x (delete i l) -> In x l.
Proof.
  intros Hx. apply list_elem_of_In. apply list_elem_of_In in Hx.
  now apply list_elem_of_delete_inv in Hx.
Qed.

Lemma onOpportunity_backed o (s : Server) : backed s -> backed (onOpportunity o s).
Proof.
  intros (Hsig & Hmsg & Haw).
  unfold Server.onOpportunity, backed, sent. cbv zeta.
  repeat case_if; simpl; repeat split.
  all: try (intros g Hg; apply in_or_app; left; now apply Hsig).
  all: try (intros g Hg; apply in_app_or in Hg as [Hg | [Hg | []]];
            [apply in_or_app; left; now apply Hmsg | discriminate]).
  all: try (intros o' rq Hin; apply in_or_app; left; now apply (Haw o' rq)).
  intros o' rq Hin. apply in_app_or in Hin as [Hin | [Hin | []]].
  - apply in_or_app. left. now apply (Haw o' rq).
  - injection Hin as <- _. apply in_or_app. right. now left.
Qed.

Lemma onEvent_backed ev (s : Server) : backed s -> backed (onEvent ev s).
Proof.
  destruct ev as [a | o]; [| apply onOpportunity_backed].
  intros (Hsig & Hmsg & Haw). unfold backed, sent. simpl. repeat split.
  - intros g Hg. apply in_or_app. left. now apply Hsig.
  - intros g Hg. apply in_app_or in Hg as [Hg | [Hg | []]];
      [apply in_or_app; left; now apply Hmsg | discriminate].
  - intros o rq Hin. apply in_or_app. left. now apply (Haw o rq).
Qed.

Lemma events_backed evs (s : Server) :
  backed s -> backed (fold_left (fun s ev => onEvent ev s) evs s).
Proof.
  revert s. induction evs as [| ev evs IH]; intros s Hs; simpl; [exact Hs |].
  apply IH. now apply onEvent_backed.
Qed.

Lemma broadcast_backed (m : WSMessage num) (s : Server) :
  (forall g, m <> MsgSignal g) -> backed s -> backed (broadcast m s).
Proof.
  intros Hm (Hsig & Hmsg & Haw). unfold backed, sent. simpl. repeat split.
  - intros g Hg. apply in_or_app. left. now apply Hsig.
  - intros g Hg. apply in_app_or in Hg as [Hg | [Hg | []]];
      [apply in_or_app; left; now apply Hmsg | now contradiction (Hm g)].
  - intros o rq Hin. apply in_or_app. left. now apply (Haw o rq).
Qed.

Lemma step_backed now inp (s s' : Server) :
  step now inp s = Some s' -> backed s -> backed s'.
Proof.
  destruct inp as [ex t | st | | i reply | p |]; simpl; intros Hstep Hb.
  - injection Hstep as <-. unfold onTicker. cbv zeta.
    apply (broadcast_backed (MsgTicker t) s) in Hb; [| discriminate].
    exact Hb.
  - injection Hstep as <-. apply broadcast_backed; [discriminate | exact Hb].
  - injection Hstep as <-. unfold Server.onScan.
    destruct (analyzeAllPairs takerFee now (arbitrageEngine s)) as [eng evs].
    apply events_backed. exact Hb.
  - unfold onTelegramReply in Hstep.
    destruct (awaiting s !! i) as [[o rq] |] eqn:Hi; [| discriminate].
    injection Hstep as <-. destruct Hb as (Hsig & Hmsg & Haw).
    assert (Ho : sent s o).
    { apply (Haw o rq). apply list_elem_of_In.
      now apply list_elem_of_lookup_2 in Hi. }
    unfold backed, sent in *. simpl. repeat split.
    + intros g Hg. apply in_or_app. left.
      apply unshiftCapped_In in Hg as [-> | Hg]; [exact Ho | now apply Hsig].
    + intros g Hg. apply in_or_app. left.
      apply in_app_or in Hg as [Hg | [Hg | []]]; [now apply Hmsg |].
      injection Hg as <-. exact Ho.
    + intros o' rq' Hin. apply in_or_app. left.
      apply delete_In in Hin. now apply (Haw o' rq').
  - injection Hstep as <-. destruct p as [p |]; [| exact Hb].
    unfold onUpdateSettings. cbv zeta.
    destruct Hb as (Hsig & Hmsg & Haw). unfold backed, sent. simpl.
    repeat split.
    + intros g Hg. apply in_or_app. left. now apply Hsig.
    + intros g Hg. apply in_app_or in Hg as [Hg | [Hg | []]];
        [apply in_or_app; left; now apply Hmsg | discriminate].
    + intros o rq Hin. apply in_or_app. left. now apply (Haw o rq).
  - injection Hstep as <-. exact Hb.
Qed.

(** X18.  Every signal the server keeps, and every signal it has sent to
    the clients, is for an opportunity it has sent to the clients
    before. *)
Theorem every_signal_follows_its_opportunity token chat (s : Server) :
  reachable token chat s ->
  (forall g, In g (signals s) ->
             In (MsgOpportunity (sg_opportunity g)) (broadcasts s))
  /\ (forall g, In (MsgSignal g) (broadcasts s) ->
                In (MsgOpportunity (sg_opportunity g)) (broadcasts s)).
Proof.
  intros Hreach.
  assert (Hb : backed s).
  { induction Hreach as [| s now inp s' _ IH Hstep].
    - repeat split; intros; contradiction.
    - exact (step_backed now inp s s' Hstep IH). }
  destruct Hb as (Hsig & Hmsg & _). split; assumption.
Qed.

End WithNumbers.
End SignalFacts.


(** ** The MEXC client and its routes *)

Module MexcFacts.
Import JSString Json MexcApi Server.

Section WithNumbers.
Context {num : Type} `{JSNumber num}.
Variable hmacSha256Hex : string -> string -> string.
Variable urlencode : string -> string.
Variable toString : json num -> string.

Local Open Scope js_scope.

(** X19.  [getBalance(asset)] answers with a balance of the account whose
    asset is the one asked for, letter case apart, and whose free or locked
    amount is positive; the route of a balance sends that balance.  When
    the account has no such balance, [getBalance] answers [null] and the
    route sends a balance of zero for the asset. *)
Theorem getBalance_answers_with_a_funded_balance
    (asset_ : string) (balances : list MexcBalance) :
  let funded (b : MexcBalance) :=
    (parseFloat_string (num := num) (free b) >? num_int 0)
    || (parseFloat_string (num := num) (locked b) >? num_int 0) in
  let named (b : MexcBalance) :=
    toUpperCase (asset b) = toUpperCase asset_ in
  match getBalance (num := num) asset_ balances with
  | Some b =>
      In b balances /\ named b /\ funded b = true
      /\ balanceOf (num := num) asset_ balances = b
  | None =>
      (forall b, In b balances -> named b -> funded b = false)
      /\ balanceOf (num := num) asset_ balances = mkBalance asset_ "0" "0"
  end.
Proof.
  intros funded named. unfold balanceOf.
  destruct (getBalance asset_ balances) as [b |] eqn:Hget.
  - unfold getBalance in Hget. apply find_some in Hget as [Hin Hname].
    apply filter_In in Hin as [Hin Hfunded].
    apply String.eqb_eq in Hname. auto.
  - split; [| reflexivity]. intros b Hin Hname.
    destruct (funded b) eqn:Hf; [| reflexivity].
    unfold getBalance in Hget.
    assert (Hb : In b (getBalances (num := num) balances))
      by (apply filter_In; split; assumption).
    apply (find_none _ _ Hget) in Hb.
    unfold named in Hname. rewrite Hname, String.eqb_refl in Hb. discriminate.
Qed.

Abbreviation postOrder := (Server.postOrder toString hmacSha256Hex urlencode).

Lemma requireMexcAuth_next token auth :
  requireMexcAuth token auth = None ->
  exists t, token = Some t /\ t <> "" /\ auth = Some ("Bearer " +:+ t).
Proof.
  unfold requireMexcAuth.
  destruct token as [t |]; [| discriminate].
  destruct (String.eqb_spec t "") as [| Hne]; [discriminate |].
  destruct auth as [a |]; [| discriminate].
  destruct (String.eqb_spec a "") as [| Hne']; [discriminate |]. simpl.
  destruct (String.eqb_spec a ("Bearer " +:+ t)) as [-> |]; [| discriminate].
  intros _. exists t. auto.
Qed.

Lemma signedRequest_call config now method endpoint params call :
  signedRequest hmacSha256Hex urlencode toString config now method endpoint
                params = Returned call ->
  isConfigured config = true
  /\ c_method call = method /\ c_apiKey call = Some (apiKey config).
Proof.
  unfold signedRequest, isConfigured.
  destruct (nonEmpty (apiKey config)), (nonEmpty (secretKey config));
    simpl; try discriminate.
  intros Hc. injection Hc as <-. auto.
Qed.

(** X20.  The route that places an order makes a request to MEXC only when
    the access token is set and the request carries it as a bearer token,
    the keys of the API are configured, the order names a symbol, a side, a
    type and a quantity, and a limit order names a price; the request is
    then a POST that carries the API key. *)
Theorem an_order_goes_out_only_when_authorised
    token auth config now (body : json num) call :
  postOrder token auth config now body = Calls call ->
  (exists t, token = Some t /\ t <> "" /\ auth = Some ("Bearer " +:+ t))
  /\ isConfigured config = true
  /\ truthy (get_opt body "symbol") = true
  /\ truthy (get_opt body "side") = true
  /\ truthy (get_opt body "type") = true
  /\ truthy (get_opt body "quantity") = true
  /\ (is_str (get_opt body "type") "LIMIT" = true ->
      truthy (get_opt body "price") = true)
  /\ c_method call = "POST"
  /\ c_apiKey call = Some (apiKey config).
Proof.
  unfold Server.postOrder.
  destruct (requireMexcAuth token auth) as [[status error] |] eqn:Hauth;
    [discriminate |].
  apply requireMexcAuth_next in Hauth.
  destruct (isConfigured config) eqn:Hconf; simpl; [| discriminate].
  destruct (get body "symbol") as [sym |]; [| discriminate].
  unfold placeOrder. simpl.
  destruct (truthy (get_opt body "symbol")) eqn:Hsym; simpl;
    [| discriminate].
  destruct (truthy (get_opt body "side")) eqn:Hside; simpl; [| discriminate].
  destruct (truthy (get_opt body "type")) eqn:Htype; simpl; [| discriminate].
  destruct (truthy (get_opt body "quantity")) eqn:Hqty; simpl;
    [| discriminate].
  destruct (is_str (get_opt body "type") "LIMIT") eqn:Hlimit; simpl.
  - destruct (truthy (get_opt body "price")) eqn:Hprice; simpl;
      [| discriminate].
    destruct (get_opt body "symbol"); try discriminate.
    destruct (signedRequest _ _ _ _ _ _ _ _) as [m | | c] eqn:Hreq;
      try discriminate.
    intros Hc. injection Hc as ->.
    apply signedRequest_call in Hreq as (_ & Hm & Hk). auto 10.
  - destruct (get_opt body "symbol"); try discriminate.
    destruct (signedRequest _ _ _ _ _ _ _ _) as [m | | c] eqn:Hreq;
      try discriminate.
    intros Hc. injection Hc as ->.
    apply signedRequest_call in Hreq as (_ & Hm & Hk).
    repeat split; auto. discriminate.
Qed.

End WithNumbers.
End MexcFacts.

(** ** The dashboard *)

Module ClientFacts.
Import JSArray Client ArrayFacts.

Section Toggle.
Context {A : Type} `{EqDecision A}.

(** X21.  A toggle of the settings dialog switches the membership of the
    entry it is given and of no other, keeps a list without duplicates
    free of them, and, applied twice to an entry that was absent, gives
    the list back. *)
Theorem toggle_flips_one_entry (x : A) (current : list A) :
  (x ∈ toggle x current <-> x ∉ current)
  /\ (forall y, y <> x -> (y ∈ toggle x current <-> y ∈ current))
  /\ (NoDup current -> NoDup (toggle x current))
  /\ (x ∉ current -> toggle x (toggle x current) = current).
Proof.
  unfold toggle.
  assert (Hfilter : forall y l,
            y ∈ List.filter (fun e => bool_decide (e <> x)) l
            <-> y ∈ l /\ y <> x).
  { intros y l. rewrite !list_elem_of_In, filter_In, bool_decide_eq_true.
    reflexivity. }
  destruct (bool_decide_reflect (x ∈ current)) as [Hin | Hnot].
  - repeat split.
    + intros Hx. apply Hfilter in Hx as [_ Hne]. now contradiction Hne.
    + intros Hn. contradiction.
    + intros Hy. now apply Hfilter in Hy as [Hy _].
    + intros Hy. now apply Hfilter.
    + intros Hnd. apply NoDup_ListNoDup, List.NoDup_filter, NoDup_ListNoDup, Hnd.
    + intros Hn. contradiction.
  - repeat split.
    + intros _. exact Hnot.
    + intros _. apply elem_of_app. right. now apply list_elem_of_singleton.
    + intros Hy. apply elem_of_app in Hy as [Hy | Hy]; [exact Hy |].
      apply list_elem_of_singleton in Hy. contradiction.
    + intros Hy. apply elem_of_app. now left.
    + intros Hnd. apply NoDup_app. repeat split.
      * exact Hnd.
      * intros y Hy Hy'. apply list_elem_of_singleton in Hy'. now subst y.
      * apply NoDup_singleton.
    + intros _.
      rewrite bool_decide_eq_true_2
        by (apply elem_of_app; right; now apply list_elem_of_singleton).
      rewrite List.filter_app. simpl.
      rewrite bool_decide_eq_false_2 by (intros Hne; now apply Hne).
      rewrite app_nil_r.
      apply forallb_filter_id. apply forallb_forall. intros y Hy.
      apply bool_decide_eq_true. intros ->. apply Hnot.
      now apply list_elem_of_In.
Qed.

End Toggle.

Section Lists.
Context {A : Type} (id : A -> string).

(** X22.  The reducer of the opportunities puts the one received first,
    keeps at most 100 of them, drops the earlier entry with the same
    identifier, and so keeps the identifiers distinct. *)
Theorem received_opportunities_stay_distinct (data : A) (prev : list A) :
  let next := receiveOpportunity id data prev in
  head next = Some data
  /\ (length next <= 100)%nat
  /\ (NoDup (map id prev) -> NoDup (map id next))
  /\ (forall o, o ∈ next -> o = data \/ (o ∈ prev /\ id o <> id data)).
Proof.
  intros next. unfold receiveOpportunity in next.
  set (others := List.filter _ prev) in next.
  assert (Hnext : next = take 100 (data :: others))
    by (subst next; now rewrite slice0_take).
  assert (Hothers : forall o, o ∈ others <-> o ∈ prev /\ id o <> id data).
  { intros o. unfold others.
    rewrite !list_elem_of_In, filter_In, negb_true_iff.
    rewrite <- not_true_iff_false, String.eqb_eq. reflexivity. }
  rewrite Hnext. repeat split.
  - rewrite length_take. lia.
  - intros Hnd. simpl. apply NoDup_cons. split.
    + intros Hin. apply list_elem_of_fmap in Hin as (o & Hid & Ho).
      apply elem_of_take in Ho as (i & Ho & _).
      apply list_elem_of_lookup_2 in Ho. apply Hothers in Ho as [_ Hne].
      now apply Hne.
    + rewrite <- firstn_map.
      apply (sublist_NoDup _ (map id others)); [| apply sublist_take].
      apply NoDup_ListNoDup in Hnd. apply NoDup_ListNoDup.
      unfold others. clear -Hnd.
      induction prev as [| o prev' IH]; simpl; [constructor |].
      inversion Hnd as [| ? ? Hnot Hnd']; subst.
      destruct (negb (id o =? id data)%string); simpl; [| now apply IH].
      constructor; [| now apply IH].
      intros Hin. apply Hnot. apply in_map_iff in Hin as (o' & Hid & Ho').
      apply filter_In in Ho' as [Ho' _]. apply in_map_iff. eauto.
  - intros o Ho. apply elem_of_take in Ho as (i & Ho & _).
    apply list_elem_of_lookup_2 in Ho.
    apply elem_of_cons in Ho as [-> | Ho]; [now left | right].
    now apply Hothers.
Qed.

End Lists.
End ClientFacts.


(** ** The theorems above at concrete books, runs and requests *)

Module ExampleFacts.
Import Json Adapters Connector Binary64 Exact Engine Scenarios.
Import ConnectorFacts LifecycleFacts ScenarioFacts.

Lemma analyse_profitableBookX :
  analyse Wiring.configuredTakerFee profitableBookX "BTC/USDT"
  = Some profitableQuoteX.
Proof. vm_compute. reflexivity. Qed.

(** X2 at the profitable book: Bybit at 100 comes before OKX at 103. *)
Lemma analysed_prices_ascend_witness :
  Permutation (q_prices profitableQuoteX)
              (collectPrices profitableBookX "BTC/USDT")
  /\ StronglySorted
       (fun a b : Engine.PricePoint xnum =>
          xleb (pp_price a) (pp_price b) = true)
       (q_prices profitableQuoteX)
  /\ head (q_prices profitableQuoteX) = Some (q_bestBuy profitableQuoteX)
  /\ last (q_prices profitableQuoteX) = Some (q_bestSell profitableQuoteX)
  /\ Forall (fun p : Engine.PricePoint xnum =>
               exists t, quoted profitableBookX "BTC/USDT" (pp_exchange p) t
                         /\ pp_price p = tk_ask t)
            (q_prices profitableQuoteX).
Proof.
  apply (OrderFacts.analysed_prices_ascend Wiring.configuredTakerFee).
  vm_compute. reflexivity.
Defined.

(** X3 at the profitable book: the pass buys on Bybit and sells on OKX. *)
Lemma buy_and_sell_venues_differ_witness :
  pp_exchange (q_bestBuy profitableQuote)
  <> pp_exchange (q_bestSell profitableQuote).
Proof.
  apply (ScanFacts.buy_and_sell_venues_differ
           Wiring.configuredTakerFee profitableBook "BTC/USDT").
  - apply NoDup_ListNoDup. vm_compute.
    repeat constructor; simpl; intuition discriminate.
  - vm_compute. reflexivity.
Defined.

(** X4 at the profitable book: the opportunity of a first pass buys at 100
    and sells at 102. *)
Lemma emitted_opportunity_sells_above_its_buy_price_witness :
  exists q : Engine.Quote xnum,
    analyse Wiring.configuredTakerFee profitableBookX "BTC/USDT" = Some q
    /\ opportunityOf 1000000 "BTC/USDT" profitableBookX profitableQuoteX
       = opportunityOf 1000000 "BTC/USDT" profitableBookX q
    /\ xltb (XFin 0) (pp_price (q_bestBuy q)) = true
    /\ xltb (pp_price (q_bestBuy q)) (q_sellPrice q) = true.
Proof.
  apply (ProfitFacts.emitted_opportunity_sells_above_its_buy_price
           Wiring.configuredTakerFee 1000000 "BTC/USDT" profitableBookX).
  - intros []; vm_compute; reflexivity.
  - vm_compute. reflexivity.
  - vm_compute. right. left. reflexivity.
Defined.

(** X6 at the profitable book: a pass that emits for BTC/USDT from Bybit to
    OKX leaves the instant of the opposite route alone. *)
Lemma cooldown_is_kept_per_route_witness :
  lastTimeOf (fst (analyzePair Wiring.configuredTakerFee 1000000 "BTC/USDT"
                               profitableBook))
             (opportunityKey "BTC/USDT" okx bybit)
  = lastTimeOf profitableBook (opportunityKey "BTC/USDT" okx bybit).
Proof.
  apply (ScanFacts.cooldown_is_kept_per_route Wiring.configuredTakerFee).
  intros q Hq. rewrite PassFacts.analyse_profitableBook in Hq.
  injection Hq as <-. vm_compute. discriminate.
Defined.

Lemma pollingWorld_run : runOn kucoin polling = Some pollingWorld.
Proof. vm_compute. reflexivity. Qed.

(** X10 at a KuCoin connector that was connected twice. *)
Lemma a_polling_connector_owns_one_timer_witness :
  sockets pollingWorld = [] /\ wire pollingWorld = []
  /\ timers pollingWorld = pollingTimers (self pollingWorld)
  /\ isPolling (self pollingWorld)
     = match pollingInterval (self pollingWorld) with
       | Some _ => true
       | None => false
       end
  /\ isConnected (self pollingWorld) = isPolling (self pollingWorld).
Proof.
  apply (PollingFacts.a_polling_connector_owns_one_timer
           parseFrames gunzipOf noInflate kucoin).
  - reflexivity.
  - exact (runOn_reachable kucoin polling pollingWorld pollingWorld_run).
Defined.

Lemma receivingWorld_run : runOn bitget receiving = Some receivingWorld.
Proof. vm_compute. reflexivity. Qed.

(** X13 at a Bitget connector that has received a ticker. *)
Lemma a_connector_writes_only_its_own_cache_entries_witness :
  Forall (ownEvent bitget) (published receivingWorld)
  /\ forall e' pair,
       e' <> bitget ->
       Engine.tickers (Wiring.deliverAll (published receivingWorld) goodCache)
         !! Engine.tickerKey e' pair
       = Engine.tickers goodCache !! Engine.tickerKey e' pair.
Proof.
  apply (PublishFacts.a_connector_writes_only_its_own_cache_entries
           parseFrames gunzipOf noInflate).
  exact (runOn_reachable bitget receiving receivingWorld receivingWorld_run).
Defined.

(** X14 at the connected Bybit connector. *)
Lemma disconnect_tears_down_witness :
  let w' := disconnect bybit connectedWorld in
  reconnectTimers w' = []
  /\ reconnectTimeout (self w') = None
  /\ pingInterval (self w') = None
  /\ ws (self w') = None
  /\ isConnected (self w') = false
  /\ (forall i, ws (self connectedWorld) = Some i ->
               sockets w' !! i <> Some OPEN
               /\ sockets w' !! i <> Some CONNECTING).
Proof.
  apply (disconnect_tears_down parseFrames gunzipOf noInflate).
  exact connectedWorld_reachable.
Defined.

Abbreviation serverReachable :=
  (Server.reachable Wiring.configuredTakerFee noFixed noTime noTime textOf
                    exchange_name [bybit; okx] ["BTC/USDT"]
                    (Some "token") (Some "chat")).

Lemma head_In {A} (l : list A) x : head l = Some x -> In x l.
Proof. destruct l; [discriminate |]. intros [= ->]. now left. Qed.

Lemma serverBusy_reachable : serverReachable serverBusy.
Proof.
  apply (ServerFacts.server_run_reachable
           Wiring.configuredTakerFee noFixed noTime noTime textOf exchange_name
           [bybit; okx] ["BTC/USDT"] (Some "token") (Some "chat")
           busy serverStart).
  - apply Server.reach_start.
  - vm_compute. reflexivity.
Qed.

(** X16 at the busy server: 101 opportunities were found and 101 messages
    went to Telegram; the server keeps 100 opportunities and 50 signals. *)
Lemma server_lists_stay_bounded_witness :
  length (Server.requests serverBusy) = 101%nat
  /\ length (Server.opportunities serverBusy) = 100%nat
  /\ length (Server.signals serverBusy) = 50%nat
  /\ (length (Server.opportunities serverBusy) <= 100)%nat
  /\ (length (Server.signals serverBusy) <= 50)%nat.
Proof.
  split; [vm_compute; reflexivity |].
  split; [vm_compute; reflexivity |].
  split; [vm_compute; reflexivity |].
  apply (ServerFacts.server_lists_stay_bounded
           Wiring.configuredTakerFee noFixed noTime noTime textOf exchange_name
           [bybit; okx] ["BTC/USDT"] (Some "token") (Some "chat")).
  exact serverBusy_reachable.
Defined.

(** X17 at the busy server: the setting is on and the notifier is
    configured and switched on, so one more opportunity makes one more
    request to Telegram and waits for its answer. *)
Lemma notifier_is_on_whenever_the_setting_is_witness :
  let s' := Server.onOpportunity noFixed noTime exchange_name foundOpportunity
                                 serverBusy in
  telegramEnabled (settings (Server.arbitrageEngine serverBusy)) = true
  /\ Telegram.enabled (Server.telegramService serverBusy) = true
  /\ Telegram.isConfigured (Server.telegramService serverBusy) = true
  /\ exists request,
       Server.requests s' = Server.requests serverBusy ++ [request]
       /\ Server.awaiting s'
          = Server.awaiting serverBusy ++ [(foundOpportunity, Some request)].
Proof.
  destruct (ServerFacts.notifier_is_on_whenever_the_setting_is
              Wiring.configuredTakerFee noFixed noTime noTime textOf
              exchange_name [bybit; okx] ["BTC/USDT"] (Some "token")
              (Some "chat") serverBusy serverBusy_reachable)
    as (Hon & Hconf & Hreq).
  assert (Hset : telegramEnabled (settings (Server.arbitrageEngine serverBusy))
                 = true) by (vm_compute; reflexivity).
  cbv zeta. split; [exact Hset |]. split; [exact (Hon Hset) |].
  split; [rewrite Hconf; vm_compute; reflexivity |].
  specialize (Hreq foundOpportunity). cbv zeta in Hreq.
  rewrite Hset in Hreq. exact Hreq.
Defined.

(** X18 at the busy server: it keeps 50 signals, and the latest is for an
    opportunity that went out to the clients. *)
Lemma every_signal_follows_its_opportunity_witness :
  exists g,
    head (Server.signals serverBusy) = Some g
    /\ Telegram.delivered g = true
    /\ In (Server.MsgOpportunity (Telegram.sg_opportunity g))
          (Server.broadcasts serverBusy).
Proof.
  destruct (SignalFacts.every_signal_follows_its_opportunity
              Wiring.configuredTakerFee noFixed noTime noTime textOf
              exchange_name [bybit; okx] ["BTC/USDT"] (Some "token")
              (Some "chat") serverBusy serverBusy_reachable)
    as (Hsig & _).
  destruct (head (Server.signals serverBusy)) as [g |] eqn:Hg;
    [| vm_compute in Hg; discriminate].
  exists g. split; [reflexivity |]. split.
  - vm_compute in Hg. injection Hg as <-. reflexivity.
  - exact (Hsig g (head_In _ g Hg)).
Defined.

(** X12 at a state update of CoinEx with two entries and at a ticker frame
    of BingX: one ticker each, made from the last price 100; the entry of
    CoinEx whose last price is 0 and a frame of BingX whose last price is
    not a number emit nothing. *)
Lemma coinex_and_bingx_quote_around_the_last_price_witness :
  (exists t, fst (coinex_handleMessage 7 coinexFrame) = [EmitTicker t]
             /\ tk_pair t = "BTC/USDT" /\ tk_last t = 100%float)
  /\ emits aroundLast (coinex_handleMessage 7 coinexFrame)
  /\ (exists t, fst (bingx_handleMessage 7 bingxFrame) = [EmitTicker t]
                /\ tk_pair t = "BTC/USDT" /\ tk_last t = 100%float)
  /\ emits aroundLast (bingx_handleMessage 7 bingxFrame)
  /\ fst (coinex_handleState 7 (coinexState "ETHUSDT" "0")) = []
  /\ fst (bingx_handleTicker 7 (bingxData "n/a")) = [].
Proof.
  destruct (EmitFacts.coinex_and_bingx_quote_around_the_last_price
              7 coinexFrame FloatFacts.float_order)
    as (Hcoinex & _ & Hskip & _).
  destruct (EmitFacts.coinex_and_bingx_quote_around_the_last_price
              7 bingxFrame FloatFacts.float_order)
    as (_ & Hbingx & _ & Hskip').
  split; [eexists; split; [vm_compute; reflexivity | split; reflexivity] |].
  split; [exact Hcoinex |].
  split; [eexists; split; [vm_compute; reflexivity | split; reflexivity] |].
  split; [exact Hbingx |].
  split.
  - apply (Hskip _ (JStr "0")); vm_compute; reflexivity.
  - apply (Hskip' _ (JStr "n/a")); vm_compute; reflexivity.
Defined.

(** X20 at a market order sent with the token the server expects. *)
Lemma an_order_goes_out_only_when_authorised_witness :
  (exists t, Some "s3cret" = Some t /\ t <> ""
             /\ Some "Bearer s3cret" = Some ("Bearer " +:+ t))
  /\ MexcApi.isConfigured orderConfig = true
  /\ truthy (get_opt orderBody "symbol") = true
  /\ truthy (get_opt orderBody "side") = true
  /\ truthy (get_opt orderBody "type") = true
  /\ truthy (get_opt orderBody "quantity") = true
  /\ (is_str (get_opt orderBody "type") "LIMIT" = true ->
      truthy (get_opt orderBody "price") = true)
  /\ MexcApi.c_method orderCall = "POST"
  /\ MexcApi.c_apiKey orderCall = Some (MexcApi.apiKey orderConfig).
Proof.
  apply (MexcFacts.an_order_goes_out_only_when_authorised
           signOf encodeOf textOf (Some "s3cret") (Some "Bearer s3cret")
           orderConfig 1000 orderBody orderCall).
  vm_compute. reflexivity.
Defined.

End ExampleFacts.
